(** * The advancing front of TQMesh: [src/algorithm/Front.h]

    A shallow embedding of class [Front] and of the properties its
    specification states about it.  [double] is IEEE binary64, embedded as
    Rocq's primitive floats.  Objects that C++ addresses through pointers and
    references (vertices in the [Vertices] store, edges in the front's
    [edges_] list) are records that carry an identity; a pointer is the
    identity of its target, and dereferencing looks the identity up in the
    container that owns the object. *)

From Stdlib Require Import List Permutation ZArith Lia Bool Arith PeanoNat.
From Stdlib Require Import Floats Sorted.
Import ListNotations.

(** ** Outcomes of a call *)

(** The C++ code can fail to return a value in three ways: an [ASSERT]
    fires, a reference or iterator that designates no live object is used, or
    a loop does not come to an end (the model runs out of fuel). *)
Inductive error : Type :=
| AssertFailed
| Undefined
| OutOfFuel.

Inductive result (A : Type) : Type :=
| Ok (a : A)
| Err (e : error).

Arguments Ok {A} a.
Arguments Err {A} e.

Definition bind {A B : Type} (r : result A) (k : A -> result B) : result B :=
  match r with
  | Ok a => k a
  | Err e => Err e
  end.

Notation "x <- r ;; k" := (bind r (fun x => k))
  (at level 61, r at next level, right associativity).
Notation "' p <- r ;; k" := (bind r (fun p => k))
  (at level 61, p pattern, r at next level, right associativity).

Definition of_option {A : Type} (o : option A) : result A :=
  match o with
  | Some a => Ok a
  | None => Err Undefined
  end.

(** ** Numbers *)

Definition double : Type := float.

(** [int] is a 32-bit two's complement integer, [size_t] a 64-bit unsigned
    one; conversions wrap. *)
Definition to_int (z : Z) : Z :=
  ((z + 2 ^ 31) mod 2 ^ 32 - 2 ^ 31)%Z.

Definition to_size_t (z : Z) : Z := (z mod 2 ^ 64)%Z.

(** ** Geometric primitives *)

(** Modelled from the spec: [Vec2.h] is not part of the sources.  [Vec2d] is
    the 2D vector of doubles with componentwise arithmetic and the Euclidean
    length that section 2 of the specification calls the geometric
    primitives. *)
Record Vec2d : Type := mkVec2d { vec_x : double; vec_y : double }.

Module Vec2.
Definition add (a b : Vec2d) : Vec2d :=
  mkVec2d (vec_x a + vec_x b)%float (vec_y a + vec_y b)%float.
Definition sub (a b : Vec2d) : Vec2d :=
  mkVec2d (vec_x a - vec_x b)%float (vec_y a - vec_y b)%float.
Definition scale (k : double) (a : Vec2d) : Vec2d :=
  mkVec2d (k * vec_x a)%float (k * vec_y a)%float.
Definition divide (a : Vec2d) (k : double) : Vec2d :=
  mkVec2d (vec_x a / k)%float (vec_y a / k)%float.
Definition neg (a : Vec2d) : Vec2d :=
  mkVec2d (- vec_x a)%float (- vec_y a)%float.
Definition length (a : Vec2d) : double :=
  PrimFloat.sqrt (vec_x a * vec_x a + vec_y a * vec_y a)%float.
End Vec2.

(** ** Vertices and the vertex store *)

Definition VertexId : Type := nat.
Definition EdgeId : Type := nat.

(** Modelled from the spec: [Vertex.h] is not part of the sources.  Section 3
    gives a vertex its coordinates and the flags [is_fixed], [on_boundary]
    and [on_front]; section 4.4 gives it the size weight passed to
    [Vertices::insert]. *)
Record Vertex : Type := mkVertex {
  vid : VertexId;
  xy : Vec2d;
  weight : double;
  is_fixed : bool;
  on_boundary : bool;
  on_front : bool
}.

Definition set_is_fixed (b : bool) (v : Vertex) : Vertex :=
  mkVertex (vid v) (xy v) (weight v) b (on_boundary v) (on_front v).
Definition set_on_boundary (b : bool) (v : Vertex) : Vertex :=
  mkVertex (vid v) (xy v) (weight v) (is_fixed v) b (on_front v).
Definition set_on_front (b : bool) (v : Vertex) : Vertex :=
  mkVertex (vid v) (xy v) (weight v) (is_fixed v) (on_boundary v) b.

(** The store owns the vertices in a position-addressable sequence;
    [v_next] is the identity the next created vertex receives. *)
Record Vertices : Type := mkVertices {
  v_items : list Vertex;
  v_next : VertexId
}.

(** Insertion in front of the first element that [here] accepts; a position
    that designates no element stands for [end()]. *)
Fixpoint insert_before {A : Type} (here : A -> bool) (a : A) (l : list A)
  : list A :=
  match l with
  | [] => [a]
  | b :: l' => if here b then a :: b :: l' else b :: insert_before here a l'
  end.

Definition is_vertex (i : VertexId) (v : Vertex) : bool := vid v =? i.

(** Dereferencing a [Vertex&]. *)
Definition vertex (vs : Vertices) (i : VertexId) : option Vertex :=
  find (is_vertex i) (v_items vs).

Definition vertex_xy (vs : Vertices) (i : VertexId) : result Vec2d :=
  v <- of_option (vertex vs i) ;; Ok (xy v).

(** A setter called through a [Vertex&]. *)
Definition update_vertex (i : VertexId) (f : Vertex -> Vertex) (vs : Vertices)
  : Vertices :=
  mkVertices
    (map (fun v => if is_vertex i v then f v else v) (v_items vs))
    (v_next vs).

(** Modelled from the spec: [Vertices::insert(pos, xy, w)] of the vertex
    store, which is not part of the sources: a new vertex with the given
    coordinates and weight and cleared flags is stored at [pos]. *)
Definition vertices_insert (pos : VertexId) (p : Vec2d) (w : double)
  (vs : Vertices) : VertexId * Vertices :=
  let v := mkVertex (v_next vs) p w false false false in
  (v_next vs,
   mkVertices (insert_before (is_vertex pos) v (v_items vs)) (S (v_next vs))).

(** ** Edges and the front *)

(** Modelled from the spec: [Edge.h] is not part of the sources.  An edge is
    a directed segment between two vertices of the store with an integer
    marker (section 3). *)
Record Edge : Type := mkEdge {
  eid : EdgeId;
  e_v1 : VertexId;
  e_v2 : VertexId;
  marker : Z
}.

Definition is_edge (i : EdgeId) (e : Edge) : bool := eid e =? i.

(** Modelled from the spec: [Edge::length()] and [Edge::tangent()], the
    derived quantities of section 3: the Euclidean distance of the end
    points and the unit direction from [v1] to [v2]. *)
Definition edge_length (vs : Vertices) (e : Edge) : result double :=
  a <- vertex_xy vs (e_v1 e) ;;
  b <- vertex_xy vs (e_v2 e) ;;
  Ok (Vec2.length (Vec2.sub b a)).

(** Modelled from the spec: [Edge::tangent()], see [edge_length]. *)
Definition edge_tangent (vs : Vertices) (e : Edge) : result Vec2d :=
  a <- vertex_xy vs (e_v1 e) ;;
  b <- vertex_xy vs (e_v2 e) ;;
  Ok (Vec2.divide (Vec2.sub b a) (Vec2.length (Vec2.sub b a))).

(** [Front] extends [EdgeList]: the edge sequence [edges_] and the area come
    from the base class, [base_] is the member declared at line 333.
    [e_next] is the identity the next created edge receives. *)
Record Front : Type := mkFront {
  edges_ : list Edge;
  e_next : EdgeId;
  area_ : double;
  base_ : option EdgeId
}.

Definition State : Type := (Front * Vertices)%type.

(** Modelled from the spec: [Domain.h] is not part of the sources.  A domain
    exposes its size function and its boundary loops, each an ordered
    sequence of edges [(v1, v2, marker)] (section 6). *)
Record Domain : Type := mkDomain {
  size_function : Vec2d -> double;
  boundaries : list (list Edge)
}.

(** [Front::mark_objects], lines 188-193: both vertices are flagged
    [on_front]; the edge [e] is received and not used. *)
Definition mark_objects (v1 v2 : VertexId) (e : EdgeId) (st : State) : State :=
  let '(f, vs) := st in
  (f, update_vertex v2 (set_on_front true)
        (update_vertex v1 (set_on_front true) vs)).

(** Modelled from the spec: [EdgeList::add_edge] (section 6), which lives in
    [EdgeList.h]: a new edge is created at the end of the sequence and the
    hook for new topology is invoked on it. *)
Definition add_edge (v1 v2 : VertexId) (m : Z) (st : State) : Edge * State :=
  let '(f, vs) := st in
  let e := mkEdge (e_next f) v1 v2 m in
  (e,
   mark_objects v1 v2 (eid e)
     (mkFront (edges_ f ++ [e]) (S (e_next f)) (area_ f) (base_ f), vs)).

(** Modelled from the spec: [EdgeList::insert_edge] (section 6), which lives
    in [EdgeList.h]: a new edge is created at the position of the edge
    [pos], that is in front of it, and the hook for new topology is invoked
    on it. *)
Definition insert_edge (pos : EdgeId) (v1 v2 : VertexId) (m : Z) (st : State)
  : Edge * State :=
  let '(f, vs) := st in
  let e := mkEdge (e_next f) v1 v2 m in
  (e,
   mark_objects v1 v2 (eid e)
     (mkFront (insert_before (is_edge pos) e (edges_ f))
              (S (e_next f)) (area_ f) (base_ f), vs)).

(** Modelled from the spec: the removal of an edge from the container
    (section 6), which lives in [EdgeList.h]. *)
Definition remove_edge (i : EdgeId) (f : Front) : Front :=
  mkFront (filter (fun e => negb (is_edge i e)) (edges_ f))
          (e_next f) (area_ f) (base_ f).

(** Dereferencing an [Edge*] or a list iterator. *)
Definition edge (f : Front) (i : EdgeId) : option Edge :=
  find (is_edge i) (edges_ f).

(** [edges_.begin()]; [None] is [edges_.end()]. *)
Definition begin_ (f : Front) : option EdgeId :=
  match edges_ f with
  | [] => None
  | e :: _ => Some (eid e)
  end.

(** [std::advance(iter, 1)] and the [++] of the range-based [for], for the
    iterator at the edge [i] of the list [l]. *)
Fixpoint next_in (i : EdgeId) (l : list Edge) : option EdgeId :=
  match l with
  | [] => None
  | e :: l' =>
      if is_edge i e
      then match l' with [] => None | e' :: _ => Some (eid e') end
      else next_in i l'
  end.

(** ** The methods of [Front] *)

Section FrontMethods.

(** [NDEBUG] tells whether the debug validation of lines 277-285 is
    compiled out.  [compute_area] and [check_orientation] are the members
    of [EdgeList] of these names, which [EdgeList.h] defines. *)
Variable NDEBUG : bool.
Variable compute_area : list Edge -> Vertices -> double.
Variable check_orientation : list Edge -> Vertices -> bool.

(** *** create_sub_vertex_coords, lines 204-293 *)

(** Lines 212-216: the vertices [v_a] and [v_b] and the tangent used for
    marching. *)
Definition march_from (dir : bool) (e : Edge) : VertexId :=
  if dir then e_v1 e else e_v2 e.

Definition march_to (dir : bool) (e : Edge) : VertexId :=
  if dir then e_v2 e else e_v1 e.

Definition march_tangent (dir : bool) (t : Vec2d) : Vec2d :=
  if dir then t else Vec2.neg t.

(** Lines 230-250, the [while (true)] loop: the points pushed to [xy_new]
    and the final [s_last]. *)
Fixpoint march (fuel : nat) (dom : Domain) (xy_a tang : Vec2d)
  (len s_end : double) (xy : Vec2d) : result (list Vec2d * double) :=
  match fuel with
  | O => Err OutOfFuel
  | S fuel' =>
      let rho := size_function dom xy in
      let xy_p := Vec2.add xy (Vec2.scale rho tang) in
      let rho_p := size_function dom xy_p in
      let dxy_c := Vec2.scale (0.5 * (rho + rho_p))%float tang in
      let xy_c := Vec2.add xy dxy_c in
      let l := Vec2.length (Vec2.sub xy_c xy_a) in
      let s := (l / len)%float in
      if (s_end <? s)%float then Ok ([xy_c], s)
      else
        '(pts, s_last) <- march fuel' dom xy_a tang len s_end xy_c ;;
        Ok (xy_c :: pts, s_last)
  end.

(** Lines 278-284: every point is farther from [xy_new[0]] than the one
    before it. *)
Fixpoint ascending (x0 : Vec2d) (s_prev : double) (pts : list Vec2d)
  : bool :=
  match pts with
  | [] => true
  | p :: pts' =>
      let s := Vec2.length (Vec2.sub p x0) in
      (s_prev <? s)%float && ascending x0 s pts'
  end.

(** Lines 219-285 for the start point [xy_a], the end point [xy_b], the
    marching tangent [tang], the edge length [len] and the size [rho_b]
    sampled at the end point: [xy_new] as it stands in front of the final
    reversal. *)
Definition march_points (fuel : nat) (dom : Domain) (xy_a xy_b tang : Vec2d)
  (len rho_b : double) : result (list Vec2d) :=
  let s_end := (1.0 - 0.5 * rho_b / len)%float in
  '(marched, s_last) <- march fuel dom xy_a tang len s_end xy_a ;;
  (* xy_new[1 .. size-2]; the last marched point is overwritten by xy_b *)
  let inner := removelast marched in
  let d_cr := Vec2.scale ((1.0 - s_last) * len)%float tang in
  let rho_i := 0.0%float :: map (size_function dom) inner ++ [0.0%float] in
  let rho_tot := fold_left PrimFloat.add rho_i 0.0%float in
  let rho_i := map (fun v => (v / rho_tot)%float) rho_i in
  let inner :=
    map (fun pr => Vec2.add (fst pr) (Vec2.scale (snd pr) d_cr))
        (combine inner (tl rho_i)) in
  let xy_new := xy_a :: inner ++ [xy_b] in
  if NDEBUG || ascending xy_a 0.0%float (tl xy_new)
  then Ok xy_new
  else Err AssertFailed.

(** Lines 212-285: the choice of [v_a], [v_b] and the tangent by [dir],
    then the marching. *)
Definition sub_vertex_sequence (fuel : nat) (dom : Domain) (vs : Vertices)
  (e : Edge) (dir : bool) (rho_1 rho_2 : double) : result (list Vec2d) :=
  xy_a <- vertex_xy vs (march_from dir e) ;;
  xy_b <- vertex_xy vs (march_to dir e) ;;
  t <- edge_tangent vs e ;;
  len <- edge_length vs e ;;
  march_points fuel dom xy_a xy_b (march_tangent dir t) len
               (if dir then rho_2 else rho_1).

Definition create_sub_vertex_coords (fuel : nat) (dom : Domain)
  (vs : Vertices) (e : Edge) (dir : bool) (rho_1 rho_2 : double)
  : result (list Vec2d) :=
  xy_new <- sub_vertex_sequence fuel dom vs e dir rho_1 rho_2 ;;
  Ok (if dir then xy_new else rev xy_new).

(** *** create_sub_edges, lines 302-328 *)

Definition flag_on_boundary (e_new : Edge) (st : State) : State :=
  let '(f, vs) := st in
  (f, update_vertex (e_v2 e_new) (set_on_boundary true)
        (update_vertex (e_v1 e_new) (set_on_boundary true) vs)).

(** Lines 308-322, over the points [xy_new[1 .. size-2]]. *)
Fixpoint sub_edges_loop (e : Edge) (inner : list Vec2d) (v_cur : VertexId)
  (st : State) : VertexId * State :=
  match inner with
  | [] => (v_cur, st)
  | p :: inner' =>
      let '(f, vs) := st in
      let '(v_n, vs) := vertices_insert (e_v2 e) p 1.0%float vs in
      let vs := update_vertex v_n (set_is_fixed true) vs in
      let '(e_new, st) := insert_edge (eid e) v_cur v_n (marker e) (f, vs) in
      sub_edges_loop e inner' v_n (flag_on_boundary e_new st)
  end.

(** With an empty [xy_new] the bound [xy_new.size()-1] wraps around and
    the loop reads past the end of the vector. *)
Definition create_sub_edges (e : Edge) (xy_new : list Vec2d) (st : State)
  : result State :=
  match xy_new with
  | [] => Err Undefined
  | _ :: rest =>
      let '(v_cur, st) := sub_edges_loop e (removelast rest) (e_v1 e) st in
      let '(e_new, st) := insert_edge (eid e) v_cur (e_v2 e) (marker e) st in
      Ok (flag_on_boundary e_new st)
  end.

(** *** refine, lines 88-132 *)

(** Lines 99-109: the points placed on the edge [e]. *)
Definition sub_vertex_placement (fuel : nat) (dom : Domain) (vs : Vertices)
  (e : Edge) : result (list Vec2d) :=
  xy_1 <- vertex_xy vs (e_v1 e) ;;
  xy_2 <- vertex_xy vs (e_v2 e) ;;
  let rho_1 := size_function dom xy_1 in
  let rho_2 := size_function dom xy_2 in
  let dir := (rho_1 <? rho_2)%float in
  create_sub_vertex_coords fuel dom vs e dir rho_1 rho_2.

(** Lines 97-120, the body of the loop for the edge [e]. *)
Definition refine_edge (fuel : nat) (dom : Domain) (e : Edge)
  (marked : list EdgeId) (st : State) : result (list EdgeId * State) :=
  xy_new <- sub_vertex_placement fuel dom (snd st) e ;;
  if length xy_new <? 3 then Ok (marked, st)
  else
    st' <- create_sub_edges e xy_new st ;;
    Ok (marked ++ [eid e], st').

(** The range-based [for] of line 95: [it] is the list iterator, [seen]
    records the edges the iterator has been dereferenced at. *)
Fixpoint refine_loop (n fuel : nat) (dom : Domain) (it : option EdgeId)
  (seen marked : list EdgeId) (st : State)
  : result (list EdgeId * list EdgeId * State) :=
  match it with
  | None => Ok (seen, marked, st)
  | Some i =>
      match n with
      | O => Err OutOfFuel
      | S n' =>
          e <- of_option (edge (fst st) i) ;;
          '(marked', st') <- refine_edge fuel dom e marked st ;;
          refine_loop n' fuel dom (next_in i (edges_ (fst st')))
                      (seen ++ [i]) marked' st'
      end
  end.

(** Lines 124-125. *)
Definition remove_marked (marked : list EdgeId) (f : Front) : Front :=
  fold_left (fun f i => remove_edge i f) marked f.

Definition refine (n fuel : nat) (dom : Domain) (st : State)
  : result (Z * State) :=
  let n_before := to_int (Z.of_nat (length (edges_ (fst st)))) in
  '(_, marked, (f, vs)) <-
     refine_loop n fuel dom (begin_ (fst st)) [] [] st ;;
  let f := remove_marked marked f in
  let f := mkFront (edges_ f) (e_next f) (compute_area (edges_ f) vs)
                   (base_ f) in
  Ok (to_int (to_size_t
                (Z.of_nat (length (edges_ f)) - to_size_t n_before)),
      (f, vs)).

(** *** The base reference, lines 76-82 and 137-154 *)

Definition base (f : Front) : result Edge :=
  b <- of_option (base_ f) ;; of_option (edge f b).

Definition set_base (b : Edge) (f : Front) : Front :=
  mkFront (edges_ f) (e_next f) (area_ f) (Some (eid b)).

Definition set_base_first (f : Front) : Front :=
  if length (edges_ f) <? 1 then f
  else mkFront (edges_ f) (e_next f) (area_ f) (begin_ f).

Definition set_base_next (f : Front) : result Front :=
  if length (edges_ f) <? 1 then Ok f
  else
    b <- base f ;;
    let iter := next_in (eid b) (edges_ f) in
    let iter := match iter with None => begin_ f | Some _ => iter end in
    Ok (mkFront (edges_ f) (e_next f) (area_ f) iter).

(** *** The constructor, lines 44-71 *)

(** Lines 55-63 for one boundary edge. *)
Definition add_boundary_edge (st : State) (e : Edge) : State :=
  let '(f, vs) := st in
  let vs := update_vertex (e_v1 e) (set_is_fixed true) vs in
  let '(e_new, st) := add_edge (e_v1 e) (e_v2 e) (marker e) (f, vs) in
  flag_on_boundary e_new st.

(** Modelled from the spec: the [ASSERT] macro of [utils.h] and the
    constructor of [EdgeList] are not part of the sources.  A front starts
    with no edge and a null [base_] (line 333); a failed orientation check
    is a fatal construction error (section 4.1). *)
Definition empty_front : Front := mkFront [] 0 0.0%float None.

(** Lines 44-71: the edges of all boundaries are added, the orientation is
    checked and the front is refined. *)
Definition Front_new (n fuel : nat) (dom : Domain) (vs : Vertices)
  : result State :=
  let st :=
    fold_left (fun st boundary => fold_left add_boundary_edge boundary st)
              (boundaries dom) (empty_front, vs) in
  if check_orientation (edges_ (fst st)) (snd st)
  then '(_, st') <- refine n fuel dom st ;; Ok st'
  else Err AssertFailed.

End FrontMethods.

(** ** Well-formed containers and reference definitions *)

(** Identities stand for addresses, so those of the live objects of a
    container are pairwise distinct and older than the next one handed
    out. *)
Fixpoint distinct (l : list nat) : bool :=
  match l with
  | [] => true
  | i :: l' => negb (existsb (Nat.eqb i) l') && distinct l'
  end.

(** The edges of a front have distinct identities below [e_next]. *)
Definition front_ok (f : Front) : bool :=
  distinct (map eid (edges_ f))
  && forallb (fun e => eid e <? e_next f) (edges_ f).

(** The vertices of a store have identities below [v_next]. *)
Definition vertices_ok (vs : Vertices) : bool :=
  forallb (fun v => vid v <? v_next vs) (v_items vs).

(** The base reference designates a live edge, or is null on an empty
    front. *)
Definition base_live (f : Front) : Prop :=
  match base_ f with
  | None => edges_ f = []
  | Some b => edge f b <> None
  end.

(** The snapshot reading of section 4.2: the loop body is applied once to
    every edge of a list fixed in advance. *)
Fixpoint refine_snapshot (NDEBUG : bool) (fuel : nat) (dom : Domain)
  (l : list Edge) (marked : list EdgeId) (st : State)
  : result (list EdgeId * State) :=
  match l with
  | [] => Ok (marked, st)
  | e :: l' =>
      '(marked', st') <- refine_edge NDEBUG fuel dom e marked st ;;
      refine_snapshot NDEBUG fuel dom l' marked' st'
  end.

(** The edges that replace an edge with marker [m]: a chain of [k + 1] edges
    from [v_cur] to [v_end] through the [k] vertices [vi], [vi + 1], ...;
    the edges are numbered from [ei]. *)
Fixpoint sub_edges (m : Z) (ei : EdgeId) (v_cur vi : VertexId) (k : nat)
  (v_end : VertexId) : list Edge :=
  match k with
  | O => [mkEdge ei v_cur v_end m]
  | S k' => mkEdge ei v_cur vi m :: sub_edges m (S ei) vi (S vi) k' v_end
  end.

(** A path of edges from the vertex [a] to the vertex [b]. *)
Fixpoint connects (a : VertexId) (l : list Edge) (b : VertexId) : Prop :=
  match l with
  | [] => a = b
  | e :: l' => e_v1 e = a /\ connects (e_v2 e) l' b
  end.

(** [k] successive calls of [set_base_next]. *)
Fixpoint set_base_next_iter (k : nat) (f : Front) : result Front :=
  match k with
  | O => Ok f
  | S k' => f' <- set_base_next f ;; set_base_next_iter k' f'
  end.

(** A vertex after later writes: same identity, coordinates and weight,
    flags only raised. *)
Definition vertex_le (v v' : Vertex) : Prop :=
  vid v' = vid v /\ xy v' = xy v /\ weight v' = weight v
  /\ (is_fixed v = true -> is_fixed v' = true)
  /\ (on_boundary v = true -> on_boundary v' = true)
  /\ (on_front v = true -> on_front v' = true).

(** A store after later writes: every vertex is still there, under its
    identity, with flags only raised. *)
Definition store_le (vs vs' : Vertices) : Prop :=
  forall i v, vertex vs i = Some v ->
    exists v', vertex vs' i = Some v' /\ vertex_le v v'.

(** [edges_.begin()] of a list, as an identity. *)
Definition head_id (l : list Edge) : option EdgeId :=
  match l with
  | [] => None
  | e :: _ => Some (eid e)
  end.

(** Lines 324-326: the last edge of the chain, to [v2]. *)
Definition close_chain (e : Edge) (r : VertexId * State) : State :=
  let '(v_cur, st) := r in
  let '(e_new, st) := insert_edge (eid e) v_cur (e_v2 e) (marker e) st in
  flag_on_boundary e_new st.

(** The four setter calls that follow the creation of an edge from [a] to
    [b]: the hook flags both vertices [on_front], the caller flags them
    [on_boundary]. *)
Definition flag_pair (a b : VertexId) (vs : Vertices) : Vertices :=
  update_vertex b (set_on_boundary true)
    (update_vertex a (set_on_boundary true)
       (update_vertex b (set_on_front true)
          (update_vertex a (set_on_front true) vs))).

(** The result of lines 99-109 as a function of the coordinates [a] of [v1]
    and [b] of [v2]. *)
Definition placement_of (NDEBUG : bool) (fuel : nat) (dom : Domain)
  (a b : Vec2d) : result (list Vec2d) :=
  let rho_1 := size_function dom a in
  let rho_2 := size_function dom b in
  let dir := (rho_1 <? rho_2)%float in
  let len := Vec2.length (Vec2.sub b a) in
  let t := Vec2.divide (Vec2.sub b a) len in
  xy_new <- march_points NDEBUG fuel dom
              (if dir then a else b) (if dir then b else a)
              (march_tangent dir t) len (if dir then rho_2 else rho_1) ;;
  Ok (if dir then xy_new else rev xy_new).

(** The front [f] with its base reference set to [b]. *)
Definition with_base (f : Front) (b : option EdgeId) : Front :=
  mkFront (edges_ f) (e_next f) (area_ f) b.

(** The check that every edge of a front gets fewer than 3 points. *)
Definition all_short (NDEBUG : bool) (fuel : nat) (dom : Domain) (st : State)
  : bool :=
  forallb (fun e =>
             match sub_vertex_placement NDEBUG fuel dom (snd st) e with
             | Ok pts => length pts <? 3
             | Err _ => false
             end) (edges_ (fst st)).

(** The hook flags the edge it is given if the edge it leaves in the front
    is not the edge it found there. *)
Definition hook_flags_edge (v1 v2 : VertexId) (e : EdgeId) (st : State)
  : Prop :=
  edge (fst (mark_objects v1 v2 e st)) e <> edge (fst st) e.

(** ** A square of side 10 *)

(** A vertex as the store creates it, with weight 1. *)
Definition corner (i : VertexId) (x y : double) : Vertex :=
  mkVertex i (mkVec2d x y) 1.0%float false false false.

(** The corners of the square and its four sides, counter-clockwise, with
    the markers 7, 8, 9 and 10. *)
Definition square_vertices : Vertices :=
  mkVertices [corner 0 0%float 0%float; corner 1 10%float 0%float;
              corner 2 10%float 10%float; corner 3 0%float 10%float] 4.

Definition square_loop : list Edge :=
  [mkEdge 0 0 1 7%Z; mkEdge 1 1 2 8%Z; mkEdge 2 2 3 9%Z; mkEdge 3 3 0 10%Z].

(** A size function of 2 everywhere, one of 20 everywhere, and one that
    grows with [x]. *)
Definition fine_domain : Domain := mkDomain (fun _ => 2.0%float) [square_loop].
Definition coarse_domain : Domain :=
  mkDomain (fun _ => 20.0%float) [square_loop].
Definition graded_domain : Domain :=
  mkDomain (fun p => (1.0 + 0.25 * vec_x p)%float) [square_loop].

(** A size function of 20 on the line [y = 0] and of 2 elsewhere. *)
Definition mixed_domain : Domain :=
  mkDomain (fun p => if (vec_y p <=? 0)%float then 20.0%float else 2.0%float)
           [square_loop].

(** Stand-ins for [compute_area] and [check_orientation] in the examples:
    an area of 0 and a check that accepts every front. *)
Definition no_area (_ : list Edge) (_ : Vertices) : double := 0.0%float.
Definition any_orientation (_ : list Edge) (_ : Vertices) : bool := true.

(** The state in which the hook is called when the first edge of the square
    is appended to an empty front: the container has created the edge, no
    vertex is flagged yet. *)
Definition first_edge_created : State :=
  (mkFront [mkEdge 0 0 1 7%Z] 1 0.0%float None, square_vertices).

(** The front of the square as the constructor has it in front of its call
    of [refine]. *)
Definition square_state : State :=
  fold_left add_boundary_edge square_loop (empty_front, square_vertices).

(** The square refined once by the constructor. *)
Definition refined_square : State :=
  match Front_new false no_area any_orientation 4 100 fine_domain
                  square_vertices with
  | Ok st => st
  | Err _ => (empty_front, square_vertices)
  end.

(** Six points on the lower side of the square. *)
Definition lower_side_points : list Vec2d :=
  [mkVec2d 0%float 0%float; mkVec2d 2%float 0%float; mkVec2d 4%float 0%float;
   mkVec2d 6%float 0%float; mkVec2d 8%float 0%float; mkVec2d 10%float 0%float].

(** ** Definitions for the further properties *)

(** What the loop of lines 124-125 leaves of a list of edges: the edges
    that are not marked. *)
Definition unmarked (marked : list EdgeId) (l : list Edge) : list Edge :=
  filter (fun e => negb (existsb (Nat.eqb (eid e)) marked)) l.

(** What [refine] makes of an edge [e]: the edge itself, or a chain of two
    or more edges, created not before the identity [n], that leads from the
    [v1] of [e] to its [v2] and carries its marker. *)
Definition replaces (n : EdgeId) (e : Edge) (seg : list Edge) : Prop :=
  seg = [e]
  \/ (2 <= length seg
      /\ connects (e_v1 e) seg (e_v2 e)
      /\ forall x, In x seg -> marker x = marker e /\ n <= eid x).

(** The edges that [add_edge] creates for the edges of [l], the first of
    them with the identity [n]. *)
Fixpoint renumber (n : EdgeId) (l : list Edge) : list Edge :=
  match l with
  | [] => []
  | e :: l' => mkEdge n (e_v1 e) (e_v2 e) (marker e) :: renumber (S n) l'
  end.

(** Lines 49-64: the state the constructor has built when it checks the
    orientation. *)
Definition boundary_front (dom : Domain) (vs : Vertices) : State :=
  fold_left (fun st boundary => fold_left add_boundary_edge boundary st)
            (boundaries dom) (empty_front, vs).

(** The lengths that the comparisons of [sort_edges] read, one for every
    edge. *)
Fixpoint edge_lengths (vs : Vertices) (l : list Edge)
  : result (list (double * Edge)) :=
  match l with
  | [] => Ok []
  | e :: l' =>
      len <- edge_length vs e ;;
      rest <- edge_lengths vs l' ;;
      Ok ((len, e) :: rest)
  end.

Section SortEdges.

(** [std::list::sort] with a comparison function; it belongs to the C++
    library. *)
Variable list_sort :
  (double * Edge -> double * Edge -> bool) ->
  list (double * Edge) -> list (double * Edge).

(** [sort_edges], lines 160-180: the edges are sorted by [a->length() <
    b->length()], or by [a->length() > b->length()], and the base is set
    by [set_base_first]. *)
Definition sort_edges (ascending : bool) (st : State) : result Front :=
  keyed <- edge_lengths (snd st) (edges_ (fst st)) ;;
  let compare :=
    if ascending
    then fun a b : double * Edge => (fst a <? fst b)%float
    else fun a b : double * Edge => (fst b <? fst a)%float in
  Ok (set_base_first
        (mkFront (map snd (list_sort compare keyed)) (e_next (fst st))
                 (area_ (fst st)) (base_ (fst st)))).

End SortEdges.

(** A stable sort by insertion, to run [sort_edges] with. *)
Fixpoint insert_stable {A : Type} (lt : A -> A -> bool) (a : A) (l : list A)
  : list A :=
  match l with
  | [] => [a]
  | b :: l' => if lt b a then b :: insert_stable lt a l' else a :: b :: l'
  end.

Fixpoint sort_stable {A : Type} (lt : A -> A -> bool) (l : list A)
  : list A :=
  match l with
  | [] => []
  | a :: l' => insert_stable lt a (sort_stable lt l')
  end.

(** Three edges of the lengths 5, 1 and 3 on a line. *)
Definition line_state : State :=
  (mkFront [mkEdge 0 0 1 1%Z; mkEdge 1 1 2 2%Z; mkEdge 2 2 3 3%Z] 3
           0.0%float None,
   mkVertices [corner 0 0%float 0%float; corner 1 5%float 0%float;
               corner 2 6%float 0%float; corner 3 9%float 0%float] 4).

(** A domain whose boundary is the lower side of the square alone, with a
    size function of 20. *)
Definition open_domain : Domain :=
  mkDomain (fun _ => 20.0%float) [[mkEdge 0 0 1 7%Z]].

(** A double that is a zero or not a number. *)
Definition zero_or_nan (x : double) : Prop :=
  (exists s, Prim2SF x = S754_zero s) \/ Prim2SF x = S754_nan.

(** ** The march as section 4.3 describes it *)

(** One step from the point [xy]: a step of the length of the size at [xy]
    is predicted along the tangent, the size is sampled at the predicted
    point, and the step is corrected to the average of the two sizes. *)
Definition trapezoid_step (dom : Domain) (tang xy : Vec2d) : Vec2d :=
  let rho := size_function dom xy in
  let predicted := Vec2.add xy (Vec2.scale rho tang) in
  let rho_p := size_function dom predicted in
  Vec2.add xy (Vec2.scale (0.5 * (rho + rho_p))%float tang).

(** The point that [k] steps along [tang] reach from the point [x]. *)
Fixpoint march_position (dom : Domain) (tang x : Vec2d) (k : nat) : Vec2d :=
  match k with
  | O => x
  | S k' => trapezoid_step dom tang (march_position dom tang x k')
  end.

(** The arclength fraction [s = |p - x| / L] of a point [p] of the march
    from [x], and the cutoff [s_end = 1 - 0.5 rho(b) / L]. *)
Definition abscissa (x : Vec2d) (len : double) (p : Vec2d) : double :=
  (Vec2.length (Vec2.sub p x) / len)%float.

Definition cutoff (len rho_end : double) : double :=
  (1.0 - 0.5 * rho_end / len)%float.

(** The march from [x] along [tang] has [n] steps: the [n]-th point is the
    first one whose arclength fraction exceeds the cutoff. *)
Definition marches (dom : Domain) (x tang : Vec2d) (len rho_end : double)
  (n : nat) : Prop :=
  1 <= n
  /\ (forall k, 1 <= k < n ->
        (cutoff len rho_end <? abscissa x len (march_position dom tang x k))
        %float = false)
  /\ (cutoff len rho_end <? abscissa x len (march_position dom tang x n))
     %float = true.

(** The points that a march of [n] steps from [x] along [tang] places
    between [x] and [y]: the points of the first [n - 1] steps, each moved
    along the tangent by its share of the cropped distance, which is the
    gap that the last step leaves; the shares are the sizes at the points
    over their sum, in which the two end points count 0. *)
Definition placed (dom : Domain) (x y tang : Vec2d) (len : double) (n : nat)
  : list Vec2d :=
  let interior := map (march_position dom tang x) (seq 1 (n - 1)) in
  let s_last := abscissa x len (march_position dom tang x n) in
  let gap := Vec2.scale ((1.0 - s_last) * len)%float tang in
  let total :=
    fold_left PrimFloat.add
      (0.0%float :: map (size_function dom) interior ++ [0.0%float])
      0.0%float in
  x :: map (fun q =>
            Vec2.add q (Vec2.scale (size_function dom q / total)%float gap))
         interior ++ [y].

(** A size function of 1 at both ends of the lower side of the square that
    is not symmetric in between. *)
Definition skew_domain : Domain :=
  mkDomain (fun p => (1.0 + 0.03125 * (vec_x p * vec_x p * (10.0 - vec_x p)))
                     %float)
           [square_loop].

(** ** Further well-formedness *)

(** The vertices of a store are pairwise distinct objects: no two of them
    have the same identity. *)
Definition vertices_distinct (vs : Vertices) : bool :=
  distinct (map vid (v_items vs)).

(** The largest [int]. *)
Definition INT_MAX : Z := (2 ^ 31 - 1)%Z.

(** ** Lists addressed by identity *)

Lemma distinct_NoDup (l : list nat) : distinct l = true <-> NoDup l.
Proof.
  induction l as [|i l IH]; simpl.
  - split; [constructor | reflexivity].
  - rewrite andb_true_iff, negb_true_iff, IH. split.
    + intros [Hex Hnd]. constructor; [|assumption].
      intros Hin. assert (existsb (Nat.eqb i) l = true) as Hc.
      { apply existsb_exists. exists i.
        split; [assumption|apply Nat.eqb_refl]. }
      congruence.
    + intros Hnd. inversion Hnd as [|? ? Hnin Hnd']; subst.
      split; [|assumption].
      destruct (existsb (Nat.eqb i) l) eqn:Hex; [|reflexivity].
      apply existsb_exists in Hex. destruct Hex as [j [Hin Hj]].
      apply Nat.eqb_eq in Hj. subst j. contradiction.
Qed.

Lemma insert_before_app {A : Type} (here : A -> bool) (a b : A)
  (pre suf : list A) :
  (forall x, In x pre -> here x = false) -> here b = true ->
  insert_before here a (pre ++ b :: suf) = pre ++ a :: b :: suf.
Proof.
  intros Hpre Hb. induction pre as [|x pre IH]; simpl.
  - rewrite Hb. reflexivity.
  - rewrite (Hpre x (or_introl eq_refl)). f_equal. apply IH.
    intros y Hy. apply Hpre. right. assumption.
Qed.

Lemma find_app_skip {A : Type} (p : A -> bool) (pre l : list A) :
  (forall x, In x pre -> p x = false) -> find p (pre ++ l) = find p l.
Proof.
  intros Hpre. induction pre as [|x pre IH]; simpl; [reflexivity|].
  rewrite (Hpre x (or_introl eq_refl)). apply IH.
  intros y Hy. apply Hpre. right. assumption.
Qed.

Lemma next_in_app (i : EdgeId) (e : Edge) (pre suf : list Edge) :
  (forall x, In x pre -> is_edge i x = false) -> is_edge i e = true ->
  next_in i (pre ++ e :: suf) = head_id suf.
Proof.
  intros Hpre He. induction pre as [|x pre IH]; simpl.
  - rewrite He. destruct suf; reflexivity.
  - rewrite (Hpre x (or_introl eq_refl)). apply IH.
    intros y Hy. apply Hpre. right. assumption.
Qed.

Lemma is_edge_refl (e : Edge) : is_edge (eid e) e = true.
Proof. unfold is_edge. apply Nat.eqb_refl. Qed.

Lemma is_edge_false (i : EdgeId) (e : Edge) :
  eid e <> i -> is_edge i e = false.
Proof. intros H. unfold is_edge. apply Nat.eqb_neq. assumption. Qed.

(** In a list with distinct identities the elements in front of an element
    do not answer to its identity. *)
Lemma distinct_prefix (pre suf : list Edge) (e : Edge) :
  distinct (map eid (pre ++ e :: suf)) = true ->
  forall x, In x pre -> is_edge (eid e) x = false.
Proof.
  rewrite distinct_NoDup, map_app. simpl. intros Hnd x Hx.
  apply is_edge_false. intros Heq.
  apply NoDup_remove_2 in Hnd. apply Hnd. apply in_or_app. left.
  rewrite <- Heq. apply in_map. assumption.
Qed.

Lemma distinct_suffix (pre suf : list Edge) (e : Edge) :
  distinct (map eid (pre ++ e :: suf)) = true ->
  forall x, In x suf -> is_edge (eid e) x = false.
Proof.
  rewrite distinct_NoDup, map_app. simpl. intros Hnd x Hx.
  apply is_edge_false. intros Heq.
  apply NoDup_remove_2 in Hnd. apply Hnd. apply in_or_app. right.
  rewrite <- Heq. apply in_map. assumption.
Qed.

(** ** The edge sequence under [create_sub_edges] *)

Lemma create_sub_edges_unfold (e : Edge) (p : Vec2d) (rest : list Vec2d)
  (st : State) :
  create_sub_edges e (p :: rest) st
  = Ok (close_chain e (sub_edges_loop e (removelast rest) (e_v1 e) st)).
Proof.
  unfold create_sub_edges, close_chain.
  destruct (sub_edges_loop e (removelast rest) (e_v1 e) st) as [v_cur st1].
  destruct (insert_edge (eid e) v_cur (e_v2 e) (marker e) st1) as [e_new st2].
  reflexivity.
Qed.

Lemma insert_edge_fst (pos : EdgeId) (v1 v2 : VertexId) (m : Z) (f : Front)
  (vs : Vertices) :
  insert_edge pos v1 v2 m (f, vs)
  = (mkEdge (e_next f) v1 v2 m,
     (mkFront (insert_before (is_edge pos) (mkEdge (e_next f) v1 v2 m)
                             (edges_ f))
              (S (e_next f)) (area_ f) (base_ f),
      update_vertex v2 (set_on_front true)
        (update_vertex v1 (set_on_front true) vs))).
Proof. reflexivity. Qed.

Lemma sub_edges_loop_step (e : Edge) (p : Vec2d) (inner : list Vec2d)
  (v_cur : VertexId) (f : Front) (vs : Vertices) :
  sub_edges_loop e (p :: inner) v_cur (f, vs)
  = sub_edges_loop e inner (v_next vs)
      (mkFront (insert_before (is_edge (eid e))
                  (mkEdge (e_next f) v_cur (v_next vs) (marker e)) (edges_ f))
               (S (e_next f)) (area_ f) (base_ f),
       update_vertex (v_next vs) (set_on_boundary true)
         (update_vertex v_cur (set_on_boundary true)
            (update_vertex (v_next vs) (set_on_front true)
               (update_vertex v_cur (set_on_front true)
                  (update_vertex (v_next vs) (set_is_fixed true)
                     (snd (vertices_insert (e_v2 e) p 1.0%float vs))))))).
Proof. reflexivity. Qed.

Lemma close_chain_eq (e : Edge) (v_cur : VertexId) (f : Front)
  (vs : Vertices) :
  close_chain e (v_cur, (f, vs))
  = (mkFront (insert_before (is_edge (eid e))
                (mkEdge (e_next f) v_cur (e_v2 e) (marker e)) (edges_ f))
             (S (e_next f)) (area_ f) (base_ f),
     update_vertex (e_v2 e) (set_on_boundary true)
       (update_vertex v_cur (set_on_boundary true)
          (update_vertex (e_v2 e) (set_on_front true)
             (update_vertex v_cur (set_on_front true) vs)))).
Proof. reflexivity. Qed.

Lemma v_next_update (i : VertexId) (g : Vertex -> Vertex) (vs : Vertices) :
  v_next (update_vertex i g vs) = v_next vs.
Proof. reflexivity. Qed.

(** The new edges are spliced in front of [e], in the order of their
    creation; nothing else in the front changes. *)
Lemma close_chain_edges (e : Edge) (suf : list Edge) :
  forall (inner : list Vec2d) (pre : list Edge) (v_cur : VertexId)
         (f : Front) (vs : Vertices),
    edges_ f = pre ++ e :: suf ->
    (forall x, In x pre -> is_edge (eid e) x = false) ->
    eid e < e_next f ->
    let st' := close_chain e (sub_edges_loop e inner v_cur (f, vs)) in
    edges_ (fst st')
    = pre ++ sub_edges (marker e) (e_next f) v_cur (v_next vs)
               (length inner) (e_v2 e) ++ e :: suf
    /\ e_next (fst st') = e_next f + S (length inner)
    /\ base_ (fst st') = base_ f
    /\ area_ (fst st') = area_ f
    /\ v_next (snd st') = v_next vs + length inner.
Proof.
  induction inner as [|p inner IH]; intros pre v_cur f vs Hed Hpre Hlt st'.
  - subst st'. simpl sub_edges_loop. rewrite close_chain_eq. simpl.
    rewrite Hed, insert_before_app by (auto using is_edge_refl).
    repeat split; auto; lia.
  - subst st'. rewrite sub_edges_loop_step.
    rewrite Hed, insert_before_app by (auto using is_edge_refl).
    match goal with
    | |- context [sub_edges_loop e inner ?v (?f1, ?vs1)] =>
        destruct (IH (pre ++ [mkEdge (e_next f) v_cur (v_next vs) (marker e)])
                     v f1 vs1) as (H1 & H2 & H3 & H4 & H5)
    end.
    + cbn [edges_]. rewrite <- app_assoc. reflexivity.
    + intros x Hx. apply in_app_or in Hx. destruct Hx as [Hx|[Hx|[]]].
      * auto.
      * subst x. apply is_edge_false. simpl. lia.
    + cbn [e_next]. lia.
    + rewrite H1, H2, H3, H4, H5. rewrite <- app_assoc.
      cbn [e_next base_ area_ length sub_edges app].
      repeat rewrite v_next_update. cbn [vertices_insert snd v_next].
      repeat split; auto; lia.
Qed.

Lemma sub_edges_length (m : Z) (k : nat) :
  forall ei v_cur vi v_end,
    length (sub_edges m ei v_cur vi k v_end) = S k.
Proof. induction k; intros; simpl; auto. Qed.

Lemma sub_edges_marker (m : Z) (k : nat) :
  forall ei v_cur vi v_end x,
    In x (sub_edges m ei v_cur vi k v_end) -> marker x = m.
Proof.
  induction k as [|k IH]; intros ei v_cur vi v_end x Hx; simpl in Hx.
  - destruct Hx as [<-|[]]. reflexivity.
  - destruct Hx as [<-|Hx]; [reflexivity|]. eapply IH; eassumption.
Qed.

Lemma sub_edges_ids (m : Z) (k : nat) :
  forall ei v_cur vi v_end x,
    In x (sub_edges m ei v_cur vi k v_end) -> ei <= eid x < ei + S k.
Proof.
  induction k as [|k IH]; intros ei v_cur vi v_end x Hx; simpl in Hx.
  - destruct Hx as [<-|[]]. simpl. lia.
  - destruct Hx as [<-|Hx]; [simpl; lia|]. apply IH in Hx. lia.
Qed.

Lemma sub_edges_map_eid (m : Z) (k : nat) :
  forall ei v_cur vi v_end,
    map eid (sub_edges m ei v_cur vi k v_end) = seq ei (S k).
Proof.
  induction k as [|k IH]; intros; simpl; [reflexivity|].
  f_equal. apply IH.
Qed.

Lemma sub_edges_connects (m : Z) (k : nat) :
  forall ei v_cur vi v_end,
    connects v_cur (sub_edges m ei v_cur vi k v_end) v_end.
Proof.
  induction k as [|k IH]; intros; simpl; auto.
Qed.

(** The vertices strictly inside the chain are the [k] new ones. *)
Lemma sub_edges_inner (m : Z) (k : nat) :
  forall ei v_cur vi v_end,
    map e_v2 (removelast (sub_edges m ei v_cur vi k v_end)) = seq vi k.
Proof.
  induction k as [|k IH]; intros; [reflexivity|].
  cbn [sub_edges]. specialize (IH (S ei) vi (S vi) v_end).
  pose proof (sub_edges_length m k (S ei) vi (S vi) v_end) as Hlen.
  destruct (sub_edges m (S ei) vi (S vi) k v_end) as [|x l] eqn:Hs;
    [discriminate|].
  cbn [removelast map seq]. f_equal. exact IH.
Qed.

Lemma front_ok_iff (f : Front) :
  front_ok f = true
  <-> NoDup (map eid (edges_ f))
      /\ (forall e, In e (edges_ f) -> eid e < e_next f).
Proof.
  unfold front_ok. rewrite andb_true_iff, distinct_NoDup, forallb_forall.
  split; intros [H1 H2]; split; auto; intros e He.
  - apply Nat.ltb_lt. auto.
  - apply Nat.ltb_lt. auto.
Qed.

(** Splicing edges with fresh identities into a well-formed front. *)
Lemma front_ok_splice (f f' : Front) (pre news rest : list Edge) :
  front_ok f = true ->
  edges_ f = pre ++ rest ->
  edges_ f' = pre ++ news ++ rest ->
  map eid news = seq (e_next f) (length news) ->
  e_next f' = e_next f + length news ->
  front_ok f' = true.
Proof.
  rewrite !front_ok_iff. intros [Hnd Hlt] Hed Hed' Hids Hnext.
  rewrite Hed in Hnd, Hlt. rewrite Hed'. split.
  - rewrite !map_app.
    apply Permutation_NoDup with
      (l := map eid news ++ map eid pre ++ map eid rest).
    + apply Permutation_app_swap_app.
    + apply NoDup_app.
      * rewrite Hids. apply seq_NoDup.
      * rewrite <- map_app. assumption.
      * intros a Ha Hin. rewrite Hids in Ha. apply in_seq in Ha.
        rewrite <- map_app in Hin. apply in_map_iff in Hin.
        destruct Hin as [x [<- Hx]]. apply Hlt in Hx. lia.
  - intros e He. apply in_app_or in He. destruct He as [He|He].
    + assert (eid e < e_next f) by (apply Hlt; apply in_or_app; auto). lia.
    + apply in_app_or in He. destruct He as [He|He].
      * apply (in_map eid) in He. rewrite Hids in He. apply in_seq in He. lia.
      * assert (eid e < e_next f) by (apply Hlt; apply in_or_app; auto). lia.
Qed.

Lemma edge_found (f : Front) (pre suf : list Edge) (e : Edge) :
  front_ok f = true -> edges_ f = pre ++ e :: suf ->
  edge f (eid e) = Some e.
Proof.
  intros Hok Hed. unfold edge. rewrite Hed.
  rewrite find_app_skip.
  - simpl. rewrite is_edge_refl. reflexivity.
  - apply distinct_prefix with (suf := suf). rewrite <- Hed.
    unfold front_ok in Hok. apply andb_true_iff in Hok. tauto.
Qed.

(** *** One pass of the loop body *)

Lemma refine_edge_inv (NDEBUG : bool) (fuel : nat) (dom : Domain) (e : Edge)
  (marked marked' : list EdgeId) (st st' : State) :
  refine_edge NDEBUG fuel dom e marked st = Ok (marked', st') ->
  exists pts,
    sub_vertex_placement NDEBUG fuel dom (snd st) e = Ok pts
    /\ ((length pts < 3 /\ marked' = marked /\ st' = st)
        \/ (3 <= length pts /\ marked' = marked ++ [eid e]
            /\ create_sub_edges e pts st = Ok st')).
Proof.
  unfold refine_edge.
  destruct (sub_vertex_placement NDEBUG fuel dom (snd st) e) as [pts|err];
    simpl; [|discriminate].
  intros H. exists pts. split; [reflexivity|].
  destruct (length pts <? 3) eqn:Hlen.
  - apply Nat.ltb_lt in Hlen. inversion H; subst. left. auto.
  - apply Nat.ltb_ge in Hlen. right.
    destruct (create_sub_edges e pts st) as [st1|err]; simpl in H;
      [|discriminate].
    inversion H; subst. auto.
Qed.

Lemma create_sub_edges_edges (e : Edge) (pts : list Vec2d)
  (pre suf : list Edge) (st st' : State) :
  edges_ (fst st) = pre ++ e :: suf ->
  (forall x, In x pre -> is_edge (eid e) x = false) ->
  eid e < e_next (fst st) ->
  create_sub_edges e pts st = Ok st' ->
  let k := length (removelast (tl pts)) in
  edges_ (fst st')
  = pre ++ sub_edges (marker e) (e_next (fst st)) (e_v1 e)
             (v_next (snd st)) k (e_v2 e) ++ e :: suf
  /\ e_next (fst st') = e_next (fst st) + S k
  /\ base_ (fst st') = base_ (fst st)
  /\ area_ (fst st') = area_ (fst st)
  /\ v_next (snd st') = v_next (snd st) + k.
Proof.
  intros Hed Hpre Hlt Hc k. destruct pts as [|p rest]; [discriminate|].
  rewrite create_sub_edges_unfold in Hc. inversion Hc; subst st'.
  destruct st as [f vs]. subst k. cbn [tl].
  apply close_chain_edges; assumption.
Qed.

(** In a well-formed front the edges in front of an edge do not answer to
    its identity, and its identity is older than the next one. *)
Lemma front_ok_at (f : Front) (pre suf : list Edge) (e : Edge) :
  front_ok f = true -> edges_ f = pre ++ e :: suf ->
  (forall x, In x pre -> is_edge (eid e) x = false) /\ eid e < e_next f.
Proof.
  intros Hok Hed. apply front_ok_iff in Hok. destruct Hok as [Hnd Hlt]. split.
  - apply distinct_prefix with (suf := suf). rewrite <- Hed.
    apply distinct_NoDup. assumption.
  - apply Hlt. rewrite Hed. apply in_or_app. right. left. reflexivity.
Qed.

(** What one pass of the loop body does to the front. *)
Lemma refine_edge_front (NDEBUG : bool) (fuel : nat) (dom : Domain) (e : Edge)
  (marked marked' : list EdgeId) (pre suf : list Edge) (st st' : State) :
  front_ok (fst st) = true ->
  edges_ (fst st) = pre ++ e :: suf ->
  refine_edge NDEBUG fuel dom e marked st = Ok (marked', st') ->
  exists news,
    edges_ (fst st') = pre ++ news ++ e :: suf
    /\ front_ok (fst st') = true
    /\ (forall x, In x news ->
          e_next (fst st) <= eid x /\ marker x = marker e)
    /\ base_ (fst st') = base_ (fst st)
    /\ area_ (fst st') = area_ (fst st)
    /\ e_next (fst st) <= e_next (fst st')
    /\ ((news = [] /\ marked' = marked /\ st' = st)
        \/ marked' = marked ++ [eid e]).
Proof.
  intros Hok Hed Hre.
  apply refine_edge_inv in Hre.
  destruct Hre as [pts [Hpl [(Hlen & -> & ->)|(Hlen & -> & Hc)]]].
  - exists []. simpl.
    split; [assumption|]. split; [assumption|].
    split; [intros x []|]. auto 7.
  - destruct (front_ok_at (fst st) pre suf e Hok Hed) as [Hpre Hid].
    destruct (create_sub_edges_edges e pts pre suf st st' Hed Hpre Hid Hc)
      as (H1 & H2 & H3 & H4 & H5).
    eexists. split; [exact H1|].
    split; [|split; [|split; [|split; [|split]]]]; auto; [| |lia].
    + eapply front_ok_splice; [exact Hok|exact Hed|exact H1| |].
      * rewrite sub_edges_map_eid, sub_edges_length. reflexivity.
      * rewrite sub_edges_length. exact H2.
    + intros x Hx. split.
      * apply sub_edges_ids in Hx. lia.
      * eapply sub_edges_marker. eassumption.
Qed.

(** *** The iteration of [refine] reads a snapshot *)

Lemma refine_loop_end (NDEBUG : bool) (n fuel : nat) (dom : Domain)
  (seen marked : list EdgeId) (st : State) :
  refine_loop NDEBUG n fuel dom None seen marked st = Ok (seen, marked, st).
Proof. destruct n; reflexivity. Qed.

Lemma refine_loop_snapshot (NDEBUG : bool) (fuel : nat) (dom : Domain) :
  forall (l pre : list Edge) (n : nat) (seen marked : list EdgeId)
         (st : State),
    edges_ (fst st) = pre ++ l ->
    front_ok (fst st) = true ->
    length l <= n ->
    refine_loop NDEBUG n fuel dom (head_id l) seen marked st
    = ('(marked', st') <- refine_snapshot NDEBUG fuel dom l marked st ;;
       Ok (seen ++ map eid l, marked', st')).
Proof.
  induction l as [|e l IH]; intros pre n seen marked st Hed Hok Hn.
  - simpl. rewrite refine_loop_end, app_nil_r. reflexivity.
  - destruct n as [|n]; [simpl in Hn; lia|].
    cbn [head_id refine_loop refine_snapshot].
    rewrite (edge_found (fst st) pre l e Hok Hed). cbn [of_option bind].
    destruct (refine_edge NDEBUG fuel dom e marked st) as [[marked' st']|err]
      eqn:Hre; [|reflexivity].
    cbn [bind].
    destruct (refine_edge_front NDEBUG fuel dom e marked marked' pre l st st'
                Hok Hed Hre)
      as (news & Hed' & Hok' & Hnews & _).
    assert (Hnext : next_in (eid e) (edges_ (fst st')) = head_id l).
    { destruct (front_ok_at (fst st) pre l e Hok Hed) as [Hpre Hid].
      rewrite Hed', app_assoc. apply next_in_app; [|apply is_edge_refl].
      intros x Hx. apply in_app_or in Hx. destruct Hx as [Hx|Hx]; [auto|].
      apply is_edge_false. apply Hnews in Hx. lia. }
    rewrite Hnext.
    rewrite (IH (pre ++ news ++ [e]) n (seen ++ [eid e]) marked' st').
    + destruct (refine_snapshot NDEBUG fuel dom l marked' st')
        as [[m2 st2]|err]; cbn [bind]; [|reflexivity].
      rewrite <- app_assoc. reflexivity.
    + rewrite Hed'. rewrite <- !app_assoc. reflexivity.
    + assumption.
    + simpl in Hn. lia.
Qed.


(** ** The vertex store under the writes of [Front] *)

Lemma vertex_le_refl (v : Vertex) : vertex_le v v.
Proof. unfold vertex_le. tauto. Qed.

Lemma vertex_le_trans (a b c : Vertex) :
  vertex_le a b -> vertex_le b c -> vertex_le a c.
Proof.
  unfold vertex_le.
  intros (A1 & A2 & A3 & A4 & A5 & A6) (B1 & B2 & B3 & B4 & B5 & B6).
  repeat split; try congruence; auto.
Qed.

Lemma store_le_refl (vs : Vertices) : store_le vs vs.
Proof. intros i v H. exists v. split; [assumption|apply vertex_le_refl]. Qed.

Lemma store_le_trans (a b c : Vertices) :
  store_le a b -> store_le b c -> store_le a c.
Proof.
  intros Hab Hbc i v H. destruct (Hab i v H) as [v1 [H1 L1]].
  destruct (Hbc i v1 H1) as [v2 [H2 L2]]. exists v2. split; [assumption|].
  eapply vertex_le_trans; eassumption.
Qed.

Lemma store_le_xy (vs vs' : Vertices) (i : VertexId) (a : Vec2d) :
  store_le vs vs' -> vertex_xy vs i = Ok a -> vertex_xy vs' i = Ok a.
Proof.
  unfold vertex_xy. intros Hle H.
  destruct (vertex vs i) as [v|] eqn:Hv; [|discriminate].
  destruct (Hle i v Hv) as [v' [Hv' (_ & Hxy & _)]].
  rewrite Hv'. simpl in *. congruence.
Qed.

Lemma vertex_update (i j : VertexId) (g : Vertex -> Vertex) (vs : Vertices) :
  (forall v, vid (g v) = vid v) ->
  vertex (update_vertex i g vs) j
  = option_map (fun v => if is_vertex i v then g v else v) (vertex vs j).
Proof.
  intros Hg. unfold vertex, update_vertex. cbn [v_items].
  induction (v_items vs) as [|v l IH]; [reflexivity|].
  cbn [map find].
  assert (Hj : is_vertex j (if is_vertex i v then g v else v) = is_vertex j v).
  { unfold is_vertex at 1 3.
    destruct (is_vertex i v); [rewrite Hg|]; reflexivity. }
  rewrite Hj. destruct (is_vertex j v); [reflexivity|exact IH].
Qed.

Lemma store_le_update (i : VertexId) (g : Vertex -> Vertex) (vs : Vertices) :
  (forall v, vertex_le v (g v)) -> store_le vs (update_vertex i g vs).
Proof.
  intros Hg j v Hv. rewrite vertex_update by (intros; apply Hg).
  rewrite Hv. cbn [option_map]. eexists. split; [reflexivity|].
  destruct (is_vertex i v); [apply Hg|apply vertex_le_refl].
Qed.

Lemma set_is_fixed_le (v : Vertex) : vertex_le v (set_is_fixed true v).
Proof. unfold vertex_le. simpl. tauto. Qed.

Lemma set_on_boundary_le (v : Vertex) : vertex_le v (set_on_boundary true v).
Proof. unfold vertex_le. simpl. tauto. Qed.

Lemma set_on_front_le (v : Vertex) : vertex_le v (set_on_front true v).
Proof. unfold vertex_le. simpl. tauto. Qed.

Lemma vertex_is_vertex (vs : Vertices) (i : VertexId) (v : Vertex) :
  vertex vs i = Some v -> is_vertex i v = true.
Proof. unfold vertex. intros H. apply find_some in H. tauto. Qed.

(** After a setter has been called through a reference, the flag reads
    [true] at the referenced vertex. *)
Lemma vertex_update_same (i : VertexId) (g : Vertex -> Vertex)
  (vs : Vertices) (v : Vertex) :
  (forall v, vid (g v) = vid v) ->
  vertex vs i = Some v -> vertex (update_vertex i g vs) i = Some (g v).
Proof.
  intros Hg Hv. rewrite vertex_update by assumption. rewrite Hv.
  cbn [option_map]. rewrite (vertex_is_vertex vs i v Hv). reflexivity.
Qed.

Lemma vertices_ok_update (i : VertexId) (g : Vertex -> Vertex)
  (vs : Vertices) :
  (forall v, vid (g v) = vid v) ->
  vertices_ok vs = true -> vertices_ok (update_vertex i g vs) = true.
Proof.
  intros Hg. unfold vertices_ok, update_vertex. cbn [v_items v_next].
  rewrite !forallb_forall. intros H v Hv. apply in_map_iff in Hv.
  destruct Hv as [u [<- Hu]]. specialize (H u Hu).
  destruct (is_vertex i u); [rewrite Hg|]; assumption.
Qed.

Lemma vertices_ok_below (vs : Vertices) (i : VertexId) (v : Vertex) :
  vertices_ok vs = true -> vertex vs i = Some v -> i < v_next vs.
Proof.
  unfold vertices_ok, vertex. rewrite forallb_forall. intros Hok Hv.
  apply find_some in Hv. destruct Hv as [Hin Hi].
  apply Hok in Hin. apply Nat.ltb_lt in Hin. unfold is_vertex in Hi.
  apply Nat.eqb_eq in Hi. lia.
Qed.

Lemma find_insert_before_other {A : Type} (p here : A -> bool) (a : A)
  (l : list A) :
  p a = false -> find p (insert_before here a l) = find p l.
Proof.
  intros Ha. induction l as [|b l IH]; simpl.
  - rewrite Ha. reflexivity.
  - destruct (here b); simpl.
    + rewrite Ha. reflexivity.
    + destruct (p b); [reflexivity|exact IH].
Qed.

Lemma find_insert_before_new {A : Type} (p here : A -> bool) (a : A)
  (l : list A) :
  p a = true -> (forall x, In x l -> p x = false) ->
  find p (insert_before here a l) = Some a.
Proof.
  intros Ha Hl. induction l as [|b l IH]; simpl.
  - rewrite Ha. reflexivity.
  - destruct (here b); simpl.
    + rewrite Ha. reflexivity.
    + rewrite (Hl b (or_introl eq_refl)). apply IH.
      intros x Hx. apply Hl. right. assumption.
Qed.

Lemma vertex_insert_old (pos j : VertexId) (p : Vec2d) (w : double)
  (vs : Vertices) :
  j <> v_next vs -> vertex (snd (vertices_insert pos p w vs)) j = vertex vs j.
Proof.
  intros Hj. unfold vertex, vertices_insert. cbn [snd v_items].
  apply find_insert_before_other. unfold is_vertex. cbn [vid].
  apply Nat.eqb_neq. lia.
Qed.

Lemma vertex_insert_new (pos : VertexId) (p : Vec2d) (w : double)
  (vs : Vertices) :
  vertices_ok vs = true ->
  vertex (snd (vertices_insert pos p w vs)) (v_next vs)
  = Some (mkVertex (v_next vs) p w false false false).
Proof.
  intros Hok. unfold vertex, vertices_insert. cbn [snd v_items].
  apply find_insert_before_new.
  - unfold is_vertex. cbn [vid]. apply Nat.eqb_refl.
  - intros x Hx. unfold vertices_ok in Hok. rewrite forallb_forall in Hok.
    apply Hok in Hx. apply Nat.ltb_lt in Hx. unfold is_vertex.
    apply Nat.eqb_neq. lia.
Qed.

Lemma in_insert_before {A : Type} (here : A -> bool) (a x : A) (l : list A) :
  In x (insert_before here a l) <-> x = a \/ In x l.
Proof.
  induction l as [|b l IH]; simpl.
  - intuition congruence.
  - destruct (here b); simpl; [intuition congruence|].
    rewrite IH. intuition congruence.
Qed.

Lemma vertices_ok_insert (pos : VertexId) (p : Vec2d) (w : double)
  (vs : Vertices) :
  vertices_ok vs = true ->
  vertices_ok (snd (vertices_insert pos p w vs)) = true.
Proof.
  unfold vertices_ok, vertices_insert. cbn [snd v_items v_next].
  rewrite !forallb_forall. intros H x Hx. apply in_insert_before in Hx.
  destruct Hx as [->|Hx].
  - cbn [vid]. apply Nat.ltb_lt. lia.
  - apply H in Hx. apply Nat.ltb_lt in Hx. apply Nat.ltb_lt. lia.
Qed.

Lemma store_le_insert (pos : VertexId) (p : Vec2d) (w : double)
  (vs : Vertices) :
  vertices_ok vs = true -> store_le vs (snd (vertices_insert pos p w vs)).
Proof.
  intros Hok i v Hv. exists v. split; [|apply vertex_le_refl].
  rewrite vertex_insert_old; [assumption|].
  pose proof (vertices_ok_below vs i v Hok Hv). lia.
Qed.

Lemma flag_pair_le (a b : VertexId) (vs : Vertices) :
  store_le vs (flag_pair a b vs).
Proof.
  unfold flag_pair.
  repeat (eapply store_le_trans;
          [|apply store_le_update;
            first [apply set_on_boundary_le|apply set_on_front_le]]).
  apply store_le_refl.
Qed.

Lemma flag_pair_ok (a b : VertexId) (vs : Vertices) :
  vertices_ok vs = true -> vertices_ok (flag_pair a b vs) = true.
Proof.
  intros H. unfold flag_pair.
  repeat (apply vertices_ok_update; [reflexivity|]). assumption.
Qed.

Lemma flag_pair_flags (a b i : VertexId) (vs : Vertices) (v : Vertex) :
  i = a \/ i = b -> vertex vs i = Some v ->
  exists v', vertex (flag_pair a b vs) i = Some v'
             /\ vertex_le v v'
             /\ on_boundary v' = true /\ on_front v' = true.
Proof.
  intros Hi Hv. unfold flag_pair.
  rewrite !vertex_update by reflexivity. rewrite Hv. cbn [option_map].
  eexists. split; [reflexivity|].
  pose proof (vertex_is_vertex vs i v Hv) as Hiv. unfold is_vertex in *.
  apply Nat.eqb_eq in Hiv.
  destruct (vid v =? a) eqn:Ha; destruct (vid v =? b) eqn:Hb;
    cbn [vid set_on_front set_on_boundary]; rewrite ?Ha, ?Hb;
    cbn [vid set_on_front set_on_boundary]; rewrite ?Ha, ?Hb;
    cbn [vid set_on_front set_on_boundary]; rewrite ?Ha, ?Hb;
    unfold vertex_le; cbn [vid xy weight is_fixed on_boundary on_front];
    try tauto.
  apply Nat.eqb_neq in Ha, Hb. destruct Hi; subst; contradiction.
Qed.

Lemma sub_edges_loop_step_flags (e : Edge) (p : Vec2d) (inner : list Vec2d)
  (v_cur : VertexId) (f : Front) (vs : Vertices) :
  sub_edges_loop e (p :: inner) v_cur (f, vs)
  = sub_edges_loop e inner (v_next vs)
      (mkFront (insert_before (is_edge (eid e))
                  (mkEdge (e_next f) v_cur (v_next vs) (marker e)) (edges_ f))
               (S (e_next f)) (area_ f) (base_ f),
       flag_pair v_cur (v_next vs)
         (update_vertex (v_next vs) (set_is_fixed true)
            (snd (vertices_insert (e_v2 e) p 1.0%float vs)))).
Proof. reflexivity. Qed.

Lemma close_chain_store (e : Edge) (v_cur : VertexId) (f : Front)
  (vs : Vertices) :
  snd (close_chain e (v_cur, (f, vs))) = flag_pair v_cur (e_v2 e) vs.
Proof. reflexivity. Qed.

(** One iteration of the loop of [create_sub_edges] on the vertex store. *)
Lemma sub_edges_iteration (e : Edge) (p : Vec2d) (v_cur : VertexId)
  (vs : Vertices) :
  vertices_ok vs = true ->
  let vs1 := flag_pair v_cur (v_next vs)
               (update_vertex (v_next vs) (set_is_fixed true)
                  (snd (vertices_insert (e_v2 e) p 1.0%float vs))) in
  vertices_ok vs1 = true
  /\ store_le vs vs1
  /\ v_next vs1 = S (v_next vs)
  /\ (exists v', vertex vs1 (v_next vs) = Some v' /\ xy v' = p
                 /\ is_fixed v' = true /\ on_boundary v' = true
                 /\ on_front v' = true)
  /\ (forall v, vertex vs v_cur = Some v ->
        exists v', vertex vs1 v_cur = Some v'
                   /\ on_boundary v' = true /\ on_front v' = true).
Proof.
  intros Hok vs1.
  set (vs_i := snd (vertices_insert (e_v2 e) p 1.0%float vs)) in *.
  set (vs_f := update_vertex (v_next vs) (set_is_fixed true) vs_i) in *.
  assert (Hle : store_le vs vs_f).
  { eapply store_le_trans; [apply store_le_insert; assumption|].
    apply store_le_update. apply set_is_fixed_le. }
  assert (Hle1 : store_le vs vs1).
  { eapply store_le_trans; [exact Hle|apply flag_pair_le]. }
  split; [|split; [exact Hle1|split; [reflexivity|split]]].
  - apply flag_pair_ok. apply vertices_ok_update; [reflexivity|].
    apply vertices_ok_insert. assumption.
  - assert (Hnew : vertex vs_f (v_next vs)
                   = Some (set_is_fixed true
                             (mkVertex (v_next vs) p 1.0%float
                                       false false false))).
    { apply vertex_update_same; [reflexivity|].
      apply vertex_insert_new. assumption. }
    destruct (flag_pair_flags v_cur (v_next vs) (v_next vs) vs_f _
                (or_intror eq_refl) Hnew) as (v' & Hv' & Hl & Hb & Hf).
    exists v'. destruct Hl as (_ & Hxy & _ & Hfix & _).
    repeat split; auto.
  - intros v Hv. destruct (Hle v_cur v Hv) as (v1 & Hv1 & _).
    destruct (flag_pair_flags v_cur (v_next vs) v_cur vs_f v1
                (or_introl eq_refl) Hv1) as (v' & Hv' & _ & Hb & Hf).
    exists v'. auto.
Qed.

Lemma sub_edges_loop_vertices (e : Edge) :
  forall (inner : list Vec2d) (v_cur : VertexId) (f : Front) (vs : Vertices),
    vertices_ok vs = true ->
    let r := sub_edges_loop e inner v_cur (f, vs) in
    vertices_ok (snd (snd r)) = true
    /\ store_le vs (snd (snd r))
    /\ (forall j p, nth_error inner j = Some p ->
          exists v', vertex (snd (snd r)) (v_next vs + j) = Some v'
                     /\ xy v' = p /\ is_fixed v' = true
                     /\ on_boundary v' = true /\ on_front v' = true)
    /\ (inner <> [] -> forall v, vertex vs v_cur = Some v ->
          exists v', vertex (snd (snd r)) v_cur = Some v'
                     /\ on_boundary v' = true /\ on_front v' = true)
    /\ fst r = match inner with
               | [] => v_cur
               | _ :: _ => v_next vs + length inner - 1
               end.
Proof.
  induction inner as [|p inner IH]; intros v_cur f vs Hok r.
  - subst r. cbn [sub_edges_loop fst snd].
    split; [assumption|]. split; [apply store_le_refl|].
    split; [intros [|j] q Hq; discriminate|].
    split; [intros H; contradiction|reflexivity].
  - subst r. rewrite sub_edges_loop_step_flags.
    destruct (sub_edges_iteration e p v_cur vs Hok)
      as (Hok1 & Hle1 & Hn1 & (v1 & Hv1 & Hxy1 & Hfx1 & Hb1 & Hf1) & Hcur).
    match goal with
    | |- context [sub_edges_loop e inner ?v (?f1, ?vs1)] =>
        set (f1' := f1); set (vs1' := vs1) in *;
        destruct (IH v f1' vs1' Hok1) as (A1 & A2 & A3 & A4 & A5)
    end.
    split; [exact A1|].
    split; [eapply store_le_trans; eassumption|].
    split; [|split].
    + intros [|j] q Hq.
      * cbn [nth_error] in Hq. inversion Hq; subst q.
        destruct (A2 (v_next vs) v1 Hv1)
          as (v' & Hv' & (_ & Hxy & _ & Hfx & Hb & Hf)).
        exists v'. rewrite Nat.add_0_r.
        repeat split; auto; congruence.
      * cbn [nth_error] in Hq. destruct (A3 j q Hq) as (v' & Hv' & Hrest).
        exists v'. split; [|exact Hrest].
        rewrite Hn1 in Hv'. rewrite <- Hv'. f_equal. lia.
    + intros _ v Hv. destruct (Hcur v Hv) as (v' & Hv' & Hb & Hf).
      destruct (A2 v_cur v' Hv') as (v'' & Hv'' & (_ & _ & _ & _ & Hb' & Hf')).
      exists v''. auto.
    + rewrite A5, Hn1. destruct inner; cbn [length]; lia.
Qed.

Lemma create_sub_edges_vertices (e : Edge) (pts : list Vec2d)
  (st st' : State) :
  vertices_ok (snd st) = true ->
  create_sub_edges e pts st = Ok st' ->
  vertices_ok (snd st') = true
  /\ store_le (snd st) (snd st')
  /\ (forall j p, nth_error (removelast (tl pts)) j = Some p ->
        exists v', vertex (snd st') (v_next (snd st) + j) = Some v'
                   /\ xy v' = p /\ is_fixed v' = true
                   /\ on_boundary v' = true /\ on_front v' = true)
  /\ (forall i v, i = e_v1 e \/ i = e_v2 e -> vertex (snd st) i = Some v ->
        exists v', vertex (snd st') i = Some v'
                   /\ on_boundary v' = true /\ on_front v' = true).
Proof.
  intros Hok Hc. destruct pts as [|p0 rest]; [discriminate|].
  rewrite create_sub_edges_unfold in Hc. inversion Hc as [Hst]. clear Hc.
  destruct st as [f vs]. cbn [snd tl] in *.
  destruct (sub_edges_loop_vertices e (removelast rest) (e_v1 e) f vs Hok)
    as (A1 & A2 & A3 & A4 & A5).
  destruct (sub_edges_loop e (removelast rest) (e_v1 e) (f, vs))
    as [v_last [f1 vs1]] eqn:Hloop.
  cbn [fst snd] in *. rewrite close_chain_store.
  split; [apply flag_pair_ok; assumption|].
  split; [eapply store_le_trans; [exact A2|apply flag_pair_le]|].
  split.
  - intros j p Hj. destruct (A3 j p Hj) as (v1 & Hv1 & Hxy & Hfx & Hb & Hf).
    destruct (flag_pair_le v_last (e_v2 e) vs1 _ v1 Hv1)
      as (v' & Hv' & (_ & Hxy' & _ & Hfx' & Hb' & Hf')).
    exists v'. repeat split; auto; congruence.
  - intros i v Hi Hv.
    destruct (A2 i v Hv) as (v1 & Hv1 & _).
    destruct Hi as [Hi|Hi].
    + destruct (removelast rest) as [|q inner] eqn:Hin.
      * subst v_last i.
        destruct (flag_pair_flags (e_v1 e) (e_v2 e) (e_v1 e) vs1 v1
                    (or_introl eq_refl) Hv1) as (v' & Hv' & _ & Hb & Hf).
        exists v'. auto.
      * subst i.
        destruct (A4 ltac:(discriminate) v Hv) as (v2 & Hv2 & Hb & Hf).
        destruct (flag_pair_le v_last (e_v2 e) vs1 _ v2 Hv2)
          as (v' & Hv' & (_ & _ & _ & _ & Hb' & Hf')).
        exists v'. auto.
    + subst i.
      destruct (flag_pair_flags v_last (e_v2 e) (e_v2 e) vs1 v1
                  (or_intror eq_refl) Hv1) as (v' & Hv' & _ & Hb & Hf).
      exists v'. auto.
Qed.

(** ** The placement reads the two end points only *)

Lemma sub_vertex_placement_eq (NDEBUG : bool) (fuel : nat) (dom : Domain)
  (vs : Vertices) (e : Edge) (a b : Vec2d) :
  vertex_xy vs (e_v1 e) = Ok a -> vertex_xy vs (e_v2 e) = Ok b ->
  sub_vertex_placement NDEBUG fuel dom vs e = placement_of NDEBUG fuel dom a b.
Proof.
  intros Ha Hb.
  unfold sub_vertex_placement, create_sub_vertex_coords, sub_vertex_sequence,
    placement_of, edge_tangent, edge_length, march_from, march_to.
  rewrite Ha, Hb. cbn [bind].
  destruct (size_function dom a <? size_function dom b)%float;
    rewrite ?Ha, ?Hb; cbn [bind]; reflexivity.
Qed.

Lemma sub_vertex_placement_ok (NDEBUG : bool) (fuel : nat) (dom : Domain)
  (vs : Vertices) (e : Edge) (pts : list Vec2d) :
  sub_vertex_placement NDEBUG fuel dom vs e = Ok pts ->
  exists a b, vertex_xy vs (e_v1 e) = Ok a /\ vertex_xy vs (e_v2 e) = Ok b.
Proof.
  unfold sub_vertex_placement.
  destruct (vertex_xy vs (e_v1 e)) as [a|]; [|discriminate].
  destruct (vertex_xy vs (e_v2 e)) as [b|]; [|discriminate].
  intros _. exists a, b. auto.
Qed.

Lemma sub_vertex_placement_le (NDEBUG : bool) (fuel : nat) (dom : Domain)
  (vs vs' : Vertices) (e : Edge) (pts : list Vec2d) :
  store_le vs vs' ->
  sub_vertex_placement NDEBUG fuel dom vs e = Ok pts ->
  sub_vertex_placement NDEBUG fuel dom vs' e = Ok pts.
Proof.
  intros Hle H.
  destruct (sub_vertex_placement_ok NDEBUG fuel dom vs e pts H)
    as (a & b & Ha & Hb).
  rewrite (sub_vertex_placement_eq NDEBUG fuel dom vs e a b Ha Hb) in H.
  rewrite (sub_vertex_placement_eq NDEBUG fuel dom vs' e a b); [assumption| |].
  - eapply store_le_xy; eassumption.
  - eapply store_le_xy; eassumption.
Qed.

(** ** Removal of the marked edges *)

Lemma remove_marked_fields (marked : list EdgeId) :
  forall f,
    e_next (remove_marked marked f) = e_next f
    /\ base_ (remove_marked marked f) = base_ f
    /\ area_ (remove_marked marked f) = area_ f.
Proof.
  induction marked as [|i marked IH]; intros f; [auto|].
  cbn [remove_marked fold_left].
  destruct (IH (remove_edge i f)) as (H1 & H2 & H3).
  unfold remove_marked in *. rewrite H1, H2, H3. auto.
Qed.

Lemma remove_marked_In (marked : list EdgeId) :
  forall f x,
    In x (edges_ (remove_marked marked f))
    <-> In x (edges_ f) /\ ~ In (eid x) marked.
Proof.
  induction marked as [|i marked IH]; intros f x.
  - simpl. tauto.
  - cbn [remove_marked fold_left]. unfold remove_marked in IH. rewrite IH.
    unfold remove_edge. cbn [edges_]. rewrite filter_In.
    unfold is_edge. rewrite negb_true_iff, Nat.eqb_neq. simpl.
    split.
    + intros [[H1 H2] H3]. split; [assumption|].
      intros [H|H]; [congruence|contradiction].
    + intros [H1 H2]. split; [split|]; auto.
Qed.

Lemma NoDup_map_filter {A B : Type} (g : A -> B) (p : A -> bool)
  (l : list A) :
  NoDup (map g l) -> NoDup (map g (filter p l)).
Proof.
  induction l as [|a l IH]; simpl; intros H; [constructor|].
  inversion H as [|? ? Hnin Hnd]; subst.
  destruct (p a); simpl; [|auto].
  constructor; [|auto]. intros Hin. apply Hnin.
  apply in_map_iff in Hin. destruct Hin as [x [Hx Hin]].
  apply filter_In in Hin. rewrite <- Hx. apply in_map. tauto.
Qed.

Lemma remove_marked_ok (marked : list EdgeId) :
  forall f, front_ok f = true -> front_ok (remove_marked marked f) = true.
Proof.
  induction marked as [|i marked IH]; intros f Hok; [assumption|].
  cbn [remove_marked fold_left]. apply IH.
  apply front_ok_iff in Hok. destruct Hok as [Hnd Hlt].
  apply front_ok_iff. unfold remove_edge. cbn [edges_ e_next]. split.
  - apply NoDup_map_filter. assumption.
  - intros e He. apply filter_In in He. apply Hlt. tauto.
Qed.

(** ** Invariants of a pass over the edges *)

Lemma refine_edge_vertices (NDEBUG : bool) (fuel : nat) (dom : Domain)
  (e : Edge) (marked marked' : list EdgeId) (st st' : State) :
  vertices_ok (snd st) = true ->
  refine_edge NDEBUG fuel dom e marked st = Ok (marked', st') ->
  vertices_ok (snd st') = true /\ store_le (snd st) (snd st').
Proof.
  intros Hok Hre. apply refine_edge_inv in Hre.
  destruct Hre as [pts [Hpl [(Hlen & -> & ->)|(Hlen & -> & Hc)]]].
  - split; [assumption|apply store_le_refl].
  - destruct (create_sub_edges_vertices e pts st st' Hok Hc) as (H1 & H2 & _).
    auto.
Qed.

(** The front during a pass: edges are only added, the new ones have new
    identities and descend from a marked edge of the pass. *)
Lemma refine_snapshot_front (NDEBUG : bool) (fuel : nat) (dom : Domain) :
  forall (l pre : list Edge) (marked marked' : list EdgeId) (st st' : State),
    front_ok (fst st) = true ->
    edges_ (fst st) = pre ++ l ->
    refine_snapshot NDEBUG fuel dom l marked st = Ok (marked', st') ->
    front_ok (fst st') = true
    /\ base_ (fst st') = base_ (fst st)
    /\ area_ (fst st') = area_ (fst st)
    /\ e_next (fst st) <= e_next (fst st')
    /\ (forall x, In x (edges_ (fst st)) -> In x (edges_ (fst st')))
    /\ (forall x, In x (edges_ (fst st')) ->
          In x (edges_ (fst st))
          \/ (e_next (fst st) <= eid x
              /\ exists e, In e l /\ In (eid e) marked'
                           /\ marker x = marker e))
    /\ (forall i, In i marked -> In i marked')
    /\ (forall i, In i marked' -> In i marked \/ In i (map eid l)).
Proof.
  induction l as [|e l IH]; intros pre marked marked' st st' Hok Hed Hrs.
  - simpl in Hrs. inversion Hrs; subst.
    split; [assumption|]. repeat (split; [solve [auto]|]). auto.
  - cbn [refine_snapshot] in Hrs.
    destruct (refine_edge NDEBUG fuel dom e marked st) as [[m1 st1]|err]
      eqn:Hre; [|discriminate].
    cbn [bind] in Hrs.
    destruct (refine_edge_front NDEBUG fuel dom e marked m1 pre l st st1
                Hok Hed Hre)
      as (news & Hed1 & Hok1 & Hnews & Hb1 & Ha1 & Hnx1 & Hm1).
    assert (Hed1' : edges_ (fst st1) = (pre ++ news ++ [e]) ++ l).
    { rewrite Hed1, <- !app_assoc. reflexivity. }
    destruct (IH (pre ++ news ++ [e]) m1 marked' st1 st' Hok1 Hed1' Hrs)
      as (B1 & B2 & B3 & B4 & B5 & B6 & B7 & B8).
    assert (Hmono : forall i, In i marked -> In i m1).
    { intros i Hi. destruct Hm1 as [(_ & -> & _)| -> ]; [assumption|].
      apply in_or_app. auto. }
    split; [assumption|]. split; [congruence|]. split; [congruence|].
    split; [lia|]. split; [|split; [|split; [auto|]]].
    + intros x Hx. apply B5. rewrite Hed in Hx. rewrite Hed1.
      apply in_app_or in Hx. apply in_or_app. destruct Hx as [Hx|Hx]; [auto|].
      right. apply in_or_app. auto.
    + intros x Hx. destruct (B6 x Hx) as [Hx1|(Hge & e' & He' & Hmk & Hmm)].
      * rewrite Hed1 in Hx1. rewrite Hed.
        apply in_app_or in Hx1. destruct Hx1 as [Hx1|Hx1].
        { left. apply in_or_app. auto. }
        apply in_app_or in Hx1. destruct Hx1 as [Hx1|Hx1].
        { right. destruct (Hnews x Hx1) as [Hge Hmk]. split; [assumption|].
          exists e. split; [left; reflexivity|]. split; [|assumption].
          apply B7. destruct Hm1 as [(Hn & _)| -> ].
          - subst news. contradiction.
          - apply in_or_app. right. left. reflexivity. }
        left. apply in_or_app. auto.
      * right. split; [lia|]. exists e'. split; [right; assumption|]. auto.
    + intros i Hi. destruct (B8 i Hi) as [Hi1|Hi1].
      * destruct Hm1 as [(_ & -> & _)| -> ]; [auto|].
        apply in_app_or in Hi1. destruct Hi1 as [Hi1|[<-|[]]]; [auto|].
        right. left. reflexivity.
      * right. right. assumption.
Qed.

Lemma refine_snapshot_marked (NDEBUG : bool) (fuel : nat) (dom : Domain) :
  forall (l : list Edge) (marked marked' : list EdgeId) (st st' : State),
    refine_snapshot NDEBUG fuel dom l marked st = Ok (marked', st') ->
    forall i, In i marked -> In i marked'.
Proof.
  induction l as [|x l IH]; intros marked marked' st st' Hrs i Hi.
  - simpl in Hrs. inversion Hrs; subst. assumption.
  - cbn [refine_snapshot] in Hrs.
    destruct (refine_edge NDEBUG fuel dom x marked st) as [[m2 st2]|]
      eqn:Hre; [|discriminate].
    cbn [bind] in Hrs. apply (IH m2 marked' st2 st' Hrs).
    apply refine_edge_inv in Hre.
    destruct Hre as [pts [_ [(_ & -> & _)|(_ & -> & _)]]]; [assumption|].
    apply in_or_app. auto.
Qed.

(** The vertex store during a pass: vertices are only added and flagged,
    and the edges marked are those whose placement has 3 points or more. *)
Lemma refine_snapshot_store (NDEBUG : bool) (fuel : nat) (dom : Domain) :
  forall (l : list Edge) (marked marked' : list EdgeId) (st st' : State),
    vertices_ok (snd st) = true ->
    refine_snapshot NDEBUG fuel dom l marked st = Ok (marked', st') ->
    vertices_ok (snd st') = true
    /\ store_le (snd st) (snd st')
    /\ (forall i, In i marked' ->
          In i marked
          \/ exists e, In e l /\ eid e = i
                       /\ forall pts,
                            sub_vertex_placement NDEBUG fuel dom (snd st) e
                            = Ok pts -> 3 <= length pts)
    /\ (forall e pts, In e l ->
          sub_vertex_placement NDEBUG fuel dom (snd st) e = Ok pts ->
          3 <= length pts -> In (eid e) marked').
Proof.
  induction l as [|e l IH]; intros marked marked' st st' Hvok Hrs.
  - simpl in Hrs. inversion Hrs; subst.
    split; [assumption|]. split; [apply store_le_refl|].
    split; [auto|]. intros e pts [].
  - cbn [refine_snapshot] in Hrs.
    destruct (refine_edge NDEBUG fuel dom e marked st) as [[m1 st1]|err]
      eqn:Hre; [|discriminate].
    cbn [bind] in Hrs.
    destruct (refine_edge_vertices NDEBUG fuel dom e marked m1 st st1 Hvok Hre)
      as (Hvok1 & Hle1).
    destruct (IH m1 marked' st1 st' Hvok1 Hrs) as (B1 & B2 & B3 & B4).
    pose proof (refine_snapshot_marked NDEBUG fuel dom l m1 marked' st1 st'
                  Hrs) as Hmono.
    apply refine_edge_inv in Hre.
    destruct Hre as [pts' [Hpl' Hcase]].
    split; [assumption|]. split; [eapply store_le_trans; eassumption|].
    split.
    + intros i Hi. destruct (B3 i Hi) as [Hi1|(e' & He' & Hid & Hpl)].
      * destruct Hcase as [(_ & -> & _)|(Hlen & -> & _)]; [auto|].
        apply in_app_or in Hi1. destruct Hi1 as [Hi1|[Hi1|[]]]; [auto|].
        right. exists e. split; [left; reflexivity|]. split; [assumption|].
        intros pts Hpts. congruence.
      * right. exists e'. split; [right; assumption|]. split; [assumption|].
        intros pts Hpts. apply Hpl.
        eapply sub_vertex_placement_le; eassumption.
    + intros e' pts [<-|He'] Hpts Hlen.
      * apply Hmono. destruct Hcase as [(Hlen' & _)|(_ & -> & _)].
        { assert (pts' = pts) by congruence. subst. lia. }
        apply in_or_app. right. left. reflexivity.
      * eapply B4; [eassumption| |eassumption].
        eapply sub_vertex_placement_le; eassumption.
Qed.

(** ** A call of [refine] *)

Lemma to_int_difference (k : nat) :
  to_int (to_size_t (Z.of_nat k - to_size_t (to_int (Z.of_nat k)))) = 0%Z.
Proof.
  unfold to_int, to_size_t. generalize (Z.of_nat k). intros N.
  assert (H : forall x, ((x mod 2 ^ 64) mod 2 ^ 32 = x mod 2 ^ 32)%Z).
  { intros x. apply Z.mod_mod_divide. exists (2 ^ 32)%Z. reflexivity. }
  assert (H0 : (((N - ((N + 2 ^ 31) mod 2 ^ 32 - 2 ^ 31) mod 2 ^ 64)
                 mod 2 ^ 64) mod 2 ^ 32 = 0)%Z).
  { rewrite H, Zminus_mod, H, <- Zminus_mod.
    replace (N - ((N + 2 ^ 31) mod 2 ^ 32 - 2 ^ 31))%Z
      with ((N + 2 ^ 31) - (N + 2 ^ 31) mod 2 ^ 32)%Z by ring.
    rewrite Zminus_mod, Z.mod_mod by lia. rewrite Z.sub_diag. reflexivity. }
  rewrite Z.add_mod by lia. rewrite H0. reflexivity.
Qed.

Lemma refine_edge_short (NDEBUG : bool) (fuel : nat) (dom : Domain)
  (e : Edge) (marked : list EdgeId) (st : State) (pts : list Vec2d) :
  sub_vertex_placement NDEBUG fuel dom (snd st) e = Ok pts ->
  length pts < 3 ->
  refine_edge NDEBUG fuel dom e marked st = Ok (marked, st).
Proof.
  intros Hpl Hlen. unfold refine_edge. rewrite Hpl. cbn [bind].
  apply Nat.ltb_lt in Hlen. rewrite Hlen. reflexivity.
Qed.

Lemma refine_snapshot_short (NDEBUG : bool) (fuel : nat) (dom : Domain)
  (st : State) :
  forall (l : list Edge) (marked : list EdgeId),
    (forall e, In e l ->
       exists pts, sub_vertex_placement NDEBUG fuel dom (snd st) e = Ok pts
                   /\ length pts < 3) ->
    refine_snapshot NDEBUG fuel dom l marked st = Ok (marked, st).
Proof.
  induction l as [|e l IH]; intros marked Hall; [reflexivity|].
  cbn [refine_snapshot].
  destruct (Hall e (or_introl eq_refl)) as (pts & Hpl & Hlen).
  rewrite (refine_edge_short NDEBUG fuel dom e marked st pts Hpl Hlen).
  cbn [bind]. apply IH. intros e' He'. apply Hall. right. assumption.
Qed.

Lemma all_short_spec (NDEBUG : bool) (fuel : nat) (dom : Domain) (st : State) :
  all_short NDEBUG fuel dom st = true ->
  forall e, In e (edges_ (fst st)) ->
    exists pts, sub_vertex_placement NDEBUG fuel dom (snd st) e = Ok pts
                /\ length pts < 3.
Proof.
  unfold all_short. rewrite forallb_forall. intros H e He.
  specialize (H e He).
  destruct (sub_vertex_placement NDEBUG fuel dom (snd st) e) as [pts|];
    [|discriminate].
  exists pts. split; [reflexivity|]. apply Nat.ltb_lt. assumption.
Qed.

Lemma eid_inj (l : list Edge) (a b : Edge) :
  NoDup (map eid l) -> In a l -> In b l -> eid a = eid b -> a = b.
Proof.
  induction l as [|x l IH]; simpl; intros Hnd Ha Hb Heq; [contradiction|].
  inversion Hnd as [|? ? Hnin Hnd']; subst.
  destruct Ha as [->|Ha]; destruct Hb as [->|Hb].
  - reflexivity.
  - exfalso. apply Hnin. rewrite Heq. apply in_map. assumption.
  - exfalso. apply Hnin. rewrite <- Heq. apply in_map. assumption.
  - auto.
Qed.

Lemma edge_of_In (f : Front) (e : Edge) :
  front_ok f = true -> In e (edges_ f) -> edge f (eid e) = Some e.
Proof.
  intros Hok Hin. apply in_split in Hin. destruct Hin as (pre & suf & Hed).
  eapply edge_found; eassumption.
Qed.

Lemma edge_In (f : Front) (i : EdgeId) (e : Edge) :
  edge f i = Some e -> In e (edges_ f) /\ eid e = i.
Proof.
  unfold edge. intros H. apply find_some in H. destruct H as [H1 H2].
  unfold is_edge in H2. apply Nat.eqb_eq in H2. auto.
Qed.

(** [refine] is the pass over the snapshot followed by the removal of the
    marked edges and the computation of the area. *)
Lemma refine_inv (NDEBUG : bool)
  (compute_area : list Edge -> Vertices -> double) (n fuel : nat)
  (dom : Domain) (st st' : State) (k : Z) :
  front_ok (fst st) = true ->
  length (edges_ (fst st)) <= n ->
  refine NDEBUG compute_area n fuel dom st = Ok (k, st') ->
  exists marked st1,
    refine_snapshot NDEBUG fuel dom (edges_ (fst st)) [] st = Ok (marked, st1)
    /\ edges_ (fst st') = edges_ (remove_marked marked (fst st1))
    /\ e_next (fst st') = e_next (fst st1)
    /\ base_ (fst st') = base_ (fst st1)
    /\ area_ (fst st') = compute_area (edges_ (fst st')) (snd st')
    /\ snd st' = snd st1
    /\ k = to_int (to_size_t
                     (Z.of_nat (length (edges_ (fst st')))
                      - to_size_t
                          (to_int (Z.of_nat (length (edges_ (fst st))))))).
Proof.
  intros Hok Hn. unfold refine.
  change (begin_ (fst st)) with (head_id (edges_ (fst st))).
  rewrite (refine_loop_snapshot NDEBUG fuel dom (edges_ (fst st)) [] n [] []
             st eq_refl Hok Hn).
  destruct (refine_snapshot NDEBUG fuel dom (edges_ (fst st)) [] st)
    as [[marked [f1 vs1]]|err]; cbn [bind]; [|discriminate].
  intros H. inversion H; subst k st'. clear H.
  exists marked, (f1, vs1). cbn [fst snd edges_ e_next base_ area_].
  destruct (remove_marked_fields marked f1) as (H1 & H2 & H3).
  repeat split; auto.
Qed.

Lemma snapshot_keeps_short_edge (NDEBUG : bool) (fuel : nat) (dom : Domain)
  (st st1 : State) (e : Edge) (pts : list Vec2d) (marked : list EdgeId) :
  front_ok (fst st) = true ->
  vertices_ok (snd st) = true ->
  In e (edges_ (fst st)) ->
  sub_vertex_placement NDEBUG fuel dom (snd st) e = Ok pts ->
  length pts < 3 ->
  refine_snapshot NDEBUG fuel dom (edges_ (fst st)) [] st = Ok (marked, st1) ->
  ~ In (eid e) marked /\ In e (edges_ (fst st1))
  /\ front_ok (fst st1) = true.
Proof.
  intros Hok Hvok He Hpl Hlen Hrs.
  destruct (refine_snapshot_front NDEBUG fuel dom (edges_ (fst st)) [] []
              marked st st1 Hok eq_refl Hrs)
    as (B1 & _ & _ & _ & B5 & _).
  destruct (refine_snapshot_store NDEBUG fuel dom (edges_ (fst st)) []
              marked st st1 Hvok Hrs)
    as (_ & _ & B9 & _).
  split; [|auto].
  intros Hin. destruct (B9 _ Hin) as [[]|(e' & He' & Hid & Hp)].
  assert (e' = e).
  { apply front_ok_iff in Hok. destruct Hok as [Hnd _].
    eapply eid_inj; eassumption. }
  subst e'. specialize (Hp pts Hpl). lia.
Qed.

Lemma refine_keeps_edge (NDEBUG : bool)
  (compute_area : list Edge -> Vertices -> double) (n fuel : nat)
  (dom : Domain) (st st' : State) (e : Edge) (pts : list Vec2d) (k : Z) :
  front_ok (fst st) = true ->
  vertices_ok (snd st) = true ->
  length (edges_ (fst st)) <= n ->
  In e (edges_ (fst st)) ->
  sub_vertex_placement NDEBUG fuel dom (snd st) e = Ok pts ->
  length pts < 3 ->
  refine NDEBUG compute_area n fuel dom st = Ok (k, st') ->
  In e (edges_ (fst st')) /\ edge (fst st') (eid e) = Some e.
Proof.
  intros Hok Hvok Hn He Hpl Hlen Href.
  destruct (refine_inv NDEBUG compute_area n fuel dom st st' k Hok Hn Href)
    as (marked & st1 & Hrs & Hed & Hnx & _).
  destruct (snapshot_keeps_short_edge NDEBUG fuel dom st st1 e pts marked
              Hok Hvok He Hpl Hlen Hrs) as (H1 & H2 & H3).
  assert (Hin : In e (edges_ (fst st'))).
  { rewrite Hed. apply remove_marked_In. auto. }
  split; [assumption|]. apply edge_of_In; [|assumption].
  pose proof (remove_marked_ok marked (fst st1) H3) as Hok'.
  destruct (remove_marked_fields marked (fst st1)) as (F1 & _).
  unfold front_ok in *. rewrite Hed, Hnx, <- F1. assumption.
Qed.

(** ** The shape of the placed points *)

Lemma march_points_shape (NDEBUG : bool) (fuel : nat) (dom : Domain)
  (xy_a xy_b tang : Vec2d) (len rho_b : double) (pts : list Vec2d) :
  march_points NDEBUG fuel dom xy_a xy_b tang len rho_b = Ok pts ->
  exists inner, pts = xy_a :: inner ++ [xy_b].
Proof.
  unfold march_points.
  destruct (march fuel dom xy_a tang len
              (1.0 - 0.5 * rho_b / len)%float xy_a) as [[marched s_last]|err];
    cbn [bind]; [|discriminate].
  match goal with
  | |- (if ?c then _ else _) = _ -> _ => destruct c; [|discriminate]
  end.
  intros H. inversion H. eexists. reflexivity.
Qed.

Lemma create_sub_vertex_coords_shape (NDEBUG : bool) (fuel : nat)
  (dom : Domain) (vs : Vertices) (e : Edge) (dir : bool)
  (rho_1 rho_2 : double) (pts : list Vec2d) :
  create_sub_vertex_coords NDEBUG fuel dom vs e dir rho_1 rho_2 = Ok pts ->
  exists a b inner,
    vertex_xy vs (e_v1 e) = Ok a /\ vertex_xy vs (e_v2 e) = Ok b
    /\ pts = a :: inner ++ [b].
Proof.
  unfold create_sub_vertex_coords, sub_vertex_sequence, march_from, march_to.
  destruct dir.
  - destruct (vertex_xy vs (e_v1 e)) as [a|]; cbn [bind]; [|discriminate].
    destruct (vertex_xy vs (e_v2 e)) as [b|]; cbn [bind]; [|discriminate].
    destruct (edge_tangent vs e) as [t|]; cbn [bind]; [|discriminate].
    destruct (edge_length vs e) as [len|]; cbn [bind]; [|discriminate].
    destruct (march_points NDEBUG fuel dom a b (march_tangent true t) len
                rho_2) as [seq|] eqn:Hm; cbn [bind]; [|discriminate].
    intros H. inversion H; subst pts.
    apply march_points_shape in Hm. destruct Hm as [inner ->].
    exists a, b, inner. auto.
  - destruct (vertex_xy vs (e_v2 e)) as [b|]; cbn [bind]; [|discriminate].
    destruct (vertex_xy vs (e_v1 e)) as [a|]; cbn [bind]; [|discriminate].
    destruct (edge_tangent vs e) as [t|]; cbn [bind]; [|discriminate].
    destruct (edge_length vs e) as [len|]; cbn [bind]; [|discriminate].
    destruct (march_points NDEBUG fuel dom b a (march_tangent false t) len
                rho_1) as [seq|] eqn:Hm; cbn [bind]; [|discriminate].
    intros H. inversion H; subst pts.
    apply march_points_shape in Hm. destruct Hm as [inner ->].
    exists a, b, (rev inner). split; [reflexivity|]. split; [reflexivity|].
    cbn [rev]. rewrite rev_app_distr. reflexivity.
Qed.

(** The fuel only bounds the number of iterations of the marching loop: a
    result that is reached with some fuel is the result with any larger
    fuel. *)
Lemma march_more_fuel (dom : Domain) (xy_a tang : Vec2d) (len s_end : double) :
  forall (fuel fuel' : nat) (xy : Vec2d) (r : list Vec2d * double),
    march fuel dom xy_a tang len s_end xy = Ok r ->
    fuel <= fuel' ->
    march fuel' dom xy_a tang len s_end xy = Ok r.
Proof.
  induction fuel as [|fuel IH]; intros fuel' xy r H Hle; [discriminate|].
  destruct fuel' as [|fuel']; [lia|].
  cbn [march] in *.
  match goal with
  | |- (if ?c then _ else _) = _ => destruct c; [assumption|]
  end.
  match type of H with
  | bind (march fuel dom xy_a tang len s_end ?x) _ = _ =>
      destruct (march fuel dom xy_a tang len s_end x) as [r1|] eqn:Hm;
      [|discriminate];
      rewrite (IH fuel' x r1 Hm) by lia
  end.
  exact H.
Qed.

(** The loop has no bound of its own.  With a size function that is 0
    everywhere the marching point never leaves the start point, and the
    loop does not come to an end on the lower side of the square. *)
Lemma march_zero_size_no_end (fuel : nat) :
  march fuel (mkDomain (fun _ => 0.0%float) [])
        (mkVec2d 0%float 0%float) (mkVec2d 1%float 0%float) 10%float 1%float
        (mkVec2d 0%float 0%float)
  = Err OutOfFuel.
Proof.
  induction fuel as [|fuel IH]; [reflexivity|].
  cbn [march size_function].
  change (Vec2.add (mkVec2d 0%float 0%float)
            (Vec2.scale (0.5 * (0 + 0))%float (mkVec2d 1%float 0%float)))
    with (mkVec2d 0%float 0%float).
  change (1 <? Vec2.length
                 (Vec2.sub (mkVec2d 0%float 0%float)
                           (mkVec2d 0%float 0%float)) / 10)%float
    with false.
  cbv iota. rewrite IH. reflexivity.
Qed.

Lemma sub_vertex_placement_more_fuel (NDEBUG : bool) (fuel fuel' : nat)
  (dom : Domain) (vs : Vertices) (e : Edge) (pts : list Vec2d) :
  sub_vertex_placement NDEBUG fuel dom vs e = Ok pts ->
  fuel <= fuel' ->
  sub_vertex_placement NDEBUG fuel' dom vs e = Ok pts.
Proof.
  intros H Hle.
  destruct (sub_vertex_placement_ok NDEBUG fuel dom vs e pts H)
    as (a & b & Ha & Hb).
  rewrite (sub_vertex_placement_eq NDEBUG fuel dom vs e a b Ha Hb) in H.
  rewrite (sub_vertex_placement_eq NDEBUG fuel' dom vs e a b Ha Hb).
  unfold placement_of, march_points in *.
  match type of H with
  | bind (bind (march fuel dom ?x ?t ?l ?s ?x) _) _ = _ =>
      destruct (march fuel dom x t l s x) as [r|] eqn:Hm; [|discriminate];
      rewrite (march_more_fuel dom x t l s fuel fuel' x r Hm Hle)
  end.
  exact H.
Qed.

(** Over a whole call of [refine]: an edge of the resulting front that was
    not in the front at the start carries the marker of an edge that was
    there and has been removed. *)
Lemma refine_new_edges_carry_markers (NDEBUG : bool)
  (compute_area : list Edge -> Vertices -> double) (n fuel : nat)
  (dom : Domain) (st st' : State) (k : Z) :
  front_ok (fst st) = true ->
  length (edges_ (fst st)) <= n ->
  refine NDEBUG compute_area n fuel dom st = Ok (k, st') ->
  forall x, In x (edges_ (fst st')) ->
    In x (edges_ (fst st))
    \/ exists e, In e (edges_ (fst st)) /\ ~ In e (edges_ (fst st'))
                 /\ marker x = marker e.
Proof.
  intros Hok Hn Href x Hx.
  destruct (refine_inv NDEBUG compute_area n fuel dom st st' k Hok Hn Href)
    as (marked & st1 & Hrs & Hed & _).
  destruct (refine_snapshot_front NDEBUG fuel dom (edges_ (fst st)) [] []
              marked st st1 Hok eq_refl Hrs)
    as (_ & _ & _ & _ & _ & B6 & _).
  rewrite Hed in Hx. apply remove_marked_In in Hx. destruct Hx as [Hx Hnm].
  destruct (B6 x Hx) as [Hin|(_ & e & He & Hmk & Hmm)]; [auto|].
  right. exists e. split; [assumption|]. split; [|assumption].
  rewrite Hed. intros Hin. apply remove_marked_In in Hin. tauto.
Qed.

(** ** Comparisons of doubles *)

Lemma SFcompare_antisym (x y : spec_float) :
  SFcompare y x = option_map CompOpp (SFcompare x y).
Proof.
  destruct x as [sx|sx| |sx mx ex], y as [sy|sy| |sy my ey];
    try reflexivity;
    try (destruct sx; reflexivity);
    try (destruct sy; reflexivity);
    try (destruct sx, sy; reflexivity).
  cbn [SFcompare option_map].
  rewrite (Z.compare_antisym ex ey).
  change (Pcompare my mx Eq) with (Pos.compare my mx).
  change (Pcompare mx my Eq) with (Pos.compare mx my).
  rewrite (Pos.compare_antisym mx my).
  destruct sx, sy; try reflexivity;
    destruct (ex ?= ey)%Z; cbn [CompOpp]; try reflexivity;
    destruct (mx ?= my)%positive; reflexivity.
Qed.

(** [a < b] excludes [b < a]. *)
Lemma ltb_asym (x y : double) :
  (x <? y)%float = true -> (y <? x)%float = false.
Proof.
  rewrite !ltb_spec. unfold SFltb.
  rewrite (SFcompare_antisym (Prim2SF x) (Prim2SF y)).
  destruct (SFcompare (Prim2SF x) (Prim2SF y)) as [[]|];
    cbn [option_map CompOpp]; congruence.
Qed.

(** [a == b] excludes [a < b]. *)
Lemma eqb_not_ltb (x y : double) :
  (x =? y)%float = true -> (x <? y)%float = false.
Proof.
  rewrite eqb_spec, ltb_spec. unfold SFeqb, SFltb.
  destruct (SFcompare (Prim2SF x) (Prim2SF y)) as [[]|]; congruence.
Qed.

Lemma placement_forward (NDEBUG : bool) (fuel : nat) (dom : Domain)
  (vs : Vertices) (e : Edge) (a b t : Vec2d) (len : double) :
  vertex_xy vs (e_v1 e) = Ok a ->
  vertex_xy vs (e_v2 e) = Ok b ->
  edge_tangent vs e = Ok t ->
  edge_length vs e = Ok len ->
  (size_function dom a <? size_function dom b)%float = true ->
  sub_vertex_placement NDEBUG fuel dom vs e
  = march_points NDEBUG fuel dom a b t len (size_function dom b).
Proof.
  intros Ha Hb Ht Hl Hdir.
  unfold sub_vertex_placement, create_sub_vertex_coords, sub_vertex_sequence.
  rewrite Ha, Hb. cbn [bind]. rewrite Hdir. cbn [march_from march_to].
  rewrite Ha, Hb, Ht, Hl. cbn [bind march_tangent].
  destruct (march_points NDEBUG fuel dom a b t len (size_function dom b));
    reflexivity.
Qed.

Lemma placement_backward (NDEBUG : bool) (fuel : nat) (dom : Domain)
  (vs : Vertices) (e : Edge) (a b t : Vec2d) (len : double) :
  vertex_xy vs (e_v1 e) = Ok a ->
  vertex_xy vs (e_v2 e) = Ok b ->
  edge_tangent vs e = Ok t ->
  edge_length vs e = Ok len ->
  (size_function dom a <? size_function dom b)%float = false ->
  sub_vertex_placement NDEBUG fuel dom vs e
  = (pts <- march_points NDEBUG fuel dom b a (Vec2.neg t) len
              (size_function dom a) ;;
     Ok (rev pts)).
Proof.
  intros Ha Hb Ht Hl Hdir.
  unfold sub_vertex_placement, create_sub_vertex_coords, sub_vertex_sequence.
  rewrite Ha, Hb. cbn [bind]. rewrite Hdir. cbn [march_from march_to].
  rewrite Ha, Hb, Ht, Hl. cbn [bind march_tangent]. reflexivity.
Qed.

(** ** The march and the points it places *)

Lemma march_positions (dom : Domain) (xy_a tang : Vec2d) (len s_end : double) :
  forall (fuel j : nat) (marched : list Vec2d) (s_last : double),
    march fuel dom xy_a tang len s_end (march_position dom tang xy_a j)
    = Ok (marched, s_last) ->
    exists m,
      1 <= m /\ m <= fuel
      /\ marched = map (march_position dom tang xy_a) (seq (S j) m)
      /\ s_last = abscissa xy_a len (march_position dom tang xy_a (j + m))
      /\ (forall k, j < k < j + m ->
            (s_end <? abscissa xy_a len (march_position dom tang xy_a k))
            %float = false)
      /\ (s_end <? abscissa xy_a len (march_position dom tang xy_a (j + m)))
         %float = true.
Proof.
  induction fuel as [|fuel IH]; intros j marched s_last H; [discriminate|].
  cbn [march] in H.
  change (Vec2.add (march_position dom tang xy_a j)
            (Vec2.scale
               (0.5 * (size_function dom (march_position dom tang xy_a j)
                       + size_function dom
                           (Vec2.add (march_position dom tang xy_a j)
                              (Vec2.scale
                                 (size_function dom
                                    (march_position dom tang xy_a j))
                                 tang))))%float tang))
    with (march_position dom tang xy_a (S j)) in H.
  change (Vec2.length (Vec2.sub (march_position dom tang xy_a (S j)) xy_a)
          / len)%float
    with (abscissa xy_a len (march_position dom tang xy_a (S j))) in H.
  destruct (s_end <? abscissa xy_a len (march_position dom tang xy_a (S j)))
           %float eqn:Hs.
  - inversion H; subst marched s_last. exists 1.
    replace (j + 1) with (S j) by lia.
    split; [lia|]. split; [lia|]. split; [reflexivity|].
    split; [reflexivity|]. split; [intros k Hk; lia|exact Hs].
  - destruct (march fuel dom xy_a tang len s_end
                (march_position dom tang xy_a (S j))) as [[pts s]|]
      eqn:Hm; cbn [bind] in H; [|discriminate].
    inversion H; subst marched s_last.
    destruct (IH (S j) pts s Hm) as (m & M1 & M2 & M3 & M4 & M5 & M6).
    exists (S m). replace (j + S m) with (S j + m) by lia.
    split; [lia|]. split; [lia|]. split; [rewrite M3; reflexivity|].
    split; [exact M4|]. split; [|exact M6].
    intros k Hk. destruct (Nat.eq_dec k (S j)) as [->|Hne]; [exact Hs|].
    apply M5. lia.
Qed.

Lemma march_runs (dom : Domain) (xy_a tang : Vec2d) (len s_end : double) :
  forall (fuel m j : nat),
    1 <= m -> m <= fuel ->
    (forall k, j < k < j + m ->
       (s_end <? abscissa xy_a len (march_position dom tang xy_a k))%float
       = false) ->
    (s_end <? abscissa xy_a len (march_position dom tang xy_a (j + m)))
    %float = true ->
    march fuel dom xy_a tang len s_end (march_position dom tang xy_a j)
    = Ok (map (march_position dom tang xy_a) (seq (S j) m),
          abscissa xy_a len (march_position dom tang xy_a (j + m))).
Proof.
  induction fuel as [|fuel IH]; intros m j Hm Hf Hlow Hend; [lia|].
  cbn [march].
  change (Vec2.add (march_position dom tang xy_a j)
            (Vec2.scale
               (0.5 * (size_function dom (march_position dom tang xy_a j)
                       + size_function dom
                           (Vec2.add (march_position dom tang xy_a j)
                              (Vec2.scale
                                 (size_function dom
                                    (march_position dom tang xy_a j))
                                 tang))))%float tang))
    with (march_position dom tang xy_a (S j)).
  change (Vec2.length (Vec2.sub (march_position dom tang xy_a (S j)) xy_a)
          / len)%float
    with (abscissa xy_a len (march_position dom tang xy_a (S j))).
  destruct (Nat.eq_dec m 1) as [->|Hne].
  - replace (j + 1) with (S j) in * by lia. rewrite Hend. reflexivity.
  - rewrite (Hlow (S j)) by lia.
    destruct m as [|m]; [lia|].
    rewrite (IH m (S j)); [| lia | lia | |].
    + cbn [bind]. replace (S j + m) with (j + S m) by lia. reflexivity.
    + intros k Hk. apply Hlow. lia.
    + replace (S j + m) with (j + S m) by lia. exact Hend.
Qed.

Lemma removelast_map_seq {A : Type} (g : nat -> A) (a m : nat) :
  1 <= m -> removelast (map g (seq a m)) = map g (seq a (m - 1)).
Proof.
  intros Hm. destruct m as [|m]; [lia|].
  replace (S m - 1) with m by lia.
  rewrite seq_S, map_app. cbn [map]. apply removelast_last.
Qed.

Lemma combine_with_map {A B : Type} (g : A -> B) (l : list A) (r : list B) :
  combine l (map g l ++ r) = map (fun q => (q, g q)) l.
Proof.
  induction l as [|a l IH]; [reflexivity|].
  cbn [map app combine]. rewrite IH. reflexivity.
Qed.

(** The points of [march_points] when the loop has taken [n] steps. *)
Lemma placed_eq (dom : Domain) (x y tang : Vec2d) (len : double) (n : nat) :
  1 <= n ->
  let marched := map (march_position dom tang x) (seq 1 n) in
  let s_last := abscissa x len (march_position dom tang x n) in
  let inner := removelast marched in
  let d_cr := Vec2.scale ((1.0 - s_last) * len)%float tang in
  let rho_i := 0.0%float :: map (size_function dom) inner ++ [0.0%float] in
  let rho_tot := fold_left PrimFloat.add rho_i 0.0%float in
  let rho_i := map (fun v => (v / rho_tot)%float) rho_i in
  x :: map (fun pr => Vec2.add (fst pr) (Vec2.scale (snd pr) d_cr))
           (combine inner (tl rho_i)) ++ [y]
  = placed dom x y tang len n.
Proof.
  intros Hn. cbv zeta. unfold placed.
  rewrite (removelast_map_seq (march_position dom tang x) 1 n Hn).
  set (interior := map (march_position dom tang x) (seq 1 (n - 1))).
  cbn [map tl]. rewrite map_app, map_map. cbn [map].
  rewrite (combine_with_map
             (fun q => (size_function dom q / _)%float) interior).
  rewrite map_map. cbn [fst snd]. reflexivity.
Qed.

Lemma march_points_placed (NDEBUG : bool) (fuel : nat) (dom : Domain)
  (x y tang : Vec2d) (len rho_end : double) (pts : list Vec2d) :
  march_points NDEBUG fuel dom x y tang len rho_end = Ok pts ->
  exists n, marches dom x tang len rho_end n /\ n <= fuel
            /\ pts = placed dom x y tang len n.
Proof.
  unfold march_points.
  change (1.0 - 0.5 * rho_end / len)%float with (cutoff len rho_end).
  destruct (march fuel dom x tang len (cutoff len rho_end) x)
    as [[marched s_last]|] eqn:Hm; cbn [bind]; [|discriminate].
  destruct (march_positions dom x tang len (cutoff len rho_end) fuel 0
              marched s_last Hm) as (n & N1 & N2 & N3 & N4 & N5 & N6).
  cbn [Nat.add] in N4, N5, N6. subst marched s_last.
  rewrite (placed_eq dom x y tang len n N1).
  match goal with
  | |- (if ?c then _ else _) = _ -> _ => destruct c; [|discriminate]
  end.
  intros H. inversion H. exists n. split; [|split; [exact N2|reflexivity]].
  split; [exact N1|]. split; [|exact N6].
  intros k Hk. apply N5. lia.
Qed.

Lemma march_points_of_marches (NDEBUG : bool) (fuel : nat) (dom : Domain)
  (x y tang : Vec2d) (len rho_end : double) (n : nat) :
  marches dom x tang len rho_end n -> n <= fuel ->
  march_points NDEBUG fuel dom x y tang len rho_end
  = if NDEBUG || ascending x 0.0%float (tl (placed dom x y tang len n))
    then Ok (placed dom x y tang len n)
    else Err AssertFailed.
Proof.
  intros (N1 & N2 & N3) Hf. unfold march_points.
  change (1.0 - 0.5 * rho_end / len)%float with (cutoff len rho_end).
  assert (Hrun : march fuel dom x tang len (cutoff len rho_end) x
                 = Ok (map (march_position dom tang x) (seq 1 n),
                       abscissa x len (march_position dom tang x n))).
  { apply (march_runs dom x tang len (cutoff len rho_end) fuel n 0 N1 Hf).
    - intros k Hk. apply N2. lia.
    - exact N3. }
  rewrite Hrun. cbn [bind]. rewrite (placed_eq dom x y tang len n N1).
  reflexivity.
Qed.

(** The placement on an edge whose direction flag is [true]: it is the
    march from [v1]. *)
Lemma placement_forward_placed (NDEBUG : bool) (fuel : nat) (dom : Domain)
  (vs : Vertices) (e : Edge) (a b t : Vec2d) (len : double) :
  vertex_xy vs (e_v1 e) = Ok a ->
  vertex_xy vs (e_v2 e) = Ok b ->
  edge_tangent vs e = Ok t ->
  edge_length vs e = Ok len ->
  (size_function dom a <? size_function dom b)%float = true ->
  (forall pts,
     sub_vertex_placement NDEBUG fuel dom vs e = Ok pts ->
     exists n, marches dom a t len (size_function dom b) n /\ n <= fuel
               /\ pts = placed dom a b t len n)
  /\ (forall n,
        marches dom a t len (size_function dom b) n -> n <= fuel ->
        sub_vertex_placement NDEBUG fuel dom vs e
        = if NDEBUG || ascending a 0.0%float (tl (placed dom a b t len n))
          then Ok (placed dom a b t len n)
          else Err AssertFailed).
Proof.
  intros Ha Hb Ht Hl Hdir.
  rewrite (placement_forward NDEBUG fuel dom vs e a b t len Ha Hb Ht Hl Hdir).
  split.
  - intros pts H. apply march_points_placed in H. exact H.
  - intros n Hn Hf. apply march_points_of_marches; assumption.
Qed.

(** The placement on an edge whose direction flag is [false]: it is the
    march from [v2] along the negated tangent, in reverse order. *)
Lemma placement_backward_placed (NDEBUG : bool) (fuel : nat) (dom : Domain)
  (vs : Vertices) (e : Edge) (a b t : Vec2d) (len : double) :
  vertex_xy vs (e_v1 e) = Ok a ->
  vertex_xy vs (e_v2 e) = Ok b ->
  edge_tangent vs e = Ok t ->
  edge_length vs e = Ok len ->
  (size_function dom a <? size_function dom b)%float = false ->
  (forall pts,
     sub_vertex_placement NDEBUG fuel dom vs e = Ok pts ->
     exists n, marches dom b (Vec2.neg t) len (size_function dom a) n
               /\ n <= fuel
               /\ pts = rev (placed dom b a (Vec2.neg t) len n))
  /\ (forall n,
        marches dom b (Vec2.neg t) len (size_function dom a) n ->
        n <= fuel ->
        sub_vertex_placement NDEBUG fuel dom vs e
        = if NDEBUG
             || ascending b 0.0%float
                  (tl (placed dom b a (Vec2.neg t) len n))
          then Ok (rev (placed dom b a (Vec2.neg t) len n))
          else Err AssertFailed).
Proof.
  intros Ha Hb Ht Hl Hdir.
  rewrite (placement_backward NDEBUG fuel dom vs e a b t len Ha Hb Ht Hl
             Hdir).
  split.
  - intros pts H.
    destruct (march_points NDEBUG fuel dom b a (Vec2.neg t) len
                (size_function dom a)) as [xy_new|] eqn:Hm; cbn [bind] in H;
      [|discriminate].
    inversion H; subst pts. apply march_points_placed in Hm.
    destruct Hm as (n & N1 & N2 & ->). exists n. auto.
  - intros n Hn Hf.
    rewrite (march_points_of_marches NDEBUG fuel dom b a (Vec2.neg t) len
               (size_function dom a) n Hn Hf).
    destruct (NDEBUG
              || ascending b 0.0%float
                   (tl (placed dom b a (Vec2.neg t) len n))); reflexivity.
Qed.

(** ** The base reference *)

Lemma with_base_same (f : Front) : with_base f (base_ f) = f.
Proof. destruct f; reflexivity. Qed.

Lemma next_in_nth (l : list Edge) :
  forall i e,
    NoDup (map eid l) -> nth_error l i = Some e ->
    next_in (eid e) l = option_map eid (nth_error l (S i)).
Proof.
  induction l as [|x l IH]; intros i e Hnd Hi.
  - destruct i; discriminate.
  - inversion Hnd as [|? ? Hnin Hnd']; subst. destruct i as [|i].
    + cbn [nth_error] in Hi. inversion Hi; subst x.
      cbn [next_in]. rewrite is_edge_refl. destruct l; reflexivity.
    + cbn [nth_error] in Hi. cbn [next_in].
      rewrite is_edge_false.
      * rewrite (IH i e Hnd' Hi). reflexivity.
      * intros Heq. apply Hnin. rewrite Heq. apply in_map.
        eapply nth_error_In. eassumption.
Qed.

Lemma set_base_next_nth (f : Front) (i : nat) (e : Edge) :
  front_ok f = true ->
  nth_error (edges_ f) i = Some e ->
  base_ f = Some (eid e) ->
  exists e',
    nth_error (edges_ f) (S i mod length (edges_ f)) = Some e'
    /\ set_base_next f = Ok (with_base f (Some (eid e'))).
Proof.
  intros Hok Hi Hb.
  assert (Hlt : i < length (edges_ f)).
  { apply nth_error_Some. congruence. }
  unfold set_base_next, base.
  destruct (length (edges_ f) <? 1) eqn:Hl1;
    [apply Nat.ltb_lt in Hl1; lia|].
  rewrite Hb. cbn [of_option bind].
  rewrite (edge_of_In f e Hok (nth_error_In _ _ Hi)). cbn [of_option bind].
  pose proof Hok as Hok'. apply front_ok_iff in Hok'.
  destruct Hok' as [Hnd _].
  rewrite (next_in_nth (edges_ f) i e Hnd Hi).
  destruct (nth_error (edges_ f) (S i)) as [e'|] eqn:Hn.
  - exists e'. cbn [option_map]. split; [|reflexivity].
    assert (S i < length (edges_ f)) by (apply nth_error_Some; congruence).
    rewrite Nat.mod_small by assumption. assumption.
  - apply nth_error_None in Hn. cbn [option_map].
    assert (Hs : S i = length (edges_ f)) by lia.
    rewrite Hs, Nat.Div0.mod_same. unfold begin_.
    destruct (edges_ f) as [|e0 rest] eqn:Hed; [simpl in Hlt; lia|].
    exists e0. split; [reflexivity|].
    unfold with_base. rewrite Hed. reflexivity.
Qed.

Lemma set_base_next_iter_nth (k : nat) :
  forall (f : Front) (i : nat) (e : Edge),
    front_ok f = true ->
    nth_error (edges_ f) i = Some e ->
    base_ f = Some (eid e) ->
    exists e',
      nth_error (edges_ f) ((i + k) mod length (edges_ f)) = Some e'
      /\ set_base_next_iter k f = Ok (with_base f (Some (eid e'))).
Proof.
  induction k as [|k IH]; intros f i e Hok Hi Hb.
  - exists e. rewrite Nat.add_0_r.
    assert (Hlt : i < length (edges_ f)) by (apply nth_error_Some; congruence).
    rewrite Nat.mod_small by assumption. split; [assumption|].
    cbn [set_base_next_iter]. rewrite <- Hb, with_base_same. reflexivity.
  - destruct (set_base_next_nth f i e Hok Hi Hb) as (e1 & H1 & Hs).
    cbn [set_base_next_iter]. rewrite Hs. cbn [bind].
    destruct (IH (with_base f (Some (eid e1))) (S i mod length (edges_ f)) e1)
      as (e' & H' & Hit).
    + exact Hok.
    + exact H1.
    + reflexivity.
    + exists e'. cbn [with_base edges_] in H'. split.
      * rewrite <- H'. f_equal.
        rewrite Nat.Div0.add_mod_idemp_l. f_equal. lia.
      * rewrite Hit. reflexivity.
Qed.

(** *** Who writes [base_] *)

Lemma sub_edges_loop_base (e : Edge) :
  forall (inner : list Vec2d) (v_cur : VertexId) (f : Front) (vs : Vertices),
    base_ (fst (snd (sub_edges_loop e inner v_cur (f, vs)))) = base_ f.
Proof.
  induction inner as [|p inner IH]; intros v_cur f vs; [reflexivity|].
  rewrite sub_edges_loop_step_flags. rewrite IH. reflexivity.
Qed.

Lemma create_sub_edges_base (e : Edge) (pts : list Vec2d) (st st' : State) :
  create_sub_edges e pts st = Ok st' -> base_ (fst st') = base_ (fst st).
Proof.
  destruct pts as [|p rest]; [discriminate|].
  rewrite create_sub_edges_unfold. intros H. inversion H. clear H.
  destruct st as [f vs].
  pose proof (sub_edges_loop_base e (removelast rest) (e_v1 e) f vs) as Hb.
  destruct (sub_edges_loop e (removelast rest) (e_v1 e) (f, vs))
    as [v_cur [f1 vs1]].
  rewrite close_chain_eq. exact Hb.
Qed.

Lemma refine_edge_base (NDEBUG : bool) (fuel : nat) (dom : Domain) (e : Edge)
  (marked marked' : list EdgeId) (st st' : State) :
  refine_edge NDEBUG fuel dom e marked st = Ok (marked', st') ->
  base_ (fst st') = base_ (fst st).
Proof.
  intros H. apply refine_edge_inv in H.
  destruct H as [pts [_ [(_ & _ & ->)|(_ & _ & Hc)]]]; [reflexivity|].
  eapply create_sub_edges_base. eassumption.
Qed.

Lemma refine_loop_base (NDEBUG : bool) (fuel : nat) (dom : Domain) :
  forall (n : nat) (it : option EdgeId)
         (seen marked seen' marked' : list EdgeId)
         (st st' : State),
    refine_loop NDEBUG n fuel dom it seen marked st
    = Ok (seen', marked', st') ->
    base_ (fst st') = base_ (fst st).
Proof.
  induction n as [|n IH]; intros it seen marked seen' marked' st st' H.
  - destruct it; simpl in H; [discriminate|]. inversion H. reflexivity.
  - destruct it as [i|]; simpl in H; [|inversion H; reflexivity].
    destruct (edge (fst st) i) as [e|]; cbn [of_option bind] in H;
      [|discriminate].
    destruct (refine_edge NDEBUG fuel dom e marked st) as [[m1 st1]|] eqn:Hre;
      cbn [bind] in H; [|discriminate].
    apply IH in H. apply refine_edge_base in Hre. congruence.
Qed.

Lemma refine_base (NDEBUG : bool)
  (compute_area : list Edge -> Vertices -> double) (n fuel : nat)
  (dom : Domain) (st st' : State) (k : Z) :
  refine NDEBUG compute_area n fuel dom st = Ok (k, st') ->
  base_ (fst st') = base_ (fst st).
Proof.
  unfold refine.
  destruct (refine_loop NDEBUG n fuel dom (begin_ (fst st)) [] [] st)
    as [[[seen marked] [f vs]]|] eqn:Hl; cbn [bind]; [|discriminate].
  intros H. inversion H. cbn [fst base_].
  apply refine_loop_base in Hl. cbn [fst] in Hl. rewrite <- Hl.
  apply remove_marked_fields.
Qed.

Lemma add_boundary_edge_base (st : State) (e : Edge) :
  base_ (fst (add_boundary_edge st e)) = base_ (fst st).
Proof. destruct st as [f vs]. reflexivity. Qed.

Lemma add_boundary_edges_base (l : list Edge) :
  forall st, base_ (fst (fold_left add_boundary_edge l st)) = base_ (fst st).
Proof.
  induction l as [|e l IH]; intros st; [reflexivity|].
  cbn [fold_left]. rewrite IH. apply add_boundary_edge_base.
Qed.

Lemma add_boundaries_base (bs : list (list Edge)) :
  forall st,
    base_ (fst (fold_left
                  (fun st boundary => fold_left add_boundary_edge boundary st)
                  bs st))
    = base_ (fst st).
Proof.
  induction bs as [|b bs IH]; intros st; [reflexivity|].
  cbn [fold_left]. rewrite IH. apply add_boundary_edges_base.
Qed.

(** ** The hook for new topology *)

Lemma mark_objects_front (v1 v2 : VertexId) (e : EdgeId) (st : State) :
  fst (mark_objects v1 v2 e st) = fst st.
Proof. destruct st as [f vs]. reflexivity. Qed.

Lemma mark_objects_flags (v1 v2 : VertexId) (e : EdgeId) (st : State)
  (i : VertexId) (v : Vertex) :
  i = v1 \/ i = v2 -> vertex (snd st) i = Some v ->
  exists v', vertex (snd (mark_objects v1 v2 e st)) i = Some v'
             /\ vertex_le v v' /\ on_front v' = true.
Proof.
  intros Hi Hv. destruct st as [f vs]. cbn [mark_objects snd] in *.
  rewrite !vertex_update by reflexivity. rewrite Hv. cbn [option_map].
  eexists. split; [reflexivity|].
  pose proof (vertex_is_vertex vs i v Hv) as Hiv. unfold is_vertex in *.
  apply Nat.eqb_eq in Hiv.
  destruct (vid v =? v1) eqn:H1; destruct (vid v =? v2) eqn:H2;
    cbn [vid set_on_front]; rewrite ?H1, ?H2;
    unfold vertex_le; cbn [vid xy weight is_fixed on_boundary on_front];
    try tauto.
  apply Nat.eqb_neq in H1, H2. destruct Hi; subst; contradiction.
Qed.

(** ** The properties of the specification *)

(** C1, as the code has it.  The constructor leaves the base reference
    null; [set_base_first] makes it the first edge of a front that is not
    empty; [refine] never writes it, so after [refine] it designates a live
    edge if the edge it designated got fewer than 3 points. *)
Theorem base_reference_policy :
  (forall NDEBUG compute_area check_orientation n fuel dom vs st,
      Front_new NDEBUG compute_area check_orientation n fuel dom vs = Ok st ->
      base_ (fst st) = None)
  /\ (forall f, edges_ f <> [] ->
        base_ (set_base_first f) = begin_ f /\ base_live (set_base_first f))
  /\ (forall NDEBUG compute_area n fuel dom st k st',
        refine NDEBUG compute_area n fuel dom st = Ok (k, st') ->
        base_ (fst st') = base_ (fst st))
  /\ (forall NDEBUG compute_area n fuel dom st k st' b e pts,
        front_ok (fst st) = true ->
        vertices_ok (snd st) = true ->
        length (edges_ (fst st)) <= n ->
        base_ (fst st) = Some b ->
        edge (fst st) b = Some e ->
        sub_vertex_placement NDEBUG fuel dom (snd st) e = Ok pts ->
        length pts < 3 ->
        refine NDEBUG compute_area n fuel dom st = Ok (k, st') ->
        base_ (fst st') = Some b /\ edge (fst st') b = Some e
        /\ base_live (fst st')).
Proof.
  split; [|split; [|split]].
  - intros NDEBUG compute_area check_orientation n fuel dom vs st.
    unfold Front_new.
    match goal with
    | |- (if ?c then _ else _) = _ -> _ => destruct c; [|discriminate]
    end.
    match goal with
    | |- bind (refine _ _ _ _ _ ?s) _ = _ -> _ =>
        destruct (refine NDEBUG compute_area n fuel dom s) as [[k st1]|] eqn:Hr
    end; cbn [bind]; [|discriminate].
    intros H. inversion H; subst st1. apply refine_base in Hr.
    rewrite Hr, add_boundaries_base. reflexivity.
  - intros f Hne. unfold set_base_first, base_live, begin_, edge.
    destruct (edges_ f) as [|e0 rest] eqn:Hed; [contradiction|].
    cbn [length Nat.ltb Nat.leb base_ edges_ find].
    rewrite is_edge_refl. split; [reflexivity|discriminate].
  - intros NDEBUG compute_area n fuel dom st k st'. apply refine_base.
  - intros NDEBUG compute_area n fuel dom st k st' b e pts
           Hok Hvok Hn Hb He Hpl Hlen Href.
    apply edge_In in He. destruct He as [Hin <-].
    destruct (refine_keeps_edge NDEBUG compute_area n fuel dom st st' e pts k
                Hok Hvok Hn Hin Hpl Hlen Href) as [_ Hlive].
    assert (Hb' : base_ (fst st') = Some (eid e)).
    { rewrite <- Hb. eapply refine_base. eassumption. }
    split; [exact Hb'|]. split; [exact Hlive|].
    unfold base_live. rewrite Hb', Hlive. discriminate.
Qed.

(** On the square with the mixed size function the first edge is not
    subdivided: a base set to it is still live after [refine]. *)
Lemma base_reference_policy_witness :
  front_ok (set_base_first (fst square_state)) = true
  /\ vertices_ok (snd square_state) = true
  /\ base_ (set_base_first (fst square_state)) = Some 0
  /\ edge (set_base_first (fst square_state)) 0 = Some (mkEdge 0 0 1 7%Z)
  /\ exists k st',
       refine false no_area 4 100 mixed_domain
              (set_base_first (fst square_state), snd square_state)
       = Ok (k, st')
       /\ k = 4%Z
       /\ base_ (fst st') = Some 0
       /\ edge (fst st') 0 = Some (mkEdge 0 0 1 7%Z)
       /\ base_live (fst st').
Proof.
  split; [reflexivity|]. split; [reflexivity|]. split; [reflexivity|].
  split; [reflexivity|].
  destruct base_reference_policy as (_ & _ & _ & H4).
  destruct (refine false no_area 4 100 mixed_domain
              (set_base_first (fst square_state), snd square_state))
    as [[k st']|err] eqn:Hr; [|vm_compute in Hr; discriminate Hr].
  exists k, st'. split; [reflexivity|]. split.
  - vm_compute in Hr. inversion Hr. reflexivity.
  - apply (H4 false no_area 4 100 mixed_domain
              (set_base_first (fst square_state), snd square_state) k st' 0
              (mkEdge 0 0 1 7%Z)
              [mkVec2d 0%float 0%float; mkVec2d 10%float 0%float]).
    + reflexivity.
    + reflexivity.
    + apply Nat.le_refl.
    + reflexivity.
    + reflexivity.
    + vm_compute. reflexivity.
    + apply Nat.lt_succ_diag_r.
    + exact Hr.
Defined.

(** C1, as it is stated, fails.  The front that the constructor builds from
    the square with the coarse size function has four edges and a null base.
    Once [set_base_first] has made the base the first edge, a call of
    [refine] with the fine size function subdivides and removes that edge,
    and the base keeps designating it. *)
Lemma base_dangles_after_refine :
  Front_new false no_area any_orientation 4 100 coarse_domain square_vertices
  = Ok square_state
  /\ length (edges_ (fst square_state)) = 4
  /\ ~ base_live (fst square_state)
  /\ base_live (set_base_first (fst square_state))
  /\ exists k st',
       refine false no_area 4 100 fine_domain
              (set_base_first (fst square_state), snd square_state)
       = Ok (k, st')
       /\ base_ (fst st') = Some 0
       /\ edge (fst st') 0 = None
       /\ ~ base_live (fst st').
Proof.
  split; [vm_compute; reflexivity|]. split; [reflexivity|].
  split; [intros H; discriminate H|].
  split; [discriminate|].
  eexists. eexists. split; [vm_compute; reflexivity|].
  split; [reflexivity|]. split; [reflexivity|].
  intros H. apply H. reflexivity.
Qed.

(** C2.  A call of [refine] examines exactly the edges that are in the front
    when it starts, in their order: on a well-formed front the iterator loop
    of line 95 computes what a pass over the snapshot of the edge list
    computes and never runs out of iterations, so the only ways not to
    return are those of the loop body.  When the loop returns, the edges it
    has examined are the initial ones, every initial edge is still in the
    front, the edges inserted during the pass have not been examined, and
    only examined edges are marked.  The marked edges are removed from the
    front that the loop leaves: [refine] returns that front without
    them. *)
Theorem refine_examines_snapshot (NDEBUG : bool)
  (compute_area : list Edge -> Vertices -> double) (n fuel : nat)
  (dom : Domain) (st : State) :
  front_ok (fst st) = true ->
  length (edges_ (fst st)) <= n ->
  refine_loop NDEBUG n fuel dom (begin_ (fst st)) [] [] st
  = ('(marked, st') <-
       refine_snapshot NDEBUG fuel dom (edges_ (fst st)) [] st ;;
     Ok (map eid (edges_ (fst st)), marked, st'))
  /\ (forall seen marked st',
        refine_loop NDEBUG n fuel dom (begin_ (fst st)) [] [] st
        = Ok (seen, marked, st') ->
        seen = map eid (edges_ (fst st))
        /\ (forall x, In x (edges_ (fst st)) -> In x (edges_ (fst st')))
        /\ (forall x, In x (edges_ (fst st')) -> ~ In x (edges_ (fst st)) ->
              ~ In (eid x) seen)
        /\ (forall i, In i marked -> In i seen))
  /\ (forall k st2,
        refine NDEBUG compute_area n fuel dom st = Ok (k, st2) ->
        exists seen marked st',
          refine_loop NDEBUG n fuel dom (begin_ (fst st)) [] [] st
          = Ok (seen, marked, st')
          /\ snd st2 = snd st'
          /\ forall x, In x (edges_ (fst st2))
                       <-> In x (edges_ (fst st')) /\ ~ In (eid x) marked).
Proof.
  intros Hok Hn.
  assert (Heq : refine_loop NDEBUG n fuel dom (begin_ (fst st)) [] [] st
                = ('(marked, st') <-
                     refine_snapshot NDEBUG fuel dom (edges_ (fst st)) [] st ;;
                   Ok (map eid (edges_ (fst st)), marked, st'))).
  { change (begin_ (fst st)) with (head_id (edges_ (fst st))).
    rewrite (refine_loop_snapshot NDEBUG fuel dom (edges_ (fst st)) [] n [] []
               st eq_refl Hok Hn).
    reflexivity. }
  split; [exact Heq|]. split.
  - intros seen marked st' Hloop. rewrite Heq in Hloop.
    destruct (refine_snapshot NDEBUG fuel dom (edges_ (fst st)) [] st)
      as [[m1 st1]|err] eqn:Hrs; [|discriminate].
    cbn [bind] in Hloop. inversion Hloop; subst seen marked st'. clear Hloop.
    destruct (refine_snapshot_front NDEBUG fuel dom (edges_ (fst st)) [] [] m1
                st st1 Hok eq_refl Hrs)
      as (_ & _ & _ & _ & B5 & B6 & _ & B8).
    split; [reflexivity|]. split; [exact B5|]. split.
    + intros x Hx Hnx Hseen. destruct (B6 x Hx) as [Hin|(Hge & _)];
        [contradiction|].
      apply in_map_iff in Hseen. destruct Hseen as [y [Hy Hin]].
      apply front_ok_iff in Hok. destruct Hok as [_ Hlt].
      apply Hlt in Hin. lia.
    + intros i Hi. destruct (B8 i Hi) as [[]|Hin]. assumption.
  - intros k st2 Href.
    destruct (refine_inv NDEBUG compute_area n fuel dom st st2 k Hok Hn Href)
      as (marked & st1 & Hrs & Hed & _ & _ & _ & Hvs & _).
    exists (map eid (edges_ (fst st))), marked, st1.
    rewrite Heq, Hrs. cbn [bind]. split; [reflexivity|].
    split; [exact Hvs|].
    intros x. rewrite Hed. apply remove_marked_In.
Qed.

(** On the square with the fine size function the loop examines the four
    initial edges and leaves 24 edges, the four marked ones included. *)
Lemma refine_examines_snapshot_witness :
  front_ok (fst square_state) = true
  /\ length (edges_ (fst square_state)) <= 4
  /\ exists marked st',
       refine_loop false 4 100 fine_domain (begin_ (fst square_state))
                   [] [] square_state
       = Ok ([0; 1; 2; 3], marked, st')
       /\ length (edges_ (fst st')) = 24.
Proof.
  split; [reflexivity|]. split; [apply Nat.le_refl|].
  destruct (refine_examines_snapshot false no_area 4 100 fine_domain
              square_state eq_refl (Nat.le_refl 4)) as [Heq _].
  rewrite Heq. vm_compute. eexists. eexists. split; reflexivity.
Defined.

(** C3.  On a front all of whose edges get fewer than 3 points, [refine]
    removes no edge, inserts no edge and no vertex, leaves the edge sequence,
    the vertex store and the base as they are, and returns 0; only the area
    is computed anew. *)
Theorem refine_idempotent (NDEBUG : bool)
  (compute_area : list Edge -> Vertices -> double) (n fuel : nat)
  (dom : Domain) (st : State) :
  front_ok (fst st) = true ->
  length (edges_ (fst st)) <= n ->
  (forall e, In e (edges_ (fst st)) ->
     exists pts, sub_vertex_placement NDEBUG fuel dom (snd st) e = Ok pts
                 /\ length pts < 3) ->
  refine NDEBUG compute_area n fuel dom st
  = Ok (0%Z,
        (mkFront (edges_ (fst st)) (e_next (fst st))
                 (compute_area (edges_ (fst st)) (snd st)) (base_ (fst st)),
         snd st)).
Proof.
  intros Hok Hn Hall. unfold refine.
  change (begin_ (fst st)) with (head_id (edges_ (fst st))).
  rewrite (refine_loop_snapshot NDEBUG fuel dom (edges_ (fst st)) [] n [] []
             st eq_refl Hok Hn).
  rewrite (refine_snapshot_short NDEBUG fuel dom st (edges_ (fst st)) []
             Hall).
  destruct st as [f vs]. cbn [bind fst snd remove_marked fold_left].
  cbn [edges_ e_next base_]. rewrite to_int_difference. reflexivity.
Qed.

(** A second [refine] of the square that the constructor has refined
    returns 0 and the same front. *)
Lemma refine_idempotent_witness :
  front_ok (fst refined_square) = true
  /\ length (edges_ (fst refined_square)) = 20
  /\ all_short false 100 fine_domain refined_square = true
  /\ refine false no_area 20 100 fine_domain refined_square
     = Ok (0%Z, refined_square).
Proof.
  split; [vm_compute; reflexivity|]. split; [vm_compute; reflexivity|].
  split; [vm_compute; reflexivity|].
  rewrite (refine_idempotent false no_area 20 100 fine_domain refined_square).
  - vm_compute. reflexivity.
  - vm_compute. reflexivity.
  - vm_compute. apply Nat.le_refl.
  - apply all_short_spec. vm_compute. reflexivity.
Defined.

(** C4.  The points that [create_sub_vertex_coords] returns for an edge
    begin with the coordinates of its [v1] and end with those of its [v2],
    whatever the marching direction was.  The edges that [create_sub_edges]
    makes of them form a chain from the vertex [v1] to the vertex [v2]; the
    vertices inside the chain are new ones, one for every inner point and at
    its coordinates, and no vertex that existed has moved. *)
Theorem refinement_preserves_endpoints (NDEBUG : bool) (fuel : nat)
  (dom : Domain) (st st' : State) (e : Edge) (dir : bool)
  (rho_1 rho_2 : double) (pts : list Vec2d) (pre suf : list Edge) :
  front_ok (fst st) = true ->
  vertices_ok (snd st) = true ->
  edges_ (fst st) = pre ++ e :: suf ->
  create_sub_vertex_coords NDEBUG fuel dom (snd st) e dir rho_1 rho_2
  = Ok pts ->
  create_sub_edges e pts st = Ok st' ->
  exists a b inner news,
    vertex_xy (snd st) (e_v1 e) = Ok a
    /\ vertex_xy (snd st) (e_v2 e) = Ok b
    /\ pts = a :: inner ++ [b]
    /\ edges_ (fst st') = pre ++ news ++ e :: suf
    /\ connects (e_v1 e) news (e_v2 e)
    /\ map e_v2 (removelast news) = seq (v_next (snd st)) (length inner)
    /\ (forall j p, nth_error inner j = Some p ->
          vertex_xy (snd st') (v_next (snd st) + j) = Ok p)
    /\ (forall i c, vertex_xy (snd st) i = Ok c ->
          vertex_xy (snd st') i = Ok c).
Proof.
  intros Hok Hvok Hed Hcv Hce.
  destruct (create_sub_vertex_coords_shape NDEBUG fuel dom (snd st) e dir
              rho_1 rho_2 pts Hcv) as (a & b & inner & Ha & Hb & Hpts).
  destruct (front_ok_at (fst st) pre suf e Hok Hed) as [Hpre Hid].
  destruct (create_sub_edges_edges e pts pre suf st st' Hed Hpre Hid Hce)
    as (H1 & _).
  destruct (create_sub_edges_vertices e pts st st' Hvok Hce)
    as (_ & Hle & Hnew & _).
  assert (Hin : removelast (tl pts) = inner).
  { subst pts. cbn [tl]. apply removelast_last. }
  rewrite Hin in H1, Hnew.
  exists a, b, inner. eexists.
  split; [exact Ha|]. split; [exact Hb|]. split; [exact Hpts|].
  split; [exact H1|]. split; [apply sub_edges_connects|].
  split; [apply sub_edges_inner|]. split.
  - intros j p Hj. destruct (Hnew j p Hj) as (v' & Hv' & Hxy & _).
    unfold vertex_xy. rewrite Hv'. cbn [of_option bind]. congruence.
  - intros i c Hc. eapply store_le_xy; eassumption.
Qed.

(** The lower side of the square, from (0, 0) to (10, 0). *)
Lemma refinement_preserves_endpoints_witness :
  front_ok (fst square_state) = true
  /\ vertices_ok (snd square_state) = true
  /\ edges_ (fst square_state)
     = [] ++ mkEdge 0 0 1 7%Z
          :: [mkEdge 1 1 2 8%Z; mkEdge 2 2 3 9%Z; mkEdge 3 3 0 10%Z]
  /\ create_sub_vertex_coords false 100 fine_domain (snd square_state)
       (mkEdge 0 0 1 7%Z) false 2%float 2%float = Ok lower_side_points
  /\ exists st' news,
       create_sub_edges (mkEdge 0 0 1 7%Z) lower_side_points square_state
       = Ok st'
       /\ edges_ (fst st')
          = [] ++ news
               ++ mkEdge 0 0 1 7%Z
               :: [mkEdge 1 1 2 8%Z; mkEdge 2 2 3 9%Z; mkEdge 3 3 0 10%Z]
       /\ connects 0 news 1
       /\ vertex_xy (snd st') 0 = Ok (mkVec2d 0%float 0%float)
       /\ vertex_xy (snd st') 1 = Ok (mkVec2d 10%float 0%float).
Proof.
  split; [reflexivity|]. split; [reflexivity|]. split; [reflexivity|].
  split; [vm_compute; reflexivity|].
  destruct (create_sub_edges (mkEdge 0 0 1 7%Z) lower_side_points
              square_state) as [st'|err] eqn:Hc; [|discriminate Hc].
  destruct (refinement_preserves_endpoints false 100 fine_domain square_state
              st' (mkEdge 0 0 1 7%Z) false 2%float 2%float lower_side_points
              []
              [mkEdge 1 1 2 8%Z; mkEdge 2 2 3 9%Z; mkEdge 3 3 0 10%Z])
    as (a & b & inner & news & Ha & Hb & _ & Hed & Hcon & _ & _ & Hold).
  - reflexivity.
  - reflexivity.
  - reflexivity.
  - vm_compute. reflexivity.
  - exact Hc.
  - exists st', news. split; [reflexivity|]. split; [exact Hed|].
    split; [exact Hcon|]. split; apply Hold; reflexivity.
Defined.

(** C5.  For an edge from [a] to [b] with tangent [t] and length [len],
    [refine] marches from the end point with the smaller size value towards
    the one with the larger value.  If the size at [a] is less than the size
    at [b], the points it places are those of the march from [a] along [t]:
    the march takes the steps of section 4.3 from [a] until the arclength
    fraction of a point, measured from [a], exceeds the cutoff that the size
    at [b] gives, and the points are placed from [a] to [b].  If the size at
    [a] is greater than the size at [b], they are those of the march from
    [b] along the negated tangent, with the cutoff of the size at [a], in
    reverse order.  Conversely, when such a march has no more steps than
    the loop is granted, these are the points placed, in a debug build if
    they pass the validation. *)
Theorem marching_starts_at_smaller_size (NDEBUG : bool) (fuel : nat)
  (dom : Domain) (vs : Vertices) (e : Edge) (a b t : Vec2d) (len : double) :
  vertex_xy vs (e_v1 e) = Ok a ->
  vertex_xy vs (e_v2 e) = Ok b ->
  edge_tangent vs e = Ok t ->
  edge_length vs e = Ok len ->
  ((size_function dom a <? size_function dom b)%float = true ->
   (forall pts,
      sub_vertex_placement NDEBUG fuel dom vs e = Ok pts ->
      exists n, marches dom a t len (size_function dom b) n /\ n <= fuel
                /\ pts = placed dom a b t len n)
   /\ (forall n,
         marches dom a t len (size_function dom b) n -> n <= fuel ->
         sub_vertex_placement NDEBUG fuel dom vs e
         = if NDEBUG || ascending a 0.0%float (tl (placed dom a b t len n))
           then Ok (placed dom a b t len n)
           else Err AssertFailed))
  /\ ((size_function dom b <? size_function dom a)%float = true ->
      (forall pts,
         sub_vertex_placement NDEBUG fuel dom vs e = Ok pts ->
         exists n, marches dom b (Vec2.neg t) len (size_function dom a) n
                   /\ n <= fuel
                   /\ pts = rev (placed dom b a (Vec2.neg t) len n))
      /\ (forall n,
            marches dom b (Vec2.neg t) len (size_function dom a) n ->
            n <= fuel ->
            sub_vertex_placement NDEBUG fuel dom vs e
            = if NDEBUG
                 || ascending b 0.0%float
                      (tl (placed dom b a (Vec2.neg t) len n))
              then Ok (rev (placed dom b a (Vec2.neg t) len n))
              else Err AssertFailed)).
Proof.
  intros Ha Hb Ht Hl. split.
  - intros Hlt. apply placement_forward_placed; assumption.
  - intros Hgt. apply placement_backward_placed; try assumption.
    apply ltb_asym. assumption.
Qed.

(** With the graded size function the lower side of the square is marched
    from its [v1], where the size is 1, in steps that begin with 1.125, and
    the upper side from its [v2]. *)
Lemma marching_starts_at_smaller_size_witness :
  (vertex_xy (snd square_state) 0 = Ok (mkVec2d 0%float 0%float)
   /\ vertex_xy (snd square_state) 1 = Ok (mkVec2d 10%float 0%float)
   /\ edge_tangent (snd square_state) (mkEdge 0 0 1 7%Z)
      = Ok (mkVec2d 1%float 0%float)
   /\ edge_length (snd square_state) (mkEdge 0 0 1 7%Z) = Ok 10%float
   /\ (1 <? 3.5)%float = true
   /\ march_position graded_domain (mkVec2d 1%float 0%float)
        (mkVec2d 0%float 0%float) 1 = mkVec2d 1.125%float 0%float
   /\ exists pts n,
        sub_vertex_placement false 100 graded_domain (snd square_state)
          (mkEdge 0 0 1 7%Z) = Ok pts
        /\ length pts = 6
        /\ marches graded_domain (mkVec2d 0%float 0%float)
             (mkVec2d 1%float 0%float) 10%float 3.5%float n
        /\ pts = placed graded_domain (mkVec2d 0%float 0%float)
                   (mkVec2d 10%float 0%float) (mkVec2d 1%float 0%float)
                   10%float n)
  /\ (vertex_xy (snd square_state) 2 = Ok (mkVec2d 10%float 10%float)
      /\ vertex_xy (snd square_state) 3 = Ok (mkVec2d 0%float 10%float)
      /\ edge_tangent (snd square_state) (mkEdge 2 2 3 9%Z)
         = Ok (mkVec2d (-1)%float 0%float)
      /\ edge_length (snd square_state) (mkEdge 2 2 3 9%Z) = Ok 10%float
      /\ (1 <? 3.5)%float = true
      /\ march_position graded_domain (Vec2.neg (mkVec2d (-1)%float 0%float))
           (mkVec2d 0%float 10%float) 1 = mkVec2d 1.125%float 10%float
      /\ exists pts n,
           sub_vertex_placement false 100 graded_domain (snd square_state)
             (mkEdge 2 2 3 9%Z) = Ok pts
           /\ length pts = 6
           /\ marches graded_domain (mkVec2d 0%float 10%float)
                (Vec2.neg (mkVec2d (-1)%float 0%float)) 10%float 3.5%float n
           /\ pts = rev (placed graded_domain (mkVec2d 0%float 10%float)
                           (mkVec2d 10%float 10%float)
                           (Vec2.neg (mkVec2d (-1)%float 0%float))
                           10%float n)).
Proof.
  split.
  - split; [reflexivity|]. split; [reflexivity|].
    split; [vm_compute; reflexivity|]. split; [vm_compute; reflexivity|].
    split; [vm_compute; reflexivity|]. split; [vm_compute; reflexivity|].
    destruct (marching_starts_at_smaller_size false 100 graded_domain
                (snd square_state) (mkEdge 0 0 1 7%Z)
                (mkVec2d 0%float 0%float) (mkVec2d 10%float 0%float)
                (mkVec2d 1%float 0%float) 10%float)
      as (H1 & _).
    + reflexivity.
    + reflexivity.
    + vm_compute. reflexivity.
    + vm_compute. reflexivity.
    + destruct (H1 ltac:(vm_compute; reflexivity)) as [H1a _].
      destruct (sub_vertex_placement false 100 graded_domain
                  (snd square_state) (mkEdge 0 0 1 7%Z)) as [pts|err]
        eqn:Hp; [|vm_compute in Hp; discriminate Hp].
      destruct (H1a pts eq_refl) as (n & Hn & _ & Hpts).
      exists pts, n. split; [reflexivity|].
      split; [vm_compute in Hp; inversion Hp; reflexivity|].
      split; [exact Hn|exact Hpts].
  - split; [reflexivity|]. split; [reflexivity|].
    split; [vm_compute; reflexivity|]. split; [vm_compute; reflexivity|].
    split; [vm_compute; reflexivity|]. split; [vm_compute; reflexivity|].
    destruct (marching_starts_at_smaller_size false 100 graded_domain
                (snd square_state) (mkEdge 2 2 3 9%Z)
                (mkVec2d 10%float 10%float) (mkVec2d 0%float 10%float)
                (mkVec2d (-1)%float 0%float) 10%float)
      as (_ & H2).
    + reflexivity.
    + reflexivity.
    + vm_compute. reflexivity.
    + vm_compute. reflexivity.
    + destruct (H2 ltac:(vm_compute; reflexivity)) as [H2a _].
      destruct (sub_vertex_placement false 100 graded_domain
                  (snd square_state) (mkEdge 2 2 3 9%Z)) as [pts|err]
        eqn:Hp; [|vm_compute in Hp; discriminate Hp].
      destruct (H2a pts eq_refl) as (n & Hn & _ & Hpts).
      exists pts, n. split; [reflexivity|].
      split; [vm_compute in Hp; inversion Hp; reflexivity|].
      split; [exact Hn|exact Hpts].
Defined.

(** C6, as the code has it.  The hook leaves the front, and with it every
    edge, as it finds it.  When the container inserts or appends an edge,
    the new edge is in the front and the hook has flagged both of its end
    points [on_front].  After [create_sub_edges] every vertex it has
    created and both end points of the subdivided edge are flagged
    [on_front]. *)
Theorem hook_flags_endpoints :
  (forall v1 v2 e st, fst (mark_objects v1 v2 e st) = fst st)
  /\ (forall pos v1 v2 m st i v,
        i = v1 \/ i = v2 -> vertex (snd st) i = Some v ->
        In (fst (insert_edge pos v1 v2 m st))
           (edges_ (fst (snd (insert_edge pos v1 v2 m st))))
        /\ e_v1 (fst (insert_edge pos v1 v2 m st)) = v1
        /\ e_v2 (fst (insert_edge pos v1 v2 m st)) = v2
        /\ exists v',
             vertex (snd (snd (insert_edge pos v1 v2 m st))) i = Some v'
             /\ on_front v' = true)
  /\ (forall v1 v2 m st i v,
        i = v1 \/ i = v2 -> vertex (snd st) i = Some v ->
        In (fst (add_edge v1 v2 m st))
           (edges_ (fst (snd (add_edge v1 v2 m st))))
        /\ e_v1 (fst (add_edge v1 v2 m st)) = v1
        /\ e_v2 (fst (add_edge v1 v2 m st)) = v2
        /\ exists v',
             vertex (snd (snd (add_edge v1 v2 m st))) i = Some v'
             /\ on_front v' = true)
  /\ (forall e pts st st',
        vertices_ok (snd st) = true ->
        create_sub_edges e pts st = Ok st' ->
        (forall j, j < length (removelast (tl pts)) ->
           exists v', vertex (snd st') (v_next (snd st) + j) = Some v'
                      /\ on_front v' = true)
        /\ (forall i v, i = e_v1 e \/ i = e_v2 e ->
              vertex (snd st) i = Some v ->
              exists v', vertex (snd st') i = Some v'
                         /\ on_front v' = true)).
Proof.
  split; [exact mark_objects_front|]. split; [|split].
  - intros pos v1 v2 m [f vs] i v Hi Hv. rewrite insert_edge_fst.
    cbn [fst snd edges_ e_v1 e_v2].
    split; [apply in_insert_before; left; reflexivity|].
    split; [reflexivity|]. split; [reflexivity|].
    destruct (mark_objects_flags v1 v2 0 (f, vs) i v Hi Hv)
      as (v' & Hv' & _ & Hf).
    exists v'. split; [exact Hv'|exact Hf].
  - intros v1 v2 m [f vs] i v Hi Hv.
    cbn [add_edge mark_objects fst snd edges_ e_v1 e_v2].
    split; [apply in_or_app; right; left; reflexivity|].
    split; [reflexivity|]. split; [reflexivity|].
    destruct (mark_objects_flags v1 v2 0 (f, vs) i v Hi Hv)
      as (v' & Hv' & _ & Hf).
    exists v'. split; [exact Hv'|exact Hf].
  - intros e pts st st' Hvok Hc.
    destruct (create_sub_edges_vertices e pts st st' Hvok Hc)
      as (_ & _ & Hnew & Hends).
    split.
    + intros j Hj.
      destruct (nth_error (removelast (tl pts)) j) as [p|] eqn:Hn.
      * destruct (Hnew j p Hn) as (v' & Hv' & _ & _ & _ & Hf).
        exists v'. auto.
      * apply nth_error_None in Hn. lia.
    + intros i v Hi Hv. destruct (Hends i v Hi Hv) as (v' & Hv' & _ & Hf).
      exists v'. auto.
Qed.

(** The four vertices created on the lower side of the square. *)
Lemma hook_flags_endpoints_witness :
  vertices_ok (snd square_state) = true
  /\ exists st',
       create_sub_edges (mkEdge 0 0 1 7%Z) lower_side_points square_state
       = Ok st'
       /\ (forall j, j < 4 ->
             exists v', vertex (snd st') (4 + j) = Some v'
                        /\ on_front v' = true).
Proof.
  split; [reflexivity|].
  destruct hook_flags_endpoints as (_ & _ & _ & H4).
  destruct (create_sub_edges (mkEdge 0 0 1 7%Z) lower_side_points
              square_state) as [st'|err] eqn:Hc; [|discriminate Hc].
  exists st'. split; [reflexivity|].
  exact (proj1 (H4 (mkEdge 0 0 1 7%Z) lower_side_points square_state st'
                   eq_refl Hc)).
Defined.

(** C6, as it is stated, fails.  When the first edge of the square is
    appended to an empty front, the hook is called for the edge the
    container has created and for its two end points: it flags the two
    vertices and leaves the edge as it is. *)
Lemma hook_leaves_edge_unflagged :
  snd (add_edge 0 1 7%Z (empty_front, square_vertices))
  = mark_objects 0 1 0 first_edge_created
  /\ ~ hook_flags_edge 0 1 0 first_edge_created
  /\ edge (fst (mark_objects 0 1 0 first_edge_created)) 0
     = Some (mkEdge 0 0 1 7%Z)
  /\ option_map on_front (vertex (snd first_edge_created) 0) = Some false
  /\ option_map on_front
       (vertex (snd (mark_objects 0 1 0 first_edge_created)) 0) = Some true
  /\ option_map on_front
       (vertex (snd (mark_objects 0 1 0 first_edge_created)) 1) = Some true.
Proof.
  split; [reflexivity|]. split; [|repeat split].
  unfold hook_flags_edge. intros H. apply H. reflexivity.
Qed.

(** C7.  An edge of the front for which the placement yields fewer than 3
    points is left as it is: the loop body returns for it without an error
    and with the marked edges and the state unchanged (no vertex and no
    edge is created), the edge is not among the edges marked by the pass,
    and when [refine] returns the edge is still in the front. *)
Theorem refine_keeps_short_edge (NDEBUG : bool)
  (compute_area : list Edge -> Vertices -> double) (n fuel : nat)
  (dom : Domain) (st : State) (e : Edge) (pts : list Vec2d) :
  front_ok (fst st) = true ->
  vertices_ok (snd st) = true ->
  length (edges_ (fst st)) <= n ->
  In e (edges_ (fst st)) ->
  sub_vertex_placement NDEBUG fuel dom (snd st) e = Ok pts ->
  length pts < 3 ->
  (forall marked, refine_edge NDEBUG fuel dom e marked st = Ok (marked, st))
  /\ (forall seen marked st1,
        refine_loop NDEBUG n fuel dom (begin_ (fst st)) [] [] st
        = Ok (seen, marked, st1) ->
        ~ In (eid e) marked /\ In e (edges_ (fst st1)))
  /\ (forall k st',
        refine NDEBUG compute_area n fuel dom st = Ok (k, st') ->
        In e (edges_ (fst st')) /\ edge (fst st') (eid e) = Some e).
Proof.
  intros Hok Hvok Hn He Hpl Hlen.
  split; [|split].
  - intros marked. eapply refine_edge_short; eassumption.
  - intros seen marked st1 Hloop.
    change (begin_ (fst st)) with (head_id (edges_ (fst st))) in Hloop.
    rewrite (refine_loop_snapshot NDEBUG fuel dom (edges_ (fst st)) [] n [] []
               st eq_refl Hok Hn) in Hloop.
    destruct (refine_snapshot NDEBUG fuel dom (edges_ (fst st)) [] st)
      as [[m1 s1]|err] eqn:Hrs; [|discriminate].
    cbn [bind] in Hloop. inversion Hloop; subst.
    destruct (snapshot_keeps_short_edge NDEBUG fuel dom st st1 e pts marked
                Hok Hvok He Hpl Hlen Hrs) as (H1 & H2 & _).
    auto.
  - intros k st' Href. eapply refine_keeps_edge; eassumption.
Qed.

(** With the mixed size function the lower side of the square gets two
    points and stays, while [refine] adds four edges elsewhere. *)
Lemma refine_keeps_short_edge_witness :
  front_ok (fst square_state) = true
  /\ vertices_ok (snd square_state) = true
  /\ length (edges_ (fst square_state)) <= 4
  /\ In (mkEdge 0 0 1 7%Z) (edges_ (fst square_state))
  /\ sub_vertex_placement false 100 mixed_domain (snd square_state)
                          (mkEdge 0 0 1 7%Z)
     = Ok [mkVec2d 0%float 0%float; mkVec2d 10%float 0%float]
  /\ exists k st',
       refine false no_area 4 100 mixed_domain square_state = Ok (k, st')
       /\ k = 4%Z
       /\ In (mkEdge 0 0 1 7%Z) (edges_ (fst st'))
       /\ edge (fst st') 0 = Some (mkEdge 0 0 1 7%Z).
Proof.
  split; [reflexivity|]. split; [reflexivity|]. split; [apply Nat.le_refl|].
  split; [left; reflexivity|]. split; [vm_compute; reflexivity|].
  destruct (refine_keeps_short_edge false no_area 4 100 mixed_domain
              square_state (mkEdge 0 0 1 7%Z)
              [mkVec2d 0%float 0%float; mkVec2d 10%float 0%float])
    as (_ & _ & H3).
  - reflexivity.
  - reflexivity.
  - apply Nat.le_refl.
  - left. reflexivity.
  - vm_compute. reflexivity.
  - apply Nat.lt_succ_diag_r.
  - destruct (refine false no_area 4 100 mixed_domain square_state)
      as [[k st']|err] eqn:Hr.
    + exists k, st'. split; [reflexivity|]. split.
      * vm_compute in Hr. inversion Hr. reflexivity.
      * exact (H3 k st' eq_refl).
    + vm_compute in Hr. discriminate Hr.
Defined.

(** C8.  The edges that [create_sub_edges] creates for an edge [e] are
    spliced in front of [e], one for every pair of consecutive points, and
    each of them, the two at the end points of [e] included, carries the
    marker of [e]. *)
Theorem sub_edges_carry_marker (e : Edge) (pts : list Vec2d)
  (pre suf : list Edge) (st st' : State) :
  front_ok (fst st) = true ->
  edges_ (fst st) = pre ++ e :: suf ->
  3 <= length pts ->
  create_sub_edges e pts st = Ok st' ->
  exists news,
    edges_ (fst st') = pre ++ news ++ e :: suf
    /\ length news = length pts - 1
    /\ (forall x, In x news -> marker x = marker e)
    /\ (forall x, In x news -> ~ In x (edges_ (fst st))).
Proof.
  intros Hok Hed Hlen Hc.
  destruct (front_ok_at (fst st) pre suf e Hok Hed) as [Hpre Hid].
  apply front_ok_iff in Hok. destruct Hok as [Hnd Hlt].
  destruct (create_sub_edges_edges e pts pre suf st st' Hed Hpre Hid Hc)
    as (H1 & _).
  eexists. split; [exact H1|]. split; [|split].
  - rewrite sub_edges_length. destruct pts as [|p rest]; [simpl in Hlen; lia|].
    cbn [tl length]. rewrite removelast_firstn_len, length_firstn.
    simpl in Hlen. lia.
  - intros x Hx. eapply sub_edges_marker. eassumption.
  - intros x Hx Hin. apply sub_edges_ids in Hx. apply Hlt in Hin. lia.
Qed.

(** The lower side of the square, with marker 7, and its five sub-edges. *)
Lemma sub_edges_carry_marker_witness :
  front_ok (fst square_state) = true
  /\ edges_ (fst square_state)
     = [] ++ mkEdge 0 0 1 7%Z
          :: [mkEdge 1 1 2 8%Z; mkEdge 2 2 3 9%Z; mkEdge 3 3 0 10%Z]
  /\ 3 <= length lower_side_points
  /\ sub_vertex_placement false 100 fine_domain (snd square_state)
                          (mkEdge 0 0 1 7%Z) = Ok lower_side_points
  /\ exists st',
       create_sub_edges (mkEdge 0 0 1 7%Z) lower_side_points square_state
       = Ok st'
       /\ map marker (edges_ (fst st')) = [7; 7; 7; 7; 7; 7; 8; 9; 10]%Z.
Proof.
  split; [reflexivity|]. split; [reflexivity|].
  split; [repeat constructor|]. split; [vm_compute; reflexivity|].
  destruct (create_sub_edges (mkEdge 0 0 1 7%Z) lower_side_points
              square_state) as [st'|err] eqn:Hc; [|discriminate Hc].
  exists st'. split; [reflexivity|].
  destruct (sub_edges_carry_marker (mkEdge 0 0 1 7%Z) lower_side_points []
              [mkEdge 1 1 2 8%Z; mkEdge 2 2 3 9%Z; mkEdge 3 3 0 10%Z]
              square_state st' eq_refl eq_refl)
    as (news & Hed & Hn & Hm & _).
  - repeat constructor.
  - exact Hc.
  - rewrite Hed.
    destruct news as [|x1 [|x2 [|x3 [|x4 [|x5 [|x6 news]]]]]];
      try discriminate Hn.
    cbn [app map].
    rewrite (Hm x1), (Hm x2), (Hm x3), (Hm x4), (Hm x5);
      cbn [In]; auto 6.
Defined.

(** C9.  On an empty front [set_base_next] and [set_base_first] change
    nothing and raise no error.  On a well-formed front whose base is a live
    edge, [set_base_next] moves the base to the edge that follows it in the
    container and from the last edge to the first, and as many calls as the
    front has edges bring the base back to the edge it started at. *)
Theorem set_base_next_cycles (f : Front) :
  (edges_ f = [] -> set_base_next f = Ok f /\ set_base_first f = f)
  /\ (front_ok f = true ->
      forall pre e e' suf,
        edges_ f = pre ++ e :: e' :: suf -> base_ f = Some (eid e) ->
        set_base_next f = Ok (with_base f (Some (eid e'))))
  /\ (front_ok f = true ->
      forall e0 rest pre e,
        edges_ f = e0 :: rest -> edges_ f = pre ++ [e] ->
        base_ f = Some (eid e) ->
        set_base_next f = Ok (with_base f (Some (eid e0))))
  /\ (front_ok f = true ->
      forall b, base_ f = Some b -> edge f b <> None ->
        set_base_next_iter (length (edges_ f)) f = Ok f).
Proof.
  split; [|split; [|split]].
  - intros He. unfold set_base_next, set_base_first. rewrite He. auto.
  - intros Hok pre e e' suf Hed Hb.
    assert (Hi : nth_error (edges_ f) (length pre) = Some e).
    { rewrite Hed, nth_error_app2, Nat.sub_diag by apply Nat.le_refl.
      reflexivity. }
    destruct (set_base_next_nth f (length pre) e Hok Hi Hb) as (e1 & H1 & Hs).
    rewrite Hs. rewrite Hed in H1. rewrite Nat.mod_small in H1.
    + change (pre ++ e :: e' :: suf) with (pre ++ [e] ++ e' :: suf) in H1.
      rewrite app_assoc in H1.
      rewrite nth_error_app2 in H1 by (rewrite length_app; simpl; lia).
      rewrite length_app in H1. cbn [length] in H1.
      replace (S (length pre) - (length pre + 1)) with 0 in H1 by lia.
      cbn [nth_error] in H1. congruence.
    + rewrite length_app. simpl. lia.
  - intros Hok e0 rest pre e Hed0 Hed Hb.
    assert (Hi : nth_error (edges_ f) (length pre) = Some e).
    { rewrite Hed, nth_error_app2, Nat.sub_diag by apply Nat.le_refl.
      reflexivity. }
    destruct (set_base_next_nth f (length pre) e Hok Hi Hb) as (e1 & H1 & Hs).
    rewrite Hs.
    assert (Hlen : length (edges_ f) = S (length pre)).
    { rewrite Hed, length_app. simpl. lia. }
    rewrite Hlen, Nat.Div0.mod_same, Hed0 in H1. cbn [nth_error] in H1.
    congruence.
  - intros Hok b Hb Hlive.
    destruct (edge f b) as [e|] eqn:He; [|contradiction].
    apply edge_In in He. destruct He as [Hin <-].
    apply In_nth_error in Hin. destruct Hin as [i Hi].
    destruct (set_base_next_iter_nth (length (edges_ f)) f i e Hok Hi Hb)
      as (e' & H' & Hit).
    assert (Hlt : i < length (edges_ f)) by (apply nth_error_Some; congruence).
    replace ((i + length (edges_ f)) mod length (edges_ f)) with i in H'.
    + rewrite Hit. assert (e' = e) by congruence. subst e'.
      rewrite <- Hb, with_base_same. reflexivity.
    + rewrite <- (Nat.mul_1_l (length (edges_ f))) at 1.
      rewrite Nat.Div0.mod_add. symmetry. apply Nat.mod_small. assumption.
Qed.

(** Four calls on the four edges of the square, and the empty front. *)
Lemma set_base_next_cycles_witness :
  front_ok (set_base_first (fst square_state)) = true
  /\ base_ (set_base_first (fst square_state)) = Some 0
  /\ edge (set_base_first (fst square_state)) 0 <> None
  /\ set_base_next (set_base_first (fst square_state))
     = Ok (with_base (fst square_state) (Some 1))
  /\ set_base_next_iter 4 (set_base_first (fst square_state))
     = Ok (set_base_first (fst square_state))
  /\ set_base_next empty_front = Ok empty_front.
Proof.
  destruct (set_base_next_cycles (set_base_first (fst square_state)))
    as (_ & H2 & _ & H4).
  split; [reflexivity|]. split; [reflexivity|]. split; [discriminate|].
  split; [|split].
  - exact (H2 eq_refl [] (mkEdge 0 0 1 7%Z) (mkEdge 1 1 2 8%Z)
              [mkEdge 2 2 3 9%Z; mkEdge 3 3 0 10%Z] eq_refl eq_refl).
  - exact (H4 eq_refl 0 eq_refl ltac:(discriminate)).
  - destruct (set_base_next_cycles empty_front) as (H1 & _).
    exact (proj1 (H1 eq_refl)).
Defined.

(** C10.  When the sizes sampled at the two end points compare equal, the
    direction flag of line 104 is [false]: the points placed on the edge
    are those of the march from [v2] along the negated tangent, with the
    cutoff of the size at [v1], in reverse order. *)
Theorem equal_sizes_march_from_v2 (NDEBUG : bool) (fuel : nat)
  (dom : Domain) (vs : Vertices) (e : Edge) (a b t : Vec2d) (len : double) :
  vertex_xy vs (e_v1 e) = Ok a ->
  vertex_xy vs (e_v2 e) = Ok b ->
  edge_tangent vs e = Ok t ->
  edge_length vs e = Ok len ->
  (size_function dom a =? size_function dom b)%float = true ->
  (size_function dom a <? size_function dom b)%float = false
  /\ (forall pts,
        sub_vertex_placement NDEBUG fuel dom vs e = Ok pts ->
        exists n, marches dom b (Vec2.neg t) len (size_function dom a) n
                  /\ n <= fuel
                  /\ pts = rev (placed dom b a (Vec2.neg t) len n))
  /\ (forall n,
        marches dom b (Vec2.neg t) len (size_function dom a) n ->
        n <= fuel ->
        sub_vertex_placement NDEBUG fuel dom vs e
        = if NDEBUG
             || ascending b 0.0%float
                  (tl (placed dom b a (Vec2.neg t) len n))
          then Ok (rev (placed dom b a (Vec2.neg t) len n))
          else Err AssertFailed).
Proof.
  intros Ha Hb Ht Hl Heq.
  assert (Hdir : (size_function dom a <? size_function dom b)%float = false)
    by (apply eqb_not_ltb; assumption).
  split; [exact Hdir|].
  apply placement_backward_placed; assumption.
Qed.

(** The lower side of the square with a size of 1 at both ends that is not
    symmetric in between: the march from [v2] takes 4 steps, the first of
    them to 7.734375, while the steps from [v1] would begin with 1.140625;
    the points placed are the three that the march from [v2] gives. *)
Lemma equal_sizes_march_from_v2_witness :
  vertex_xy (snd square_state) 0 = Ok (mkVec2d 0%float 0%float)
  /\ vertex_xy (snd square_state) 1 = Ok (mkVec2d 10%float 0%float)
  /\ edge_tangent (snd square_state) (mkEdge 0 0 1 7%Z)
     = Ok (mkVec2d 1%float 0%float)
  /\ edge_length (snd square_state) (mkEdge 0 0 1 7%Z) = Ok 10%float
  /\ (size_function skew_domain (mkVec2d 0%float 0%float)
      =? size_function skew_domain (mkVec2d 10%float 0%float))%float = true
  /\ march_position skew_domain (Vec2.neg (mkVec2d 1%float 0%float))
       (mkVec2d 10%float 0%float) 1 = mkVec2d 7.734375%float 0%float
  /\ march_position skew_domain (mkVec2d 1%float 0%float)
       (mkVec2d 0%float 0%float) 1 = mkVec2d 1.140625%float 0%float
  /\ marches skew_domain (mkVec2d 10%float 0%float)
       (Vec2.neg (mkVec2d 1%float 0%float)) 10%float 1%float 4
  /\ sub_vertex_placement false 100 skew_domain (snd square_state)
       (mkEdge 0 0 1 7%Z)
     = Ok (rev (placed skew_domain (mkVec2d 10%float 0%float)
                  (mkVec2d 0%float 0%float)
                  (Vec2.neg (mkVec2d 1%float 0%float)) 10%float 4)).
Proof.
  split; [reflexivity|]. split; [reflexivity|].
  split; [vm_compute; reflexivity|]. split; [vm_compute; reflexivity|].
  split; [vm_compute; reflexivity|]. split; [vm_compute; reflexivity|].
  split; [vm_compute; reflexivity|].
  assert (Hm : marches skew_domain (mkVec2d 10%float 0%float)
                 (Vec2.neg (mkVec2d 1%float 0%float)) 10%float 1%float 4).
  { split; [repeat constructor|]. split; [|vm_compute; reflexivity].
    intros k Hk.
    assert (Hc : k = 1 \/ k = 2 \/ k = 3) by lia.
    destruct Hc as [-> | [-> | ->]]; vm_compute; reflexivity. }
  split; [exact Hm|].
  destruct (equal_sizes_march_from_v2 false 100 skew_domain
              (snd square_state) (mkEdge 0 0 1 7%Z)
              (mkVec2d 0%float 0%float) (mkVec2d 10%float 0%float)
              (mkVec2d 1%float 0%float) 10%float)
    as (_ & _ & H).
  - reflexivity.
  - reflexivity.
  - vm_compute. reflexivity.
  - vm_compute. reflexivity.
  - vm_compute. reflexivity.
  - rewrite (H 4 Hm ltac:(lia)). vm_compute. reflexivity.
Defined.

(** ** Further properties: what [refine] makes of the edge sequence *)

Lemma unmarked_app (marked : list EdgeId) (a b : list Edge) :
  unmarked marked (a ++ b) = unmarked marked a ++ unmarked marked b.
Proof. unfold unmarked. apply filter_app. Qed.

Lemma unmarked_all (marked : list EdgeId) (l : list Edge) :
  (forall x, In x l -> ~ In (eid x) marked) -> unmarked marked l = l.
Proof.
  intros H. unfold unmarked. induction l as [|x l IH]; [reflexivity|].
  cbn [filter].
  destruct (existsb (Nat.eqb (eid x)) marked) eqn:Hex.
  - apply existsb_exists in Hex. destruct Hex as [i [Hi Heq]].
    apply Nat.eqb_eq in Heq. subst i.
    exfalso. apply (H x); [left; reflexivity|assumption].
  - cbn [negb]. f_equal. apply IH. intros y Hy. apply H. right. assumption.
Qed.

Lemma unmarked_marked (marked : list EdgeId) (e : Edge) :
  In (eid e) marked -> unmarked marked [e] = [].
Proof.
  intros H. unfold unmarked. cbn [filter].
  assert (Hex : existsb (Nat.eqb (eid e)) marked = true).
  { apply existsb_exists. exists (eid e). split; [assumption|].
    apply Nat.eqb_refl. }
  rewrite Hex. reflexivity.
Qed.

(** The loop of lines 124-125 leaves the edges that are not marked, in
    their order. *)
Lemma remove_marked_unmarked (marked : list EdgeId) :
  forall f, edges_ (remove_marked marked f) = unmarked marked (edges_ f).
Proof.
  induction marked as [|i marked IH]; intros f.
  - unfold unmarked. cbn [remove_marked fold_left existsb negb].
    induction (edges_ f) as [|x l IHl]; [reflexivity|].
    cbn [filter]. f_equal. exact IHl.
  - cbn [remove_marked fold_left]. unfold remove_marked in IH. rewrite IH.
    unfold remove_edge, unmarked. cbn [edges_].
    induction (edges_ f) as [|x l IHl]; [reflexivity|].
    cbn [filter existsb]. unfold is_edge at 1.
    destruct (eid x =? i) eqn:Hx; cbn [negb orb filter].
    + exact IHl.
    + destruct (existsb (Nat.eqb (eid x)) marked); cbn [negb];
        [exact IHl|f_equal; exact IHl].
Qed.

Lemma connects_app (l1 l2 : list Edge) :
  forall a b c,
    connects a l1 c -> connects c l2 b -> connects a (l1 ++ l2) b.
Proof.
  induction l1 as [|e l1 IH]; intros a b c H1 H2.
  - simpl in H1. subst c. exact H2.
  - destruct H1 as [He H1]. split; [exact He|]. eapply IH; eassumption.
Qed.

Lemma replaces_older (n n' : EdgeId) (e : Edge) (seg : list Edge) :
  n <= n' -> replaces n' e seg -> replaces n e seg.
Proof.
  intros Hle [H|(H1 & H2 & H3)]; [left; assumption|].
  right. split; [assumption|]. split; [assumption|].
  intros x Hx. destruct (H3 x Hx). split; [assumption|lia].
Qed.

(** One pass of the loop body either leaves the state as it is, or marks
    [e] and puts a chain of two or more new edges, from its [v1] to its
    [v2] and with its marker, in front of it, with one new vertex less than
    new edges. *)
Lemma refine_edge_splice (NDEBUG : bool) (fuel : nat) (dom : Domain)
  (e : Edge) (marked marked' : list EdgeId) (pre suf : list Edge)
  (st st' : State) :
  front_ok (fst st) = true ->
  edges_ (fst st) = pre ++ e :: suf ->
  refine_edge NDEBUG fuel dom e marked st = Ok (marked', st') ->
  (marked' = marked /\ st' = st)
  \/ (marked' = marked ++ [eid e]
      /\ exists news,
           edges_ (fst st') = pre ++ news ++ e :: suf
           /\ replaces (e_next (fst st)) e news
           /\ 2 <= length news
           /\ v_next (snd st') + 1 = v_next (snd st) + length news).
Proof.
  intros Hok Hed Hre. apply refine_edge_inv in Hre.
  destruct Hre as [pts [Hpl [(Hlen & -> & ->)|(Hlen & -> & Hc)]]];
    [left; auto|].
  right. split; [reflexivity|].
  destruct (front_ok_at (fst st) pre suf e Hok Hed) as [Hpre Hid].
  destruct (create_sub_edges_edges e pts pre suf st st' Hed Hpre Hid Hc)
    as (H1 & _ & _ & _ & H5).
  assert (Hk : 1 <= length (removelast (tl pts))).
  { destruct pts as [|p0 rest]; [simpl in Hlen; lia|]. cbn [tl].
    rewrite removelast_firstn_len, length_firstn. simpl in Hlen. lia. }
  eexists. split; [exact H1|].
  assert (Hl : 2 <= length
                      (sub_edges (marker e) (e_next (fst st)) (e_v1 e)
                         (v_next (snd st)) (length (removelast (tl pts)))
                         (e_v2 e))).
  { rewrite sub_edges_length. lia. }
  split; [|split; [exact Hl|]].
  - right. split; [exact Hl|]. split; [apply sub_edges_connects|].
    intros x Hx. split.
    + eapply sub_edges_marker. eassumption.
    + apply sub_edges_ids in Hx. lia.
  - rewrite sub_edges_length, H5. lia.
Qed.

(** A pass over the edges [l] of a front: behind the edges [pre] that come
    first, and once the marked edges are left out, every edge of [l] has
    been replaced in place. *)
Lemma refine_snapshot_segments (NDEBUG : bool) (fuel : nat) (dom : Domain) :
  forall (l pre : list Edge) (marked marked' : list EdgeId) (st st' : State),
    front_ok (fst st) = true ->
    edges_ (fst st) = pre ++ l ->
    (forall i, In i marked -> ~ In i (map eid l) /\ i < e_next (fst st)) ->
    refine_snapshot NDEBUG fuel dom l marked st = Ok (marked', st') ->
    exists rest segs,
      edges_ (fst st') = pre ++ rest
      /\ unmarked marked' rest = concat segs
      /\ Forall2 (replaces (e_next (fst st))) l segs
      /\ v_next (snd st') + length l = v_next (snd st) + length (concat segs).
Proof.
  induction l as [|e l IH]; intros pre marked marked' st st' Hok Hed Hm Hrs.
  - simpl in Hrs. inversion Hrs; subst. exists [], [].
    split; [exact Hed|]. split; [reflexivity|].
    split; [constructor|reflexivity].
  - cbn [refine_snapshot] in Hrs.
    destruct (refine_edge NDEBUG fuel dom e marked st) as [[m1 st1]|err]
      eqn:Hre; [|discriminate].
    cbn [bind] in Hrs.
    destruct (refine_edge_front NDEBUG fuel dom e marked m1 pre l st st1
                Hok Hed Hre)
      as (news & Hed1 & Hok1 & Hnews & _ & _ & Hnx1 & _).
    destruct (front_ok_at (fst st) pre l e Hok Hed) as [Hpre Hid].
    pose proof Hok as Hok0. apply front_ok_iff in Hok0.
    destruct Hok0 as [Hnd Hlt].
    assert (Hel : ~ In (eid e) (map eid l)).
    { rewrite Hed, map_app in Hnd. apply NoDup_app_remove_l in Hnd.
      cbn [map] in Hnd. inversion Hnd. assumption. }
    assert (Hed1' : edges_ (fst st1) = (pre ++ news ++ [e]) ++ l).
    { rewrite Hed1, <- !app_assoc. reflexivity. }
    assert (Hm1 : forall i, In i m1 ->
                    ~ In i (map eid l) /\ i < e_next (fst st1)).
    { intros i Hi. apply refine_edge_inv in Hre.
      destruct Hre as [pts [_ [(_ & -> & _)|(_ & -> & _)]]].
      - destruct (Hm i Hi) as [H1 H2]. split; [|lia].
        intros Hin. apply H1. right. assumption.
      - apply in_app_or in Hi. destruct Hi as [Hi|[<-|[]]].
        + destruct (Hm i Hi) as [H1 H2]. split; [|lia].
          intros Hin. apply H1. right. assumption.
        + split; [assumption|lia]. }
    destruct (IH (pre ++ news ++ [e]) m1 marked' st1 st' Hok1 Hed1' Hm1 Hrs)
      as (rest & segs & Hed' & Hun & Hall & Hv).
    destruct (refine_snapshot_front NDEBUG fuel dom l (pre ++ news ++ [e])
                m1 marked' st1 st' Hok1 Hed1' Hrs)
      as (_ & _ & _ & _ & _ & _ & B7 & B8).
    assert (Hbelow : forall i, In i marked' -> i < e_next (fst st)
                                            /\ (In i m1 \/ In i (map eid l))).
    { intros i Hi. destruct (B8 i Hi) as [H|H].
      - split; [|auto]. apply refine_edge_inv in Hre.
        destruct Hre as [pts [_ [(_ & -> & _)|(_ & -> & _)]]].
        + apply Hm. assumption.
        + apply in_app_or in H. destruct H as [H|[<-|[]]];
            [apply Hm; assumption|assumption].
      - split; [|auto]. apply in_map_iff in H. destruct H as [x [<- Hx]].
        apply Hlt. rewrite Hed. apply in_or_app. right. right. assumption. }
    assert (Hkeep : unmarked marked' news = news).
    { apply unmarked_all. intros x Hx Hin. apply Hnews in Hx.
      apply Hbelow in Hin. lia. }
    exists (news ++ [e] ++ rest).
    destruct (refine_edge_splice NDEBUG fuel dom e marked m1 pre l st st1
                Hok Hed Hre)
      as [(-> & ->)|(-> & news' & Hed2 & Hrep & Hlen2 & Hv2)].
    + (* the edge stays *)
      assert (news = []).
      { rewrite Hed in Hed1. apply app_inv_head in Hed1.
        destruct news as [|x news]; [reflexivity|].
        exfalso. apply (f_equal (@length Edge)) in Hed1.
        rewrite length_app in Hed1. simpl in Hed1. lia. }
      subst news. exists ([e] :: segs).
      split; [rewrite Hed'; rewrite <- !app_assoc; reflexivity|].
      split; [|split].
      * cbn [app concat]. change (e :: rest) with ([e] ++ rest).
        rewrite unmarked_app, Hun.
        rewrite unmarked_all; [reflexivity|].
        intros x [<-|[]] Hin.
        destruct (Hbelow _ Hin) as [_ [H|H]]; [|contradiction].
        apply Hm in H. apply (proj1 H). left. reflexivity.
      * constructor; [left; reflexivity|exact Hall].
      * cbn [concat length app]. lia.
    + (* the edge is marked *)
      assert (news' = news).
      { rewrite Hed1 in Hed2. apply app_inv_head in Hed2.
        symmetry. eapply app_inv_tail. eassumption. }
      subst news'. exists (news :: segs).
      split; [rewrite Hed'; rewrite <- !app_assoc; reflexivity|].
      split; [|split].
      * cbn [concat]. rewrite !unmarked_app, Hkeep, Hun.
        rewrite unmarked_marked; [reflexivity|].
        apply B7. apply in_or_app. right. left. reflexivity.
      * constructor; [exact Hrep|].
        eapply Forall2_impl; [|exact Hall].
        intros a b Hab. eapply replaces_older; [|exact Hab]. exact Hnx1.
      * cbn [concat length]. rewrite length_app. lia.
Qed.

(** [refine] as a whole: the marked edges are those of the pass, and the
    front it returns is what the pass leaves without them. *)
Lemma refine_segments (NDEBUG : bool)
  (compute_area : list Edge -> Vertices -> double) (n fuel : nat)
  (dom : Domain) (st st' : State) (k : Z) :
  front_ok (fst st) = true ->
  length (edges_ (fst st)) <= n ->
  refine NDEBUG compute_area n fuel dom st = Ok (k, st') ->
  exists segs,
    edges_ (fst st') = concat segs
    /\ Forall2 (replaces (e_next (fst st))) (edges_ (fst st)) segs
    /\ v_next (snd st') + length (edges_ (fst st))
       = v_next (snd st) + length (edges_ (fst st')).
Proof.
  intros Hok Hn Href.
  destruct (refine_inv NDEBUG compute_area n fuel dom st st' k Hok Hn Href)
    as (marked & st1 & Hrs & Hed & _ & _ & _ & Hvs & _).
  destruct (refine_snapshot_segments NDEBUG fuel dom (edges_ (fst st)) [] []
              marked st st1 Hok eq_refl ltac:(intros i []) Hrs)
    as (rest & segs & Hed1 & Hun & Hall & Hv).
  exists segs. rewrite Hed, remove_marked_unmarked, Hed1. cbn [app].
  rewrite Hun, Hvs. auto.
Qed.

Lemma replaces_length (n : EdgeId) (l : list Edge) (segs : list (list Edge)) :
  Forall2 (replaces n) l segs ->
  length l <= length (concat segs)
  /\ (length (concat segs) = length l -> concat segs = l).
Proof.
  induction 1 as [|e seg l segs Hrep Hall [IH1 IH2]];
    [split; reflexivity|].
  cbn [concat]. rewrite length_app. cbn [length].
  destruct Hrep as [->|(H2 & _)].
  - cbn [length app]. split; [lia|]. intros H. f_equal. apply IH2. lia.
  - split; [lia|]. intros H. lia.
Qed.

Lemma replaces_connects (n : EdgeId) (l : list Edge)
  (segs : list (list Edge)) :
  Forall2 (replaces n) l segs ->
  forall a b, connects a l b -> connects a (concat segs) b.
Proof.
  induction 1 as [|e seg l segs Hrep Hall IH]; intros a b Hc; [exact Hc|].
  destruct Hc as [He Hc]. cbn [concat].
  apply connects_app with (c := e_v2 e); [|apply IH; exact Hc].
  destruct Hrep as [->|(_ & H & _)].
  - split; [exact He|reflexivity].
  - rewrite <- He. exact H.
Qed.

Lemma to_int_growth (a b : nat) :
  a <= b -> (Z.of_nat b < 2 ^ 31)%Z ->
  to_int (to_size_t (Z.of_nat b - to_size_t (to_int (Z.of_nat a))))
  = (Z.of_nat b - Z.of_nat a)%Z.
Proof.
  intros Hab Hb. unfold to_int, to_size_t.
  assert (Ha : (0 <= Z.of_nat a <= Z.of_nat b)%Z) by lia.
  rewrite (Z.mod_small (Z.of_nat a + 2 ^ 31)) by lia.
  replace (Z.of_nat a + 2 ^ 31 - 2 ^ 31)%Z with (Z.of_nat a) by ring.
  rewrite (Z.mod_small (Z.of_nat a)) by lia.
  rewrite (Z.mod_small (Z.of_nat b - Z.of_nat a)) by lia.
  rewrite Z.mod_small by lia. ring.
Qed.

(** X1.  [refine] replaces every edge of the front in place: the edge
    sequence it returns is the concatenation, in the order of the initial
    edges, of one segment for every initial edge, which is that edge or a
    chain of two or more new edges from its [v1] to its [v2] with its
    marker. *)
Theorem refine_replaces_in_place (NDEBUG : bool)
  (compute_area : list Edge -> Vertices -> double) (n fuel : nat)
  (dom : Domain) (st st' : State) (k : Z) :
  front_ok (fst st) = true ->
  length (edges_ (fst st)) <= n ->
  refine NDEBUG compute_area n fuel dom st = Ok (k, st') ->
  exists segs,
    edges_ (fst st') = concat segs
    /\ Forall2 (replaces (e_next (fst st))) (edges_ (fst st)) segs.
Proof.
  intros Hok Hn Href.
  destruct (refine_segments NDEBUG compute_area n fuel dom st st' k
              Hok Hn Href) as (segs & H1 & H2 & _).
  exists segs. auto.
Qed.

(** With the mixed size function [refine] adds four edges to the square. *)
Lemma refine_replaces_in_place_witness :
  front_ok (fst square_state) = true
  /\ length (edges_ (fst square_state)) <= 4
  /\ exists st' segs,
       refine false no_area 4 100 mixed_domain square_state = Ok (4%Z, st')
       /\ length (edges_ (fst st')) = 8
       /\ edges_ (fst st') = concat segs
       /\ Forall2 (replaces 4) square_loop segs.
Proof.
  split; [reflexivity|]. split; [apply Nat.le_refl|].
  destruct (refine false no_area 4 100 mixed_domain square_state)
    as [[k st']|err] eqn:Hr; [|vm_compute in Hr; discriminate Hr].
  destruct (refine_replaces_in_place false no_area 4 100 mixed_domain
              square_state st' k eq_refl (Nat.le_refl 4) Hr)
    as (segs & Hed & Hall).
  exists st', segs.
  assert (Hk : k = 4%Z /\ length (edges_ (fst st')) = 8).
  { vm_compute in Hr. inversion Hr. split; reflexivity. }
  destruct Hk as [-> Hlen]. auto.
Defined.

(** X2.  [refine] keeps the front connected: if the edges of the front lead
    from a vertex [a] to a vertex [b], each edge starting where the one
    before it ends, so do the edges of the front that [refine] returns; a
    closed loop ([a = b]) stays a closed loop. *)
Theorem refine_keeps_paths (NDEBUG : bool)
  (compute_area : list Edge -> Vertices -> double) (n fuel : nat)
  (dom : Domain) (st st' : State) (k : Z) (a b : VertexId) :
  front_ok (fst st) = true ->
  length (edges_ (fst st)) <= n ->
  refine NDEBUG compute_area n fuel dom st = Ok (k, st') ->
  connects a (edges_ (fst st)) b ->
  connects a (edges_ (fst st')) b.
Proof.
  intros Hok Hn Href Hc.
  destruct (refine_segments NDEBUG compute_area n fuel dom st st' k
              Hok Hn Href) as (segs & H1 & H2 & _).
  rewrite H1. eapply replaces_connects; eassumption.
Qed.

(** The square is a loop from its first corner to its first corner, and
    stays one under [refine] with the fine size function. *)
Lemma refine_keeps_paths_witness :
  front_ok (fst square_state) = true
  /\ length (edges_ (fst square_state)) <= 4
  /\ connects 0 (edges_ (fst square_state)) 0
  /\ exists k st',
       refine false no_area 4 100 fine_domain square_state = Ok (k, st')
       /\ length (edges_ (fst st')) = 20
       /\ connects 0 (edges_ (fst st')) 0.
Proof.
  split; [reflexivity|]. split; [apply Nat.le_refl|].
  split; [repeat split|].
  destruct (refine false no_area 4 100 fine_domain square_state)
    as [[k st']|err] eqn:Hr; [|vm_compute in Hr; discriminate Hr].
  exists k, st'. split; [reflexivity|]. split.
  - vm_compute in Hr. inversion Hr. reflexivity.
  - apply (refine_keeps_paths false no_area 4 100 fine_domain square_state
             st' k 0 0 eq_refl (Nat.le_refl 4) Hr).
    repeat split.
Defined.

(** X3.  [refine] returns the number of edges the front has gained, as long
    as the front has fewer than 2^31 edges: the front never loses edges,
    the value is not negative, and it is 0 exactly when the edge sequence
    is the one [refine] was called with. *)
Theorem refine_returns_growth (NDEBUG : bool)
  (compute_area : list Edge -> Vertices -> double) (n fuel : nat)
  (dom : Domain) (st st' : State) (k : Z) :
  front_ok (fst st) = true ->
  length (edges_ (fst st)) <= n ->
  refine NDEBUG compute_area n fuel dom st = Ok (k, st') ->
  (Z.of_nat (length (edges_ (fst st'))) < 2 ^ 31)%Z ->
  length (edges_ (fst st)) <= length (edges_ (fst st'))
  /\ k = (Z.of_nat (length (edges_ (fst st')))
          - Z.of_nat (length (edges_ (fst st))))%Z
  /\ (0 <= k)%Z
  /\ (k = 0%Z <-> edges_ (fst st') = edges_ (fst st)).
Proof.
  intros Hok Hn Href Hsmall.
  destruct (refine_segments NDEBUG compute_area n fuel dom st st' k
              Hok Hn Href) as (segs & H1 & H2 & _).
  destruct (replaces_length _ _ _ H2) as [Hle Heq]. rewrite <- H1 in Hle, Heq.
  destruct (refine_inv NDEBUG compute_area n fuel dom st st' k Hok Hn Href)
    as (_ & _ & _ & _ & _ & _ & _ & _ & Hk).
  rewrite (to_int_growth _ _ Hle Hsmall) in Hk.
  split; [exact Hle|]. split; [exact Hk|]. split; [lia|].
  split.
  - intros H0. apply Heq. lia.
  - intros Hsame. rewrite Hsame in Hk. lia.
Qed.

Lemma refine_returns_growth_witness :
  front_ok (fst square_state) = true
  /\ length (edges_ (fst square_state)) <= 4
  /\ exists st',
       refine false no_area 4 100 fine_domain square_state = Ok (16%Z, st')
       /\ length (edges_ (fst st')) = 20
       /\ 16%Z = (Z.of_nat (length (edges_ (fst st')))
                  - Z.of_nat (length (edges_ (fst square_state))))%Z.
Proof.
  split; [reflexivity|]. split; [apply Nat.le_refl|].
  destruct (refine false no_area 4 100 fine_domain square_state)
    as [[k st']|err] eqn:Hr; [|vm_compute in Hr; discriminate Hr].
  assert (Hk : k = 16%Z /\ length (edges_ (fst st')) = 20).
  { vm_compute in Hr. inversion Hr. split; reflexivity. }
  destruct Hk as [-> Hlen]. exists st'.
  split; [reflexivity|]. split; [exact Hlen|].
  apply (refine_returns_growth false no_area 4 100 fine_domain square_state
           st' 16%Z eq_refl (Nat.le_refl 4) Hr).
  rewrite Hlen. reflexivity.
Defined.

(** *** The vertices under [refine] *)

Lemma insert_before_length {A : Type} (here : A -> bool) (a : A)
  (l : list A) :
  length (insert_before here a l) = S (length l).
Proof.
  induction l as [|b l IH]; [reflexivity|].
  simpl. destruct (here b); simpl; [reflexivity|]. rewrite IH. reflexivity.
Qed.

Lemma flag_pair_items (a b : VertexId) (vs : Vertices) :
  length (v_items (flag_pair a b vs)) = length (v_items vs)
  /\ v_next (flag_pair a b vs) = v_next vs.
Proof.
  unfold flag_pair, update_vertex. cbn [v_items v_next].
  rewrite !length_map. auto.
Qed.

Lemma sub_edges_loop_items (e : Edge) :
  forall (inner : list Vec2d) (v_cur : VertexId) (f : Front) (vs : Vertices),
    length (v_items (snd (snd (sub_edges_loop e inner v_cur (f, vs)))))
    + v_next vs
    = length (v_items vs)
      + v_next (snd (snd (sub_edges_loop e inner v_cur (f, vs)))).
Proof.
  induction inner as [|p inner IH]; intros v_cur f vs; [reflexivity|].
  rewrite sub_edges_loop_step_flags.
  match goal with
  | |- context [sub_edges_loop e inner ?v (?f1, ?vs1)] =>
      set (vs' := vs1); specialize (IH v f1 vs')
  end.
  assert (H1 : length (v_items vs') = S (length (v_items vs))
               /\ v_next vs' = S (v_next vs)).
  { subst vs'.
    destruct (flag_pair_items v_cur (v_next vs)
                (update_vertex (v_next vs) (set_is_fixed true)
                   (snd (vertices_insert (e_v2 e) p 1.0%float vs))))
      as [Hl Hn].
    rewrite Hl, Hn. unfold update_vertex, vertices_insert.
    cbn [snd v_items v_next].
    rewrite length_map, insert_before_length. auto. }
  destruct H1 as [Hl Hn]. rewrite Hl, Hn in IH. lia.
Qed.

(** The vertex store gains one vertex for every identity handed out. *)
Lemma create_sub_edges_items (e : Edge) (pts : list Vec2d) (st st' : State) :
  create_sub_edges e pts st = Ok st' ->
  length (v_items (snd st')) + v_next (snd st)
  = length (v_items (snd st)) + v_next (snd st').
Proof.
  destruct pts as [|p rest]; [discriminate|].
  rewrite create_sub_edges_unfold. intros H. inversion H. clear H.
  destruct st as [f vs].
  pose proof (sub_edges_loop_items e (removelast rest) (e_v1 e) f vs) as Hl.
  destruct (sub_edges_loop e (removelast rest) (e_v1 e) (f, vs))
    as [v_cur [f1 vs1]].
  rewrite close_chain_store. cbn [snd] in *.
  destruct (flag_pair_items v_cur (e_v2 e) vs1) as [Hi Hn].
  rewrite Hi, Hn. exact Hl.
Qed.

Lemma refine_snapshot_items (NDEBUG : bool) (fuel : nat) (dom : Domain) :
  forall (l : list Edge) (marked marked' : list EdgeId) (st st' : State),
    refine_snapshot NDEBUG fuel dom l marked st = Ok (marked', st') ->
    length (v_items (snd st')) + v_next (snd st)
    = length (v_items (snd st)) + v_next (snd st').
Proof.
  induction l as [|e l IH]; intros marked marked' st st' Hrs.
  - simpl in Hrs. inversion Hrs. reflexivity.
  - cbn [refine_snapshot] in Hrs.
    destruct (refine_edge NDEBUG fuel dom e marked st) as [[m1 st1]|err]
      eqn:Hre; [|discriminate].
    cbn [bind] in Hrs. apply IH in Hrs. apply refine_edge_inv in Hre.
    destruct Hre as [pts [_ [(_ & _ & ->)|(_ & _ & Hc)]]]; [exact Hrs|].
    apply create_sub_edges_items in Hc. lia.
Qed.

(** X4.  [refine] stores exactly as many new vertices as the front gains
    edges. *)
Theorem refine_vertices_match_edges (NDEBUG : bool)
  (compute_area : list Edge -> Vertices -> double) (n fuel : nat)
  (dom : Domain) (st st' : State) (k : Z) :
  front_ok (fst st) = true ->
  length (edges_ (fst st)) <= n ->
  refine NDEBUG compute_area n fuel dom st = Ok (k, st') ->
  length (v_items (snd st')) + length (edges_ (fst st))
  = length (v_items (snd st)) + length (edges_ (fst st')).
Proof.
  intros Hok Hn Href.
  destruct (refine_segments NDEBUG compute_area n fuel dom st st' k
              Hok Hn Href) as (segs & _ & _ & Hv).
  destruct (refine_inv NDEBUG compute_area n fuel dom st st' k Hok Hn Href)
    as (marked & st1 & Hrs & _ & _ & _ & _ & Hvs & _).
  apply refine_snapshot_items in Hrs. rewrite Hvs in *. lia.
Qed.

Lemma refine_vertices_match_edges_witness :
  front_ok (fst square_state) = true
  /\ length (edges_ (fst square_state)) <= 4
  /\ exists k st',
       refine false no_area 4 100 graded_domain square_state = Ok (k, st')
       /\ length (edges_ (fst st')) = 23
       /\ length (v_items (snd st')) = 23.
Proof.
  split; [reflexivity|]. split; [apply Nat.le_refl|].
  destruct (refine false no_area 4 100 graded_domain square_state)
    as [[k st']|err] eqn:Hr; [|vm_compute in Hr; discriminate Hr].
  exists k, st'. split; [reflexivity|].
  assert (Hlen : length (edges_ (fst st')) = 23).
  { vm_compute in Hr. inversion Hr. reflexivity. }
  split; [exact Hlen|].
  pose proof (refine_vertices_match_edges false no_area 4 100 graded_domain
                square_state st' k eq_refl (Nat.le_refl 4) Hr) as H.
  rewrite Hlen in H. cbn in H. lia.
Defined.

Lemma refine_snapshot_new_vertices (NDEBUG : bool) (fuel : nat)
  (dom : Domain) :
  forall (l pre : list Edge) (marked marked' : list EdgeId) (st st' : State),
    front_ok (fst st) = true ->
    vertices_ok (snd st) = true ->
    edges_ (fst st) = pre ++ l ->
    refine_snapshot NDEBUG fuel dom l marked st = Ok (marked', st') ->
    forall i, v_next (snd st) <= i < v_next (snd st') ->
      exists v', vertex (snd st') i = Some v'
                 /\ is_fixed v' = true /\ on_boundary v' = true
                 /\ on_front v' = true.
Proof.
  induction l as [|e l IH];
    intros pre marked marked' st st' Hok Hvok Hed Hrs i Hi.
  - simpl in Hrs. inversion Hrs; subst. lia.
  - cbn [refine_snapshot] in Hrs.
    destruct (refine_edge NDEBUG fuel dom e marked st) as [[m1 st1]|err]
      eqn:Hre; [|discriminate].
    cbn [bind] in Hrs.
    destruct (refine_edge_front NDEBUG fuel dom e marked m1 pre l st st1
                Hok Hed Hre)
      as (news & Hed1 & Hok1 & _).
    destruct (refine_edge_vertices NDEBUG fuel dom e marked m1 st st1 Hvok Hre)
      as (Hvok1 & Hle1).
    assert (Hed1' : edges_ (fst st1) = (pre ++ news ++ [e]) ++ l).
    { rewrite Hed1, <- !app_assoc. reflexivity. }
    specialize (IH (pre ++ news ++ [e]) m1 marked' st1 st' Hok1 Hvok1 Hed1'
                   Hrs i).
    destruct (refine_snapshot_store NDEBUG fuel dom l m1 marked' st1 st'
                Hvok1 Hrs) as (_ & Hle & _).
    destruct (Nat.lt_ge_cases i (v_next (snd st1))) as [Hlt|Hge];
      [|apply IH; lia].
    apply refine_edge_inv in Hre.
    destruct Hre as [pts [_ [(_ & _ & ->)|(_ & _ & Hc)]]]; [lia|].
    destruct (front_ok_at (fst st) pre l e Hok Hed) as [Hpre Hid].
    destruct (create_sub_edges_edges e pts pre l st st1 Hed Hpre Hid Hc)
      as (_ & _ & _ & _ & Hnx).
    destruct (create_sub_edges_vertices e pts st st1 Hvok Hc)
      as (_ & _ & Hnew & _).
    destruct (nth_error (removelast (tl pts)) (i - v_next (snd st)))
      as [p|] eqn:Hn; [|apply nth_error_None in Hn; lia].
    destruct (Hnew _ p Hn) as (v1 & Hv1 & _ & Hfx & Hb & Hf).
    replace (v_next (snd st) + (i - v_next (snd st))) with i in Hv1 by lia.
    destruct (Hle i v1 Hv1) as (v' & Hv' & (_ & _ & _ & Hfx' & Hb' & Hf')).
    exists v'. auto.
Qed.

(** X5.  [refine] removes and moves no vertex: every vertex of the store is
    still there under its identity, with its coordinates and weight, and
    with no flag cleared.  Every vertex that [refine] has created is fixed
    and flagged as on the boundary and on the front. *)
Theorem refine_vertices (NDEBUG : bool)
  (compute_area : list Edge -> Vertices -> double) (n fuel : nat)
  (dom : Domain) (st st' : State) (k : Z) :
  front_ok (fst st) = true ->
  vertices_ok (snd st) = true ->
  length (edges_ (fst st)) <= n ->
  refine NDEBUG compute_area n fuel dom st = Ok (k, st') ->
  (forall i v, vertex (snd st) i = Some v ->
     exists v', vertex (snd st') i = Some v'
                /\ xy v' = xy v /\ weight v' = weight v
                /\ (is_fixed v = true -> is_fixed v' = true)
                /\ (on_boundary v = true -> on_boundary v' = true)
                /\ (on_front v = true -> on_front v' = true))
  /\ (forall i v', v_next (snd st) <= i ->
        vertex (snd st') i = Some v' ->
        is_fixed v' = true /\ on_boundary v' = true /\ on_front v' = true).
Proof.
  intros Hok Hvok Hn Href.
  destruct (refine_inv NDEBUG compute_area n fuel dom st st' k Hok Hn Href)
    as (marked & st1 & Hrs & _ & _ & _ & _ & Hvs & _).
  rewrite Hvs.
  destruct (refine_snapshot_store NDEBUG fuel dom (edges_ (fst st)) []
              marked st st1 Hvok Hrs) as (Hvok1 & Hle & _).
  split.
  - intros i v Hv. destruct (Hle i v Hv) as (v' & Hv' & Hl).
    exists v'. unfold vertex_le in Hl. tauto.
  - intros i v' Hi Hv'.
    pose proof (vertices_ok_below _ _ _ Hvok1 Hv') as Hlt.
    destruct (refine_snapshot_new_vertices NDEBUG fuel dom
                (edges_ (fst st)) [] [] marked st st1 Hok Hvok eq_refl Hrs
                i (conj Hi Hlt)) as (v'' & Hv'' & Hflags).
    assert (v'' = v') by congruence. subst v''. exact Hflags.
Qed.

Lemma refine_vertices_witness :
  front_ok (fst first_edge_created) = true
  /\ vertices_ok (snd first_edge_created) = true
  /\ length (edges_ (fst first_edge_created)) <= 1
  /\ exists k st' v v',
       refine false no_area 1 100 fine_domain first_edge_created
       = Ok (k, st')
       /\ vertex (snd st') 1 = Some v
       /\ xy v = mkVec2d 10%float 0%float
       /\ vertex (snd st') 4 = Some v'
       /\ is_fixed v' = true /\ on_boundary v' = true /\ on_front v' = true.
Proof.
  split; [reflexivity|]. split; [reflexivity|]. split; [apply Nat.le_refl|].
  destruct (refine false no_area 1 100 fine_domain first_edge_created)
    as [[k st']|err] eqn:Hr; [|vm_compute in Hr; discriminate Hr].
  destruct (refine_vertices false no_area 1 100 fine_domain
              first_edge_created st' k eq_refl eq_refl (Nat.le_refl 1) Hr)
    as [Hold Hnew].
  destruct (Hold 1 (corner 1 10%float 0%float) eq_refl)
    as (v & Hv & Hxy & _).
  destruct (vertex (snd st') 4) as [v'|] eqn:Hv';
    [|vm_compute in Hr; inversion Hr; subst st'; discriminate Hv'].
  exists k, st', v, v'. split; [reflexivity|]. split; [exact Hv|].
  split; [exact Hxy|]. split; [exact Hv'|].
  exact (Hnew 4 v' (Nat.le_refl 4) Hv').
Defined.

Lemma map_vid_update (i : VertexId) (g : Vertex -> Vertex) (vs : Vertices) :
  (forall v, vid (g v) = vid v) ->
  map vid (v_items (update_vertex i g vs)) = map vid (v_items vs).
Proof.
  intros Hg. unfold update_vertex. cbn [v_items]. rewrite map_map.
  apply map_ext. intros v. destruct (is_vertex i v); [apply Hg|reflexivity].
Qed.

Lemma map_vid_flag_pair (a b : VertexId) (vs : Vertices) :
  map vid (v_items (flag_pair a b vs)) = map vid (v_items vs).
Proof.
  unfold flag_pair. rewrite !map_vid_update by reflexivity. reflexivity.
Qed.

Lemma NoDup_insert_before (here : Vertex -> bool) (v : Vertex) :
  forall items,
    ~ In (vid v) (map vid items) -> NoDup (map vid items) ->
    NoDup (map vid (insert_before here v items)).
Proof.
  induction items as [|x items IH]; intros Hnew Hnd; cbn [insert_before].
  - cbn [map]. constructor; [intros []|constructor].
  - destruct (here x).
    + cbn [map]. constructor; [exact Hnew|exact Hnd].
    + cbn [map] in *. inversion Hnd as [|? ? Hx Hnd']; subst.
      constructor.
      * intros Hin. apply in_map_iff in Hin.
        destruct Hin as (u & Hu & Hin). apply in_insert_before in Hin.
        destruct Hin as [->|Hin].
        -- apply Hnew. left. symmetry. exact Hu.
        -- apply Hx. rewrite <- Hu. apply in_map. exact Hin.
      * apply IH; [|exact Hnd'].
        intros Hin. apply Hnew. right. exact Hin.
Qed.

Lemma vertices_distinct_insert (pos : VertexId) (p : Vec2d) (w : double)
  (vs : Vertices) :
  vertices_ok vs = true -> vertices_distinct vs = true ->
  vertices_distinct (snd (vertices_insert pos p w vs)) = true.
Proof.
  unfold vertices_distinct. rewrite !distinct_NoDup. intros Hok Hnd.
  unfold vertices_insert. cbn [snd v_items].
  apply NoDup_insert_before; [|exact Hnd].
  cbn [vid]. intros Hin. apply in_map_iff in Hin.
  destruct Hin as (u & Hu & Hin).
  unfold vertices_ok in Hok. rewrite forallb_forall in Hok.
  apply Hok in Hin. apply Nat.ltb_lt in Hin. lia.
Qed.

Lemma sub_edges_loop_distinct (e : Edge) :
  forall (inner : list Vec2d) (v_cur : VertexId) (f : Front) (vs : Vertices),
    vertices_ok vs = true -> vertices_distinct vs = true ->
    vertices_distinct (snd (snd (sub_edges_loop e inner v_cur (f, vs))))
    = true.
Proof.
  induction inner as [|p inner IH]; intros v_cur f vs Hok Hnd;
    [exact Hnd|].
  rewrite sub_edges_loop_step_flags. apply IH.
  - apply flag_pair_ok. apply vertices_ok_update; [reflexivity|].
    apply vertices_ok_insert. exact Hok.
  - unfold vertices_distinct.
    rewrite map_vid_flag_pair, map_vid_update by reflexivity.
    apply vertices_distinct_insert; assumption.
Qed.

Lemma create_sub_edges_distinct (e : Edge) (pts : list Vec2d)
  (st st' : State) :
  vertices_ok (snd st) = true -> vertices_distinct (snd st) = true ->
  create_sub_edges e pts st = Ok st' ->
  vertices_distinct (snd st') = true.
Proof.
  intros Hok Hnd Hc. destruct pts as [|p rest]; [discriminate|].
  rewrite create_sub_edges_unfold in Hc. inversion Hc; subst st'. clear Hc.
  destruct st as [f vs]. cbn [snd] in *.
  pose proof (sub_edges_loop_distinct e (removelast rest) (e_v1 e) f vs Hok
                Hnd) as Hl.
  destruct (sub_edges_loop e (removelast rest) (e_v1 e) (f, vs))
    as [v_cur [f1 vs1]].
  rewrite close_chain_store. cbn [snd] in *.
  unfold vertices_distinct in *. rewrite map_vid_flag_pair. exact Hl.
Qed.

Lemma refine_snapshot_distinct (NDEBUG : bool) (fuel : nat) (dom : Domain) :
  forall (l : list Edge) (marked marked' : list EdgeId) (st st' : State),
    vertices_ok (snd st) = true -> vertices_distinct (snd st) = true ->
    refine_snapshot NDEBUG fuel dom l marked st = Ok (marked', st') ->
    vertices_distinct (snd st') = true.
Proof.
  induction l as [|e l IH]; intros marked marked' st st' Hok Hnd Hrs.
  - simpl in Hrs. inversion Hrs; subst. exact Hnd.
  - cbn [refine_snapshot] in Hrs.
    destruct (refine_edge NDEBUG fuel dom e marked st) as [[m1 st1]|err]
      eqn:Hre; [|discriminate].
    cbn [bind] in Hrs.
    destruct (refine_edge_vertices NDEBUG fuel dom e marked m1 st st1 Hok
                Hre) as [Hok1 _].
    apply (IH m1 marked' st1 st' Hok1); [|exact Hrs].
    apply refine_edge_inv in Hre.
    destruct Hre as [pts [_ [(_ & _ & ->)|(_ & _ & Hc)]]]; [exact Hnd|].
    exact (create_sub_edges_distinct e pts st st1 Hok Hnd Hc).
Qed.

(** X6.  [refine] keeps the containers well formed: the edges of the front
    it returns are pairwise distinct objects older than the next edge, and
    the vertices of the store are pairwise distinct objects older than the
    next vertex. *)
Theorem refine_keeps_well_formed (NDEBUG : bool)
  (compute_area : list Edge -> Vertices -> double) (n fuel : nat)
  (dom : Domain) (st st' : State) (k : Z) :
  front_ok (fst st) = true ->
  vertices_ok (snd st) = true ->
  vertices_distinct (snd st) = true ->
  length (edges_ (fst st)) <= n ->
  refine NDEBUG compute_area n fuel dom st = Ok (k, st') ->
  front_ok (fst st') = true
  /\ vertices_ok (snd st') = true
  /\ vertices_distinct (snd st') = true.
Proof.
  intros Hok Hvok Hvd Hn Href.
  destruct (refine_inv NDEBUG compute_area n fuel dom st st' k Hok Hn Href)
    as (marked & st1 & Hrs & Hed & Hnx & _ & _ & Hvs & _).
  destruct (refine_snapshot_store NDEBUG fuel dom (edges_ (fst st)) []
              marked st st1 Hvok Hrs) as (Hvok1 & _).
  destruct (refine_snapshot_front NDEBUG fuel dom (edges_ (fst st)) [] []
              marked st st1 Hok eq_refl Hrs) as (Hok1 & _).
  pose proof (refine_snapshot_distinct NDEBUG fuel dom (edges_ (fst st)) []
                marked st st1 Hvok Hvd Hrs) as Hvd1.
  split; [|rewrite Hvs; auto].
  pose proof (remove_marked_ok marked (fst st1) Hok1) as Hok'.
  destruct (remove_marked_fields marked (fst st1)) as (F1 & _).
  unfold front_ok in *. rewrite Hed, Hnx, <- F1. exact Hok'.
Qed.

Lemma refine_keeps_well_formed_witness :
  front_ok (fst square_state) = true
  /\ vertices_ok (snd square_state) = true
  /\ vertices_distinct (snd square_state) = true
  /\ length (edges_ (fst square_state)) <= 4
  /\ exists k st',
       refine false no_area 4 100 graded_domain square_state = Ok (k, st')
       /\ front_ok (fst st') = true /\ vertices_ok (snd st') = true
       /\ vertices_distinct (snd st') = true
       /\ length (v_items (snd st')) = 23.
Proof.
  split; [reflexivity|]. split; [reflexivity|]. split; [reflexivity|].
  split; [apply Nat.le_refl|].
  destruct (refine false no_area 4 100 graded_domain square_state)
    as [[k st']|err] eqn:Hr; [|vm_compute in Hr; discriminate Hr].
  exists k, st'. split; [reflexivity|].
  destruct (refine_keeps_well_formed false no_area 4 100 graded_domain
              square_state st' k eq_refl eq_refl eq_refl (Nat.le_refl 4) Hr)
    as (H1 & H2 & H3).
  split; [exact H1|]. split; [exact H2|]. split; [exact H3|].
  vm_compute in Hr. inversion Hr. reflexivity.
Defined.

(** *** The vertices that [refine] does not write *)

Lemma vertex_update_other (i j : VertexId) (g : Vertex -> Vertex)
  (vs : Vertices) :
  (forall v, vid (g v) = vid v) -> i <> j ->
  vertex (update_vertex i g vs) j = vertex vs j.
Proof.
  intros Hg Hij. rewrite vertex_update by assumption.
  destruct (vertex vs j) as [v|] eqn:Hv; [|reflexivity].
  cbn [option_map]. pose proof (vertex_is_vertex vs j v Hv) as H.
  unfold is_vertex in *. apply Nat.eqb_eq in H.
  destruct (vid v =? i) eqn:Hi; [|reflexivity].
  apply Nat.eqb_eq in Hi. congruence.
Qed.

(** A setter that leaves a field alone leaves it alone at every vertex. *)
Lemma vertex_update_field {A : Type} (p : Vertex -> A) (i j : VertexId)
  (g : Vertex -> Vertex) (vs : Vertices) :
  (forall v, vid (g v) = vid v) -> (forall v, p (g v) = p v) ->
  option_map p (vertex (update_vertex i g vs) j) = option_map p (vertex vs j).
Proof.
  intros Hg Hp. rewrite vertex_update by assumption.
  destruct (vertex vs j) as [v|]; [|reflexivity].
  cbn [option_map]. destruct (is_vertex i v); [rewrite Hp|]; reflexivity.
Qed.

Lemma flag_pair_other (a b j : VertexId) (vs : Vertices) :
  j <> a -> j <> b -> vertex (flag_pair a b vs) j = vertex vs j.
Proof.
  intros Ha Hb. unfold flag_pair.
  rewrite !vertex_update_other by (first [reflexivity|congruence]).
  reflexivity.
Qed.

Lemma flag_pair_fixed (a b j : VertexId) (vs : Vertices) :
  option_map is_fixed (vertex (flag_pair a b vs) j)
  = option_map is_fixed (vertex vs j).
Proof.
  unfold flag_pair.
  rewrite !(vertex_update_field is_fixed) by reflexivity. reflexivity.
Qed.

Lemma sub_edges_loop_frame (e : Edge) :
  forall (inner : list Vec2d) (v_cur : VertexId) (f : Front) (vs : Vertices)
         (j : VertexId),
    j < v_next vs ->
    v_next vs <= v_next (snd (snd (sub_edges_loop e inner v_cur (f, vs))))
    /\ option_map is_fixed
         (vertex (snd (snd (sub_edges_loop e inner v_cur (f, vs)))) j)
       = option_map is_fixed (vertex vs j)
    /\ (j <> v_cur -> j <> e_v2 e ->
        vertex (snd (snd (sub_edges_loop e inner v_cur (f, vs)))) j
        = vertex vs j
        /\ j <> fst (sub_edges_loop e inner v_cur (f, vs))).
Proof.
  induction inner as [|p inner IH]; intros v_cur f vs j Hj.
  - cbn [sub_edges_loop fst snd]. split; [apply Nat.le_refl|].
    split; [reflexivity|]. intros H1 H2. split; [reflexivity|exact H1].
  - rewrite sub_edges_loop_step_flags.
    match goal with
    | |- context [sub_edges_loop e inner (v_next vs) (?f1, ?vs1)] =>
        set (f' := f1); set (vs' := vs1)
    end.
    assert (Hn : v_next vs' = S (v_next vs)) by reflexivity.
    assert (Hne : v_next vs <> j) by lia.
    assert (Hfix : option_map is_fixed (vertex vs' j)
                   = option_map is_fixed (vertex vs j)).
    { subst vs'. rewrite flag_pair_fixed.
      rewrite vertex_update_other by (first [reflexivity|exact Hne]).
      rewrite vertex_insert_old by lia. reflexivity. }
    assert (Hj' : j < v_next vs') by lia.
    destruct (IH (v_next vs) f' vs' j Hj') as (I1 & I2 & I3).
    split; [lia|]. split; [rewrite I2; exact Hfix|].
    intros H1 H2. destruct (I3 ltac:(lia) H2) as [I4 I5].
    split; [|exact I5]. rewrite I4. subst vs'.
    rewrite flag_pair_other by lia.
    rewrite vertex_update_other by (first [reflexivity|exact Hne]).
    apply vertex_insert_old. lia.
Qed.

Lemma create_sub_edges_frame (e : Edge) (pts : list Vec2d) (st st' : State)
  (j : VertexId) :
  create_sub_edges e pts st = Ok st' ->
  j < v_next (snd st) ->
  v_next (snd st) <= v_next (snd st')
  /\ option_map is_fixed (vertex (snd st') j)
     = option_map is_fixed (vertex (snd st) j)
  /\ (j <> e_v1 e -> j <> e_v2 e -> vertex (snd st') j = vertex (snd st) j).
Proof.
  intros Hc Hj. destruct pts as [|p rest]; [discriminate|].
  rewrite create_sub_edges_unfold in Hc. inversion Hc; subst st'. clear Hc.
  destruct st as [f vs]. cbn [snd] in *.
  destruct (sub_edges_loop_frame e (removelast rest) (e_v1 e) f vs j Hj)
    as (I1 & I2 & I3).
  destruct (sub_edges_loop e (removelast rest) (e_v1 e) (f, vs))
    as [v_cur [f1 vs1]].
  rewrite close_chain_store. cbn [fst snd] in *.
  split; [exact I1|]. split; [rewrite flag_pair_fixed; exact I2|].
  intros H1 H2. destruct (I3 H1 H2) as [I4 I5].
  rewrite flag_pair_other by assumption. exact I4.
Qed.

Lemma refine_snapshot_frame (NDEBUG : bool) (fuel : nat) (dom : Domain)
  (j : VertexId) :
  forall (l : list Edge) (marked marked' : list EdgeId) (st st' : State),
    refine_snapshot NDEBUG fuel dom l marked st = Ok (marked', st') ->
    j < v_next (snd st) ->
    v_next (snd st) <= v_next (snd st')
    /\ option_map is_fixed (vertex (snd st') j)
       = option_map is_fixed (vertex (snd st) j)
    /\ ((forall e, In e l -> e_v1 e <> j /\ e_v2 e <> j) ->
        vertex (snd st') j = vertex (snd st) j).
Proof.
  induction l as [|e l IH]; intros marked marked' st st' Hrs Hj.
  - simpl in Hrs. inversion Hrs; subst. split; [apply Nat.le_refl|].
    split; reflexivity.
  - cbn [refine_snapshot] in Hrs.
    destruct (refine_edge NDEBUG fuel dom e marked st) as [[m1 st1]|err]
      eqn:Hre; [|discriminate].
    cbn [bind] in Hrs.
    assert (Hstep : v_next (snd st) <= v_next (snd st1)
                    /\ option_map is_fixed (vertex (snd st1) j)
                       = option_map is_fixed (vertex (snd st) j)
                    /\ (e_v1 e <> j -> e_v2 e <> j ->
                        vertex (snd st1) j = vertex (snd st) j)).
    { apply refine_edge_inv in Hre.
      destruct Hre as [pts [_ [(_ & _ & ->)|(_ & _ & Hc)]]].
      - split; [apply Nat.le_refl|]. split; reflexivity.
      - destruct (create_sub_edges_frame e pts st st1 j Hc Hj)
          as (C1 & C2 & C3).
        split; [exact C1|]. split; [exact C2|].
        intros H1 H2. apply C3; congruence. }
    destruct Hstep as (S1 & S2 & S3).
    destruct (IH m1 marked' st1 st' Hrs ltac:(lia)) as (I1 & I2 & I3).
    split; [lia|]. split; [rewrite I2; exact S2|].
    intros Hl. rewrite I3.
    + destruct (Hl e (or_introl eq_refl)) as [H1 H2]. apply S3; assumption.
    + intros x Hx. apply Hl. right. exact Hx.
Qed.

(** X7.  [refine] fixes no vertex but those it creates, and it writes no
    vertex that is not an end point of an edge of the front: a vertex of
    the store keeps its [is_fixed], and if no edge of the front starts or
    ends at it, it is left as it was. *)
Theorem refine_frame (NDEBUG : bool)
  (compute_area : list Edge -> Vertices -> double) (n fuel : nat)
  (dom : Domain) (st st' : State) (k : Z) :
  front_ok (fst st) = true ->
  vertices_ok (snd st) = true ->
  length (edges_ (fst st)) <= n ->
  refine NDEBUG compute_area n fuel dom st = Ok (k, st') ->
  forall j v, vertex (snd st) j = Some v ->
    exists v', vertex (snd st') j = Some v'
               /\ is_fixed v' = is_fixed v
               /\ ((forall e, In e (edges_ (fst st)) ->
                      e_v1 e <> j /\ e_v2 e <> j) -> v' = v).
Proof.
  intros Hok Hvok Hn Href j v Hv.
  destruct (refine_inv NDEBUG compute_area n fuel dom st st' k Hok Hn Href)
    as (marked & st1 & Hrs & _ & _ & _ & _ & Hvs & _).
  rewrite Hvs.
  pose proof (vertices_ok_below _ _ _ Hvok Hv) as Hj.
  destruct (refine_snapshot_frame NDEBUG fuel dom j (edges_ (fst st)) []
              marked st st1 Hrs Hj) as (_ & Hfix & Hsame).
  rewrite Hv in Hfix, Hsame.
  destruct (vertex (snd st1) j) as [v'|]; [|discriminate].
  exists v'. split; [reflexivity|]. cbn [option_map] in Hfix.
  split; [congruence|]. intros Hl. specialize (Hsame Hl). congruence.
Qed.

Lemma refine_frame_witness :
  front_ok (fst first_edge_created) = true
  /\ vertices_ok (snd first_edge_created) = true
  /\ length (edges_ (fst first_edge_created)) <= 1
  /\ exists k st' v,
       refine false no_area 1 100 fine_domain first_edge_created
       = Ok (k, st')
       /\ k = 4%Z
       /\ vertex (snd st') 0 = Some v /\ is_fixed v = false
       /\ vertex (snd st') 2 = Some (corner 2 10%float 10%float).
Proof.
  split; [reflexivity|]. split; [reflexivity|]. split; [apply Nat.le_refl|].
  destruct (refine false no_area 1 100 fine_domain first_edge_created)
    as [[k st']|err] eqn:Hr; [|vm_compute in Hr; discriminate Hr].
  pose proof (refine_frame false no_area 1 100 fine_domain
                first_edge_created st' k eq_refl eq_refl (Nat.le_refl 1) Hr)
    as H.
  destruct (H 0 (corner 0 0%float 0%float) eq_refl) as (v & Hv & Hfix & _).
  destruct (H 2 (corner 2 10%float 10%float) eq_refl) as (u & Hu & _ & Hsame).
  exists k, st', v. split; [reflexivity|].
  split; [vm_compute in Hr; inversion Hr; reflexivity|].
  split; [exact Hv|]. split; [exact Hfix|].
  rewrite Hu. f_equal. apply Hsame.
  intros e [<-|[]]. split; discriminate.
Defined.

(** ** Further properties: the constructor *)

Lemma fold_boundaries_concat (bs : list (list Edge)) :
  forall st,
    fold_left (fun st boundary => fold_left add_boundary_edge boundary st)
              bs st
    = fold_left add_boundary_edge (concat bs) st.
Proof.
  induction bs as [|b bs IH]; intros st; [reflexivity|].
  cbn [fold_left concat]. rewrite fold_left_app. apply IH.
Qed.

Lemma add_boundary_edge_eq (f : Front) (vs : Vertices) (e : Edge) :
  add_boundary_edge (f, vs) e
  = (mkFront (edges_ f ++ [mkEdge (e_next f) (e_v1 e) (e_v2 e) (marker e)])
             (S (e_next f)) (area_ f) (base_ f),
     flag_pair (e_v1 e) (e_v2 e)
       (update_vertex (e_v1 e) (set_is_fixed true) vs)).
Proof. reflexivity. Qed.

Lemma add_boundary_edges_front (l : list Edge) :
  forall st,
    fst (fold_left add_boundary_edge l st)
    = mkFront (edges_ (fst st) ++ renumber (e_next (fst st)) l)
              (e_next (fst st) + length l) (area_ (fst st))
              (base_ (fst st)).
Proof.
  induction l as [|e l IH]; intros [f vs].
  - cbn [fold_left fst renumber length]. rewrite app_nil_r, Nat.add_0_r.
    destruct f; reflexivity.
  - cbn [fold_left]. rewrite add_boundary_edge_eq, IH.
    cbn [fst edges_ e_next area_ base_ renumber length].
    rewrite <- app_assoc, Nat.add_succ_r. reflexivity.
Qed.

Lemma renumber_ids (l : list Edge) :
  forall n, map eid (renumber n l) = seq n (length l).
Proof.
  induction l as [|e l IH]; intros n; [reflexivity|].
  cbn [renumber map length seq eid]. rewrite IH. reflexivity.
Qed.

Lemma renumber_length (l : list Edge) :
  forall n, length (renumber n l) = length l.
Proof.
  intros n. rewrite <- (length_map eid), renumber_ids. apply length_seq.
Qed.

Lemma renumber_In (l : list Edge) :
  forall n x, In x (renumber n l) ->
    exists e, In e l /\ e_v1 x = e_v1 e /\ e_v2 x = e_v2 e
              /\ marker x = marker e.
Proof.
  induction l as [|e l IH]; intros n x Hx; [destruct Hx|].
  destruct Hx as [<-|Hx].
  - exists e. cbn. auto.
  - destruct (IH _ _ Hx) as (e' & He' & H). exists e'. split; [right|]; auto.
Qed.

Lemma boundary_front_fst (dom : Domain) (vs : Vertices) :
  fst (boundary_front dom vs)
  = mkFront (renumber 0 (concat (boundaries dom)))
            (length (concat (boundaries dom))) 0.0%float None.
Proof.
  unfold boundary_front. rewrite fold_boundaries_concat.
  apply add_boundary_edges_front.
Qed.

Lemma boundary_front_ok (dom : Domain) (vs : Vertices) :
  front_ok (fst (boundary_front dom vs)) = true.
Proof.
  rewrite boundary_front_fst. apply front_ok_iff. cbn [edges_ e_next].
  split.
  - rewrite renumber_ids. apply seq_NoDup.
  - intros x Hx. apply (in_map eid) in Hx. rewrite renumber_ids in Hx.
    apply in_seq in Hx. lia.
Qed.

(** The vertex store while the boundary edges are added. *)
Lemma add_boundary_edges_store (l : list Edge) :
  forall st,
    v_next (snd (fold_left add_boundary_edge l st)) = v_next (snd st)
    /\ (vertices_ok (snd st) = true ->
        vertices_ok (snd (fold_left add_boundary_edge l st)) = true)
    /\ store_le (snd st) (snd (fold_left add_boundary_edge l st)).
Proof.
  induction l as [|e l IH]; intros [f vs].
  - cbn [fold_left snd]. split; [reflexivity|]. split; [auto|].
    apply store_le_refl.
  - cbn [fold_left]. rewrite add_boundary_edge_eq.
    match goal with
    | |- context [fold_left add_boundary_edge l ?s] =>
        destruct (IH s) as (I1 & I2 & I3)
    end.
    cbn [snd] in *. split; [rewrite I1; reflexivity|]. split.
    + intros Hok. apply I2. apply flag_pair_ok.
      apply vertices_ok_update; [reflexivity|exact Hok].
    + eapply store_le_trans; [|exact I3].
      eapply store_le_trans; [|apply flag_pair_le].
      apply store_le_update. apply set_is_fixed_le.
Qed.

Lemma add_boundary_edges_flags (l : list Edge) :
  forall st e j v,
    In e l -> vertex (snd st) j = Some v ->
    exists v',
      vertex (snd (fold_left add_boundary_edge l st)) j = Some v'
      /\ (e_v1 e = j -> is_fixed v' = true)
      /\ (e_v1 e = j \/ e_v2 e = j ->
          on_boundary v' = true /\ on_front v' = true).
Proof.
  induction l as [|e0 l IH]; intros [f vs] e j v Hin Hv; [destruct Hin|].
  cbn [fold_left]. rewrite add_boundary_edge_eq. cbn [snd] in Hv.
  set (vs1 := flag_pair (e_v1 e0) (e_v2 e0)
                (update_vertex (e_v1 e0) (set_is_fixed true) vs)).
  set (f1 := mkFront _ _ _ _).
  assert (Hle : store_le vs vs1).
  { eapply store_le_trans; [|apply flag_pair_le].
    apply store_le_update. apply set_is_fixed_le. }
  destruct (Hle j v Hv) as (v1 & Hv1 & _).
  destruct Hin as [->|Hin]; [|exact (IH (f1, vs1) e j v1 Hin Hv1)].
  destruct (add_boundary_edges_store l (f1, vs1)) as (_ & _ & Hle2).
  cbn [snd] in Hle2.
  assert (Hfix : e_v1 e = j -> is_fixed v1 = true).
  { intros <-. subst vs1.
    pose proof (vertex_update_same (e_v1 e) (set_is_fixed true) vs v
                  ltac:(reflexivity) Hv) as Hu.
    destruct (flag_pair_le (e_v1 e) (e_v2 e) _ _ _ Hu)
      as (v2 & Hv2 & (_ & _ & _ & Hf & _)).
    rewrite Hv1 in Hv2. inversion Hv2; subst v2. apply Hf. reflexivity. }
  assert (Hfl : e_v1 e = j \/ e_v2 e = j ->
                on_boundary v1 = true /\ on_front v1 = true).
  { intros Hj. subst vs1.
    destruct (store_le_update (e_v1 e) (set_is_fixed true) vs
                set_is_fixed_le j v Hv) as (u & Hu & _).
    destruct (flag_pair_flags (e_v1 e) (e_v2 e) j _ u
                ltac:(destruct Hj; auto) Hu) as (v2 & Hv2 & _ & Hb & Hf).
    rewrite Hv1 in Hv2. inversion Hv2; subst v2. auto. }
  destruct (Hle2 j v1 Hv1) as (v' & Hv' & (_ & _ & _ & L1 & L2 & L3)).
  exists v'. split; [exact Hv'|]. split.
  - intros H. apply L1, Hfix, H.
  - intros H. destruct (Hfl H). auto.
Qed.

Lemma add_boundary_edges_frame (l : list Edge) (j : VertexId) :
  forall st,
    ((forall e, In e l -> e_v1 e <> j) ->
     option_map is_fixed (vertex (snd (fold_left add_boundary_edge l st)) j)
     = option_map is_fixed (vertex (snd st) j))
    /\ ((forall e, In e l -> e_v1 e <> j /\ e_v2 e <> j) ->
        vertex (snd (fold_left add_boundary_edge l st)) j
        = vertex (snd st) j).
Proof.
  induction l as [|e l IH]; intros [f vs].
  - cbn [fold_left snd]. split; reflexivity.
  - cbn [fold_left]. rewrite add_boundary_edge_eq.
    match goal with
    | |- context [fold_left add_boundary_edge l ?s] =>
        destruct (IH s) as (I1 & I2)
    end.
    cbn [snd] in *. split.
    + intros Hl. rewrite I1 by (intros x Hx; apply Hl; right; exact Hx).
      rewrite flag_pair_fixed.
      rewrite vertex_update_other;
        [reflexivity|reflexivity|apply Hl; left; reflexivity].
    + intros Hl. rewrite I2 by (intros x Hx; apply Hl; right; exact Hx).
      destruct (Hl e (or_introl eq_refl)) as [H1 H2].
      rewrite flag_pair_other by congruence.
      apply vertex_update_other; [reflexivity|exact H1].
Qed.

Lemma Front_new_inv (NDEBUG : bool)
  (compute_area : list Edge -> Vertices -> double)
  (check_orientation : list Edge -> Vertices -> bool) (n fuel : nat)
  (dom : Domain) (vs : Vertices) (st' : State) :
  Front_new NDEBUG compute_area check_orientation n fuel dom vs = Ok st' ->
  check_orientation (edges_ (fst (boundary_front dom vs)))
                    (snd (boundary_front dom vs)) = true
  /\ exists k,
       refine NDEBUG compute_area n fuel dom (boundary_front dom vs)
       = Ok (k, st').
Proof.
  unfold Front_new. cbv zeta.
  change (fold_left
            (fun st boundary => fold_left add_boundary_edge boundary st)
            (boundaries dom) (empty_front, vs))
    with (boundary_front dom vs).
  destruct (check_orientation (edges_ (fst (boundary_front dom vs)))
              (snd (boundary_front dom vs))); [|discriminate].
  destruct (refine NDEBUG compute_area n fuel dom (boundary_front dom vs))
    as [[k st1]|err]; cbn [bind]; [|discriminate].
  intros H. inversion H; subst st1. split; [reflexivity|].
  exists k. reflexivity.
Qed.

(** The vertex store under a call of [refine]. *)
Lemma refine_store (NDEBUG : bool)
  (compute_area : list Edge -> Vertices -> double) (n fuel : nat)
  (dom : Domain) (st st' : State) (k : Z) :
  front_ok (fst st) = true ->
  vertices_ok (snd st) = true ->
  length (edges_ (fst st)) <= n ->
  refine NDEBUG compute_area n fuel dom st = Ok (k, st') ->
  store_le (snd st) (snd st')
  /\ forall j, j < v_next (snd st) ->
       option_map is_fixed (vertex (snd st') j)
       = option_map is_fixed (vertex (snd st) j)
       /\ ((forall e, In e (edges_ (fst st)) -> e_v1 e <> j /\ e_v2 e <> j) ->
           vertex (snd st') j = vertex (snd st) j).
Proof.
  intros Hok Hvok Hn Href.
  destruct (refine_inv NDEBUG compute_area n fuel dom st st' k Hok Hn Href)
    as (marked & st1 & Hrs & _ & _ & _ & _ & Hvs & _).
  rewrite Hvs.
  destruct (refine_snapshot_store NDEBUG fuel dom (edges_ (fst st)) []
              marked st st1 Hvok Hrs) as (_ & Hle & _).
  split; [exact Hle|]. intros j Hj.
  destruct (refine_snapshot_frame NDEBUG fuel dom j (edges_ (fst st)) []
              marked st st1 Hrs Hj) as (_ & Hfix & Hsame).
  split; assumption.
Qed.

(** X8.  The front that the constructor returns is made of the edges of
    the boundaries of the domain, boundary after boundary and edge after
    edge: every boundary edge is there as an edge of the same end points
    and marker, or as a chain of two or more edges between its end points
    with its marker.  The orientation is checked on the edges as they are
    in front of the refinement. *)
Theorem constructor_edges (NDEBUG : bool)
  (compute_area : list Edge -> Vertices -> double)
  (check_orientation : list Edge -> Vertices -> bool) (n fuel : nat)
  (dom : Domain) (vs : Vertices) (st' : State) :
  length (concat (boundaries dom)) <= n ->
  Front_new NDEBUG compute_area check_orientation n fuel dom vs = Ok st' ->
  check_orientation (renumber 0 (concat (boundaries dom)))
                    (snd (boundary_front dom vs)) = true
  /\ exists segs,
       edges_ (fst st') = concat segs
       /\ Forall2 (replaces (length (concat (boundaries dom))))
                  (renumber 0 (concat (boundaries dom))) segs.
Proof.
  intros Hn Hnew. apply Front_new_inv in Hnew.
  destruct Hnew as [Hchk [k Href]].
  pose proof (boundary_front_fst dom vs) as Hf.
  rewrite Hf in Hchk. cbn [edges_] in Hchk. split; [exact Hchk|].
  assert (Hlen : length (edges_ (fst (boundary_front dom vs))) <= n).
  { rewrite Hf. cbn [edges_]. rewrite renumber_length. exact Hn. }
  destruct (refine_segments NDEBUG compute_area n fuel dom
              (boundary_front dom vs) st' k (boundary_front_ok dom vs)
              Hlen Href) as (segs & Hed & Hall & _).
  exists segs. rewrite Hf in Hall. cbn [edges_ e_next] in Hall. auto.
Qed.

Lemma constructor_edges_witness :
  length (concat (boundaries mixed_domain)) <= 4
  /\ exists st' segs,
       Front_new false no_area any_orientation 4 100 mixed_domain
                 square_vertices = Ok st'
       /\ edges_ (fst st') = concat segs
       /\ Forall2 (replaces 4) square_loop segs
       /\ length (edges_ (fst st')) = 8.
Proof.
  split; [apply Nat.le_refl|].
  destruct (Front_new false no_area any_orientation 4 100 mixed_domain
              square_vertices) as [st'|err] eqn:Hn;
    [|vm_compute in Hn; discriminate Hn].
  destruct (constructor_edges false no_area any_orientation 4 100
              mixed_domain square_vertices st' (Nat.le_refl 4) Hn)
    as (_ & segs & Hed & Hall).
  exists st', segs. split; [reflexivity|]. split; [exact Hed|].
  split; [exact Hall|].
  vm_compute in Hn. inversion Hn. reflexivity.
Defined.

(** X9.  What the constructor does to a vertex of the store.  The vertex
    stays where it is; it is fixed if it is the [v1] of a boundary edge,
    and keeps its [is_fixed] if it is not; it is flagged as on the
    boundary and on the front if it is an end point of a boundary edge,
    and is left as it was if it is not. *)
Theorem constructor_vertices (NDEBUG : bool)
  (compute_area : list Edge -> Vertices -> double)
  (check_orientation : list Edge -> Vertices -> bool) (n fuel : nat)
  (dom : Domain) (vs : Vertices) (st' : State) :
  vertices_ok vs = true ->
  length (concat (boundaries dom)) <= n ->
  Front_new NDEBUG compute_area check_orientation n fuel dom vs = Ok st' ->
  forall j v, vertex vs j = Some v ->
    exists v',
      vertex (snd st') j = Some v'
      /\ xy v' = xy v /\ weight v' = weight v
      /\ (forall e, In e (concat (boundaries dom)) -> e_v1 e = j ->
            is_fixed v' = true)
      /\ (forall e, In e (concat (boundaries dom)) ->
            e_v1 e = j \/ e_v2 e = j ->
            on_boundary v' = true /\ on_front v' = true)
      /\ ((forall e, In e (concat (boundaries dom)) -> e_v1 e <> j) ->
          is_fixed v' = is_fixed v)
      /\ ((forall e, In e (concat (boundaries dom)) ->
             e_v1 e <> j /\ e_v2 e <> j) -> v' = v).
Proof.
  intros Hvok Hn Hnew j v Hv. apply Front_new_inv in Hnew.
  destruct Hnew as [_ [k Href]].
  pose proof (boundary_front_fst dom vs) as Hf.
  assert (Hlen : length (edges_ (fst (boundary_front dom vs))) <= n).
  { rewrite Hf. cbn [edges_]. rewrite renumber_length. exact Hn. }
  assert (Hbf : boundary_front dom vs
                = fold_left add_boundary_edge (concat (boundaries dom))
                            (empty_front, vs)).
  { unfold boundary_front. apply fold_boundaries_concat. }
  destruct (add_boundary_edges_store (concat (boundaries dom))
              (empty_front, vs)) as (Hnx & Hvok1 & Hle1).
  destruct (add_boundary_edges_frame (concat (boundaries dom)) j
              (empty_front, vs)) as (Hfix1 & Hsame1).
  pose proof (add_boundary_edges_flags (concat (boundaries dom))
                (empty_front, vs)) as Hflags.
  rewrite <- Hbf in Hnx, Hvok1, Hle1, Hfix1, Hsame1, Hflags.
  cbn [snd] in Hnx, Hvok1, Hle1, Hfix1, Hsame1, Hflags.
  specialize (Hvok1 Hvok).
  destruct (refine_store NDEBUG compute_area n fuel dom
              (boundary_front dom vs) st' k (boundary_front_ok dom vs)
              Hvok1 Hlen Href) as (Hle2 & Hframe).
  pose proof (vertices_ok_below vs j v Hvok Hv) as Hj.
  destruct (Hframe j ltac:(lia)) as (Hfix2 & Hsame2).
  destruct (Hle1 j v Hv) as (v1 & Hv1 & (_ & X1 & W1 & _)).
  destruct (Hle2 j v1 Hv1) as (v' & Hv' & (_ & X2 & W2 & F2 & B2 & O2)).
  rewrite Hv', Hv1 in Hfix2. cbn [option_map] in Hfix2.
  rewrite Hv', Hv1 in Hsame2. rewrite Hv1, Hv in Hfix1, Hsame1.
  cbn [option_map] in Hfix1.
  exists v'. split; [exact Hv'|]. split; [congruence|].
  split; [congruence|]. split; [|split; [|split]].
  - intros e He H1. destruct (Hflags e j v He Hv) as (u & Hu & Fu & _).
    rewrite Hv1 in Hu. inversion Hu; subst u. apply F2, Fu, H1.
  - intros e He H1. destruct (Hflags e j v He Hv) as (u & Hu & _ & Fu).
    rewrite Hv1 in Hu. inversion Hu; subst u. destruct (Fu H1). auto.
  - intros Hl. specialize (Hfix1 Hl). congruence.
  - intros Hl. specialize (Hsame1 Hl).
    assert (Hl' : forall e, In e (edges_ (fst (boundary_front dom vs))) ->
                            e_v1 e <> j /\ e_v2 e <> j).
    { intros x Hx. rewrite Hf in Hx. cbn [edges_] in Hx.
      apply renumber_In in Hx. destruct Hx as (e & He & -> & -> & _).
      apply Hl, He. }
    specialize (Hsame2 Hl'). congruence.
Qed.

Lemma constructor_vertices_witness :
  vertices_ok square_vertices = true
  /\ length (concat (boundaries open_domain)) <= 1
  /\ exists st' v0 v1,
       Front_new false no_area any_orientation 1 100 open_domain
                 square_vertices = Ok st'
       /\ vertex (snd st') 0 = Some v0 /\ is_fixed v0 = true
       /\ vertex (snd st') 1 = Some v1 /\ is_fixed v1 = false
       /\ on_boundary v1 = true /\ on_front v1 = true
       /\ vertex (snd st') 2 = Some (corner 2 10%float 10%float).
Proof.
  split; [reflexivity|]. split; [apply Nat.le_refl|].
  destruct (Front_new false no_area any_orientation 1 100 open_domain
              square_vertices) as [st'|err] eqn:Hn;
    [|vm_compute in Hn; discriminate Hn].
  pose proof (constructor_vertices false no_area any_orientation 1 100
                open_domain square_vertices st' eq_refl (Nat.le_refl 1) Hn)
    as H.
  destruct (H 0 (corner 0 0%float 0%float) eq_refl)
    as (v0 & Hv0 & _ & _ & F0 & _).
  destruct (H 1 (corner 1 10%float 0%float) eq_refl)
    as (v1 & Hv1 & _ & _ & _ & B1 & F1 & _).
  destruct (H 2 (corner 2 10%float 10%float) eq_refl)
    as (v2 & Hv2 & _ & _ & _ & _ & _ & S2).
  exists st', v0, v1. split; [reflexivity|]. split; [exact Hv0|].
  split; [apply (F0 (mkEdge 0 0 1 7%Z)); [left|]; reflexivity|].
  split; [exact Hv1|].
  split; [rewrite F1; [reflexivity|intros e [<-|[]]; discriminate]|].
  destruct (B1 (mkEdge 0 0 1 7%Z) (or_introl eq_refl) (or_intror eq_refl))
    as [Hb Hf].
  split; [exact Hb|]. split; [exact Hf|].
  rewrite Hv2. f_equal. apply S2. intros e [<-|[]]. split; discriminate.
Defined.

(** ** Further properties: the base reference *)

Lemma Front_new_base (NDEBUG : bool)
  (compute_area : list Edge -> Vertices -> double)
  (check_orientation : list Edge -> Vertices -> bool) (n fuel : nat)
  (dom : Domain) (vs : Vertices) (st : State) :
  Front_new NDEBUG compute_area check_orientation n fuel dom vs = Ok st ->
  base_ (fst st) = None.
Proof.
  intros Hnew. apply Front_new_inv in Hnew. destruct Hnew as [_ [k Href]].
  apply refine_base in Href. rewrite Href, boundary_front_fst. reflexivity.
Qed.

Lemma replaces_head (n : EdgeId) (e : Edge) (seg : list Edge) :
  replaces n e seg ->
  exists x tail, seg = x :: tail /\ e_v1 x = e_v1 e /\ marker x = marker e.
Proof.
  intros [->|(Hlen & Hc & Hm)].
  - exists e, []. auto.
  - destruct seg as [|x tail]; [cbn in Hlen; lia|].
    exists x, tail. split; [reflexivity|]. destruct Hc as [Hc _].
    split; [exact Hc|]. apply Hm. left. reflexivity.
Qed.

(** X10.  The setter and the getter of the base are inverse to each other
    on the edges of a front: once the base has been set to an edge of the
    front, the getter returns this edge, and the edges of the front are as
    they were. *)
Theorem base_round_trip (f : Front) (b : Edge) :
  front_ok f = true -> In b (edges_ f) ->
  base (set_base b f) = Ok b
  /\ edges_ (set_base b f) = edges_ f
  /\ base_live (set_base b f).
Proof.
  intros Hok Hin. pose proof (edge_of_In f b Hok Hin) as He.
  assert (Hb : edge (set_base b f) (eid b) = Some b) by exact He.
  split; [|split; [reflexivity|]].
  - unfold base. cbn [set_base base_ of_option bind]. rewrite Hb. reflexivity.
  - unfold base_live. cbn [set_base base_]. rewrite Hb. discriminate.
Qed.

Lemma base_round_trip_witness :
  front_ok (fst square_state) = true
  /\ In (mkEdge 2 2 3 9%Z) (edges_ (fst square_state))
  /\ base (set_base (mkEdge 2 2 3 9%Z) (fst square_state))
     = Ok (mkEdge 2 2 3 9%Z).
Proof.
  split; [reflexivity|].
  assert (Hin : In (mkEdge 2 2 3 9%Z) (edges_ (fst square_state))).
  { right. right. left. reflexivity. }
  split; [exact Hin|].
  exact (proj1 (base_round_trip (fst square_state) (mkEdge 2 2 3 9%Z)
                  eq_refl Hin)).
Defined.

(** X11.  A front that the constructor has built from a domain with a
    boundary edge has edges and no base: the getter and [set_base_next]
    dereference a null pointer on it.  After [set_base_first] the getter
    returns an edge that starts at the [v1] of the first boundary edge
    and carries its marker. *)
Theorem base_after_construction (NDEBUG : bool)
  (compute_area : list Edge -> Vertices -> double)
  (check_orientation : list Edge -> Vertices -> bool) (n fuel : nat)
  (dom : Domain) (vs : Vertices) (st : State) (e0 : Edge)
  (rest : list Edge) :
  concat (boundaries dom) = e0 :: rest ->
  length (concat (boundaries dom)) <= n ->
  Front_new NDEBUG compute_area check_orientation n fuel dom vs = Ok st ->
  base (fst st) = Err Undefined
  /\ set_base_next (fst st) = Err Undefined
  /\ exists e, base (set_base_first (fst st)) = Ok e
               /\ e_v1 e = e_v1 e0 /\ marker e = marker e0.
Proof.
  intros Hb Hn Hnew.
  pose proof (Front_new_base _ _ _ _ _ _ _ _ Hnew) as Hnull.
  apply Front_new_inv in Hnew. destruct Hnew as [_ [k Href]].
  pose proof (boundary_front_fst dom vs) as Hf.
  assert (Hlen : length (edges_ (fst (boundary_front dom vs))) <= n).
  { rewrite Hf. cbn [edges_]. rewrite renumber_length. exact Hn. }
  destruct (refine_segments NDEBUG compute_area n fuel dom
              (boundary_front dom vs) st k (boundary_front_ok dom vs)
              Hlen Href) as (segs & Hed & Hall & _).
  rewrite Hf in Hall. cbn [edges_ e_next] in Hall.
  rewrite Hb in Hall. cbn [renumber] in Hall.
  inversion Hall as [|a seg l segs' Hrep Hall' E1 E2]; subst.
  apply replaces_head in Hrep.
  destruct Hrep as (x & tail & -> & Hv1 & Hm). cbn [e_v1 marker] in Hv1, Hm.
  cbn [concat app] in Hed.
  assert (Hbase : base (fst st) = Err Undefined).
  { unfold base. rewrite Hnull. reflexivity. }
  split; [exact Hbase|]. split.
  - unfold set_base_next. rewrite Hed, Hbase. reflexivity.
  - exists x. split; [|split; assumption].
    unfold set_base_first, base, begin_, edge. rewrite Hed.
    cbn [length Nat.ltb Nat.leb base_ edges_ of_option bind find].
    rewrite is_edge_refl. reflexivity.
Qed.

Lemma base_after_construction_witness :
  concat (boundaries fine_domain) = mkEdge 0 0 1 7%Z :: tl square_loop
  /\ length (concat (boundaries fine_domain)) <= 4
  /\ exists st e,
       Front_new false no_area any_orientation 4 100 fine_domain
                 square_vertices = Ok st
       /\ set_base_next (fst st) = Err Undefined
       /\ base (set_base_first (fst st)) = Ok e
       /\ e_v1 e = 0 /\ marker e = 7%Z.
Proof.
  split; [reflexivity|]. split; [apply Nat.le_refl|].
  destruct (Front_new false no_area any_orientation 4 100 fine_domain
              square_vertices) as [st|err] eqn:Hn;
    [|vm_compute in Hn; discriminate Hn].
  destruct (base_after_construction false no_area any_orientation 4 100
              fine_domain square_vertices st (mkEdge 0 0 1 7%Z)
              (tl square_loop) eq_refl (Nat.le_refl 4) Hn)
    as (_ & Hnext & e & He & Hv & Hm).
  exists st, e. split; [reflexivity|]. split; [exact Hnext|].
  split; [exact He|]. split; [exact Hv|exact Hm].
Defined.

(** ** Further properties: [sort_edges] *)

Lemma edge_lengths_keys (vs : Vertices) :
  forall (l : list Edge) (keyed : list (double * Edge)),
    edge_lengths vs l = Ok keyed ->
    map snd keyed = l
    /\ forall p, In p keyed -> edge_length vs (snd p) = Ok (fst p).
Proof.
  induction l as [|e l IH]; intros keyed H.
  - inversion H. split; [reflexivity|]. intros p [].
  - cbn [edge_lengths] in H.
    destruct (edge_length vs e) as [len|err] eqn:He; [|discriminate].
    cbn [bind] in H.
    destruct (edge_lengths vs l) as [rest|err]; [|discriminate].
    cbn [bind] in H. inversion H; subst keyed.
    destruct (IH rest eq_refl) as [I1 I2]. cbn [map snd]. rewrite I1.
    split; [reflexivity|]. intros p [<-|Hp]; [exact He|apply I2, Hp].
Qed.

Lemma set_base_first_fields (f : Front) :
  edges_ (set_base_first f) = edges_ f
  /\ e_next (set_base_first f) = e_next f
  /\ area_ (set_base_first f) = area_ f.
Proof.
  unfold set_base_first. destruct (length (edges_ f) <? 1); auto.
Qed.

Lemma set_base_first_live (f : Front) :
  edges_ f <> [] ->
  base_ (set_base_first f) = begin_ f /\ base_live (set_base_first f).
Proof.
  intros Hne. unfold set_base_first, base_live, begin_, edge.
  destruct (edges_ f) as [|e0 rest] eqn:Hed; [contradiction|].
  cbn [length Nat.ltb Nat.leb base_ edges_ find].
  rewrite is_edge_refl. split; [reflexivity|discriminate].
Qed.

Lemma front_ok_permutation (f f' : Front) :
  Permutation (edges_ f) (edges_ f') -> e_next f' = e_next f ->
  front_ok f = true -> front_ok f' = true.
Proof.
  intros Hp Hn Hok. apply front_ok_iff in Hok. destruct Hok as [Hnd Hlt].
  apply front_ok_iff. split.
  - eapply Permutation_NoDup; [|exact Hnd]. apply Permutation_map, Hp.
  - intros x Hx. rewrite Hn. apply Hlt.
    eapply Permutation_in; [apply Permutation_sym, Hp|exact Hx].
Qed.

Lemma Sorted_adjacent {A : Type} (R : A -> A -> Prop) (a b : A) :
  forall pre suf, Sorted R (pre ++ a :: b :: suf) -> R a b.
Proof.
  induction pre as [|x pre IH]; intros suf H.
  - apply Sorted_inv in H. destruct H as [_ H]. apply HdRel_inv in H.
    exact H.
  - apply Sorted_inv in H. destruct H as [H _]. exact (IH suf H).
Qed.

Lemma insert_stable_perm {A : Type} (lt : A -> A -> bool) (a : A) :
  forall l, Permutation (a :: l) (insert_stable lt a l).
Proof.
  induction l as [|b l IH]; cbn [insert_stable]; [apply Permutation_refl|].
  destruct (lt b a); [|apply Permutation_refl].
  eapply Permutation_trans; [apply perm_swap|]. apply perm_skip, IH.
Qed.

Lemma sort_stable_perm {A : Type} (lt : A -> A -> bool) :
  forall l, Permutation l (sort_stable lt l).
Proof.
  induction l as [|a l IH]; cbn [sort_stable]; [apply perm_nil|].
  eapply Permutation_trans; [apply perm_skip, IH|apply insert_stable_perm].
Qed.

Lemma insert_stable_sorted {A : Type} (lt : A -> A -> bool) (a : A) :
  (forall x y, lt x y = true -> lt y x = false) ->
  forall l, Sorted (fun x y => lt y x = false) l ->
            Sorted (fun x y => lt y x = false) (insert_stable lt a l).
Proof.
  intros Hasym. induction l as [|b l IH]; intros Hs; cbn [insert_stable].
  - constructor; constructor.
  - destruct (lt b a) eqn:Hba.
    + apply Sorted_inv in Hs. destruct Hs as [Hs Hhd].
      constructor; [apply IH, Hs|].
      destruct l as [|c l]; cbn [insert_stable].
      * constructor. apply Hasym, Hba.
      * destruct (lt c a); constructor.
        -- apply HdRel_inv in Hhd. exact Hhd.
        -- apply Hasym, Hba.
    + constructor; [exact Hs|]. constructor. exact Hba.
Qed.

Lemma sort_stable_sorted {A : Type} (lt : A -> A -> bool) :
  (forall x y, lt x y = true -> lt y x = false) ->
  forall l, Sorted (fun x y => lt y x = false) (sort_stable lt l).
Proof.
  intros Hasym. induction l as [|a l IH]; cbn [sort_stable].
  - constructor.
  - apply insert_stable_sorted; assumption.
Qed.

(** X12.  [sort_edges] with a library sort that returns its input in
    another order, with no element in front of an element that compares
    less than it.  The front keeps its edges: only their order changes,
    by which no edge follows a longer one (or a shorter one if the order is
    descending).  The base is the first edge of the new order, so it
    designates a live edge whatever it was before; an empty front is left
    as it is. *)
Theorem sort_edges_orders
  (list_sort : (double * Edge -> double * Edge -> bool) ->
               list (double * Edge) -> list (double * Edge))
  (ascending : bool) (st : State) (f' : Front) :
  (forall lt l, Permutation l (list_sort lt l)) ->
  (forall lt l, (forall x y, lt x y = true -> lt y x = false) ->
                Sorted (fun x y => lt y x = false) (list_sort lt l)) ->
  front_ok (fst st) = true ->
  sort_edges list_sort ascending st = Ok f' ->
  Permutation (edges_ (fst st)) (edges_ f')
  /\ front_ok f' = true
  /\ (edges_ (fst st) = [] -> f' = fst st)
  /\ (edges_ (fst st) <> [] -> base_ f' = begin_ f' /\ base_live f')
  /\ (forall pre a b suf, edges_ f' = pre ++ a :: b :: suf ->
        exists la lb,
          edge_length (snd st) a = Ok la /\ edge_length (snd st) b = Ok lb
          /\ (if ascending then lb <? la else la <? lb)%float = false).
Proof.
  intros Hperm Hsorted Hok. unfold sort_edges.
  destruct (edge_lengths (snd st) (edges_ (fst st))) as [keyed|err] eqn:Hk;
    cbn [bind]; [|discriminate].
  destruct (edge_lengths_keys _ _ _ Hk) as [Hsnd Hlen].
  set (compare := if ascending
                  then fun a b : double * Edge => (fst a <? fst b)%float
                  else fun a b : double * Edge => (fst b <? fst a)%float).
  set (out := list_sort compare keyed).
  set (F := mkFront (map snd out) (e_next (fst st)) (area_ (fst st))
                    (base_ (fst st))).
  intros H. inversion H; subst f'. clear H.
  destruct (set_base_first_fields F) as (E1 & E2 & E3).
  assert (Hp : Permutation (edges_ (fst st)) (edges_ F)).
  { subst F. cbn [edges_]. rewrite <- Hsnd. apply Permutation_map.
    apply Hperm. }
  split; [rewrite E1; exact Hp|]. split.
  { apply front_ok_permutation with (f := fst st); [|rewrite E2|exact Hok].
    - rewrite E1. exact Hp.
    - reflexivity. }
  split.
  { intros Hnil. rewrite Hnil in Hp. apply Permutation_nil in Hp.
    unfold set_base_first. rewrite Hp. cbn [length Nat.ltb Nat.leb].
    subst F. cbn [edges_] in Hp. rewrite Hp.
    destruct (fst st) as [ed nx ar ba]. cbn in Hnil |- *. rewrite Hnil.
    reflexivity. }
  split.
  { intros Hne.
    assert (HF : edges_ F <> []).
    { intros HF. rewrite HF in Hp. apply Permutation_sym in Hp.
      apply Permutation_nil in Hp. contradiction. }
    destruct (set_base_first_live F HF) as [B1 B2].
    split; [|exact B2]. rewrite B1. unfold begin_. rewrite E1. reflexivity. }
  intros pre a b suf Hed. rewrite E1 in Hed. subst F. cbn [edges_] in Hed.
  apply map_eq_app in Hed. destruct Hed as (pre' & l2 & Hout & _ & Hl2).
  apply map_eq_cons in Hl2. destruct Hl2 as (pa & l3 & -> & Ha & Hl3).
  apply map_eq_cons in Hl3. destruct Hl3 as (pb & suf' & -> & Hb & _).
  assert (Hin : forall p, In p out -> In p keyed).
  { intros p Hp'. eapply Permutation_in; [|exact Hp'].
    apply Permutation_sym, Hperm. }
  assert (Hasym : forall x y, compare x y = true -> compare y x = false).
  { intros x y. subst compare. destruct ascending; apply ltb_asym. }
  pose proof (Hsorted compare keyed Hasym) as Hs. fold out in Hs.
  rewrite Hout in Hs. apply Sorted_adjacent in Hs.
  exists (fst pa), (fst pb). rewrite <- Ha, <- Hb.
  split; [apply Hlen, Hin; rewrite Hout; apply in_or_app; right; left;
          reflexivity|].
  split; [apply Hlen, Hin; rewrite Hout; apply in_or_app; right; right; left;
          reflexivity|].
  subst compare. destruct ascending; exact Hs.
Qed.

Lemma sort_edges_orders_witness :
  front_ok (fst line_state) = true
  /\ exists f',
       sort_edges (@sort_stable (double * Edge)) true line_state = Ok f'
       /\ map eid (edges_ f') = [1; 2; 0]
       /\ base_ f' = Some 1
       /\ base_live f'.
Proof.
  split; [reflexivity|].
  destruct (sort_edges (@sort_stable (double * Edge)) true line_state)
    as [f'|err] eqn:Hs; [|vm_compute in Hs; discriminate Hs].
  destruct (sort_edges_orders (@sort_stable (double * Edge)) true line_state
              f' (@sort_stable_perm (double * Edge))
              (fun lt l H => @sort_stable_sorted (double * Edge) lt H l)
              eq_refl Hs)
    as (_ & _ & _ & Hb & _).
  exists f'. split; [reflexivity|].
  destruct (Hb ltac:(discriminate)) as [Hb1 Hb2].
  split; [vm_compute in Hs; inversion Hs; reflexivity|].
  split; [|exact Hb2].
  rewrite Hb1. vm_compute in Hs. inversion Hs. reflexivity.
Defined.

(** ** Further properties: inputs on which the marching does not end *)

Lemma is_nan_SF (x : double) :
  PrimFloat.is_nan x = true <-> Prim2SF x = S754_nan.
Proof.
  unfold PrimFloat.is_nan. rewrite eqb_spec. unfold SFeqb.
  destruct (Prim2SF x) as [s|s| |s m e]; cbn [SFcompare negb].
  - split; discriminate.
  - destruct s; split; discriminate.
  - split; reflexivity.
  - destruct s; rewrite Z.compare_refl, Pos.compare_cont_refl;
      split; discriminate.
Qed.

Lemma nan_add_l (x y : double) :
  Prim2SF x = S754_nan -> Prim2SF (x + y)%float = S754_nan.
Proof. intros H. rewrite add_spec, H. reflexivity. Qed.

Lemma nan_add_r (x y : double) :
  Prim2SF y = S754_nan -> Prim2SF (x + y)%float = S754_nan.
Proof. intros H. rewrite add_spec, H. destruct (Prim2SF x); reflexivity. Qed.

Lemma nan_sub_l (x y : double) :
  Prim2SF x = S754_nan -> Prim2SF (x - y)%float = S754_nan.
Proof. intros H. rewrite sub_spec, H. reflexivity. Qed.

Lemma nan_mul_l (x y : double) :
  Prim2SF x = S754_nan -> Prim2SF (x * y)%float = S754_nan.
Proof. intros H. rewrite mul_spec, H. reflexivity. Qed.

Lemma nan_mul_r (x y : double) :
  Prim2SF y = S754_nan -> Prim2SF (x * y)%float = S754_nan.
Proof. intros H. rewrite mul_spec, H. destruct (Prim2SF x); reflexivity. Qed.

Lemma nan_div_l (x y : double) :
  Prim2SF x = S754_nan -> Prim2SF (x / y)%float = S754_nan.
Proof. intros H. rewrite div_spec, H. reflexivity. Qed.

Lemma nan_div_r (x y : double) :
  Prim2SF y = S754_nan -> Prim2SF (x / y)%float = S754_nan.
Proof. intros H. rewrite div_spec, H. destruct (Prim2SF x); reflexivity. Qed.

Lemma nan_sub_r (x y : double) :
  Prim2SF y = S754_nan -> Prim2SF (x - y)%float = S754_nan.
Proof. intros H. rewrite sub_spec, H. destruct (Prim2SF x); reflexivity. Qed.

Lemma nan_sqrt (x : double) :
  Prim2SF x = S754_nan -> Prim2SF (PrimFloat.sqrt x) = S754_nan.
Proof. intros H. rewrite sqrt_spec, H. reflexivity. Qed.

Lemma nan_opp (x : double) :
  Prim2SF x = S754_nan -> Prim2SF (- x)%float = S754_nan.
Proof. intros H. rewrite opp_spec, H. reflexivity. Qed.

Lemma nan_ltb_l (x y : double) :
  Prim2SF x = S754_nan -> (x <? y)%float = false.
Proof. intros H. rewrite ltb_spec, H. reflexivity. Qed.

Lemma nan_ltb_r (x y : double) :
  Prim2SF y = S754_nan -> (x <? y)%float = false.
Proof.
  intros H. rewrite ltb_spec, H. unfold SFltb.
  destruct (Prim2SF x); reflexivity.
Qed.

(** The length of a vector with a component that is not a number is not a
    number. *)
Lemma nan_length (a : Vec2d) :
  Prim2SF (vec_x a) = S754_nan \/ Prim2SF (vec_y a) = S754_nan ->
  Prim2SF (Vec2.length a) = S754_nan.
Proof.
  intros H. unfold Vec2.length. apply nan_sqrt. destruct H as [H|H].
  - apply nan_add_l, nan_mul_l, H.
  - apply nan_add_r, nan_mul_l, H.
Qed.

Lemma sub_self (x : double) : zero_or_nan (x - x)%float.
Proof.
  unfold zero_or_nan. rewrite sub_spec.
  destruct (Prim2SF x) as [s|s| |s m e].
  - left. destruct s; eexists; reflexivity.
  - right. destruct s; reflexivity.
  - right. reflexivity.
  - left. unfold SF64sub, SFsub. cbv zeta. rewrite Z.sub_diag.
    eexists. reflexivity.
Qed.

Lemma zero_or_nan_square_sum (x y : double) :
  zero_or_nan x -> zero_or_nan y -> zero_or_nan (x * x + y * y)%float.
Proof.
  unfold zero_or_nan. intros [[s Hx]|Hx] [[t Hy]|Hy].
  - left. rewrite add_spec, !mul_spec, Hx, Hy.
    destruct s, t; eexists; reflexivity.
  - right. apply nan_add_r, nan_mul_l, Hy.
  - right. apply nan_add_l, nan_mul_l, Hx.
  - right. apply nan_add_l, nan_mul_l, Hx.
Qed.

Lemma zero_or_nan_sqrt (x : double) :
  zero_or_nan x -> zero_or_nan (PrimFloat.sqrt x).
Proof.
  unfold zero_or_nan. intros [[s Hx]|Hx].
  - left. rewrite sqrt_spec, Hx. exists s. reflexivity.
  - right. apply nan_sqrt, Hx.
Qed.

Lemma zero_or_nan_div (x y : double) :
  zero_or_nan x -> zero_or_nan y -> Prim2SF (x / y)%float = S754_nan.
Proof.
  unfold zero_or_nan. intros [[s Hx]|Hx] [[t Hy]|Hy].
  - rewrite div_spec, Hx, Hy. reflexivity.
  - apply nan_div_r, Hy.
  - apply nan_div_l, Hx.
  - apply nan_div_l, Hx.
Qed.

(** The tangent of an edge whose end points have the same coordinates. *)
Lemma degenerate_tangent (a : Vec2d) :
  Prim2SF (vec_x (Vec2.divide (Vec2.sub a a) (Vec2.length (Vec2.sub a a))))
  = S754_nan.
Proof.
  unfold Vec2.divide, Vec2.sub, Vec2.length. cbn [vec_x vec_y].
  apply zero_or_nan_div; [apply sub_self|].
  apply zero_or_nan_sqrt, zero_or_nan_square_sum; apply sub_self.
Qed.

(** The loop of lines 230-250 does not end if the abscissa [s] can only be
    not a number, or if it is compared to an [s_end] that is not a number. *)
Lemma march_nan (dom : Domain) (xy_a tang : Vec2d) (len s_end : double) :
  forall (fuel : nat) (xy : Vec2d),
    Prim2SF s_end = S754_nan \/ Prim2SF len = S754_nan
    \/ Prim2SF (vec_x tang) = S754_nan
    \/ Prim2SF (vec_x xy) = S754_nan
    \/ Prim2SF (size_function dom xy) = S754_nan ->
    march fuel dom xy_a tang len s_end xy = Err OutOfFuel.
Proof.
  induction fuel as [|fuel IH]; intros xy H; [reflexivity|].
  cbn [march].
  set (rho := size_function dom xy).
  set (rho_p := size_function dom (Vec2.add xy (Vec2.scale rho tang))).
  set (xy_c := Vec2.add xy (Vec2.scale (0.5 * (rho + rho_p))%float tang)).
  assert (Hc : Prim2SF s_end = S754_nan \/ Prim2SF len = S754_nan
               \/ Prim2SF (vec_x xy_c) = S754_nan).
  { destruct H as [H|[H|[H|[H|H]]]]; auto; right; right; subst xy_c;
      unfold Vec2.add, Vec2.scale; cbn [vec_x vec_y].
    - apply nan_add_r, nan_mul_r, H.
    - apply nan_add_l, H.
    - apply nan_add_r, nan_mul_l, nan_mul_r, nan_add_l, H. }
  assert (Hs : (s_end <? Vec2.length (Vec2.sub xy_c xy_a) / len)%float
               = false).
  { destruct Hc as [Hc|[Hc|Hc]].
    - apply nan_ltb_l, Hc.
    - apply nan_ltb_r, nan_div_r, Hc.
    - apply nan_ltb_r, nan_div_l, nan_length. left.
      unfold Vec2.sub. cbn [vec_x]. apply nan_sub_l, Hc. }
  rewrite Hs. rewrite IH; [reflexivity|].
  destruct Hc as [Hc|[Hc|Hc]]; auto.
Qed.

Lemma placement_of_nan (NDEBUG : bool) (fuel : nat) (dom : Domain)
  (a b : Vec2d) :
  a = b \/ PrimFloat.is_nan (size_function dom a) = true
  \/ PrimFloat.is_nan (size_function dom b) = true ->
  placement_of NDEBUG fuel dom a b = Err OutOfFuel.
Proof.
  intros H. unfold placement_of, march_points, march_tangent.
  match goal with
  | |- bind (bind (march fuel dom ?xa ?tg ?ln ?se ?xy) _) _ = _ =>
      assert (Hm : march fuel dom xa tg ln se xy = Err OutOfFuel)
  end.
  { apply march_nan. destruct H as [->|[H|H]].
    - right. right. left.
      destruct (size_function dom b <? size_function dom b)%float.
      + apply degenerate_tangent.
      + unfold Vec2.neg. cbn [vec_x]. apply nan_opp, degenerate_tangent.
    - apply is_nan_SF in H. left.
      rewrite (nan_ltb_l _ _ H).
      apply nan_sub_r, nan_div_l, nan_mul_r, H.
    - apply is_nan_SF in H. right. right. right. right.
      rewrite (nan_ltb_r _ _ H). exact H. }
  rewrite Hm. reflexivity.
Qed.

(** X13.  The marching loop has no bound of its own, and there are edges
    on which it does not end, whatever the number of iterations granted:
    an edge whose end points have the same coordinates, and an edge with
    an end point at which the size function is not a number. *)
Theorem placement_never_ends (NDEBUG : bool) (fuel : nat) (dom : Domain)
  (vs : Vertices) (e : Edge) (a b : Vec2d) :
  vertex_xy vs (e_v1 e) = Ok a ->
  vertex_xy vs (e_v2 e) = Ok b ->
  a = b \/ PrimFloat.is_nan (size_function dom a) = true
  \/ PrimFloat.is_nan (size_function dom b) = true ->
  sub_vertex_placement NDEBUG fuel dom vs e = Err OutOfFuel.
Proof.
  intros Ha Hb H.
  rewrite (sub_vertex_placement_eq NDEBUG fuel dom vs e a b Ha Hb).
  apply placement_of_nan, H.
Qed.

Lemma placement_never_ends_witness :
  vertex_xy square_vertices 0 = Ok (mkVec2d 0%float 0%float)
  /\ sub_vertex_placement false 100 fine_domain square_vertices
       (mkEdge 0 0 0 7%Z) = Err OutOfFuel.
Proof.
  split; [reflexivity|].
  apply (placement_never_ends false 100 fine_domain square_vertices
           (mkEdge 0 0 0 7%Z) (mkVec2d 0%float 0%float)
           (mkVec2d 0%float 0%float) eq_refl eq_refl).
  left. reflexivity.
Defined.

Lemma refine_snapshot_placed (NDEBUG : bool) (fuel : nat) (dom : Domain) :
  forall (l : list Edge) (marked marked' : list EdgeId) (st st' : State),
    vertices_ok (snd st) = true ->
    refine_snapshot NDEBUG fuel dom l marked st = Ok (marked', st') ->
    forall e a b,
      In e l ->
      vertex_xy (snd st) (e_v1 e) = Ok a ->
      vertex_xy (snd st) (e_v2 e) = Ok b ->
      exists pts, placement_of NDEBUG fuel dom a b = Ok pts.
Proof.
  induction l as [|e0 l IH]; intros marked marked' st st' Hvok Hrs e a b Hin
                                    Ha Hb; [destruct Hin|].
  cbn [refine_snapshot] in Hrs.
  destruct (refine_edge NDEBUG fuel dom e0 marked st) as [[m1 st1]|err]
    eqn:Hre; [|discriminate].
  cbn [bind] in Hrs.
  destruct Hin as [->|Hin].
  - apply refine_edge_inv in Hre. destruct Hre as [pts [Hpl _]].
    rewrite (sub_vertex_placement_eq NDEBUG fuel dom (snd st) e a b Ha Hb)
      in Hpl.
    exists pts. exact Hpl.
  - destruct (refine_edge_vertices NDEBUG fuel dom e0 marked m1 st st1 Hvok
                Hre) as [Hvok1 Hle].
    apply (IH m1 marked' st1 st' Hvok1 Hrs e a b Hin).
    + eapply store_le_xy; eassumption.
    + eapply store_le_xy; eassumption.
Qed.

(** X14.  [refine] returns only on a front of proper edges: if it
    returns, no edge of the front has its two end points at the same
    coordinates, and the size function is a number at the end points of
    every edge. *)
Theorem refine_returns_on_proper_edges (NDEBUG : bool)
  (compute_area : list Edge -> Vertices -> double) (n fuel : nat)
  (dom : Domain) (st st' : State) (k : Z) :
  front_ok (fst st) = true ->
  vertices_ok (snd st) = true ->
  length (edges_ (fst st)) <= n ->
  refine NDEBUG compute_area n fuel dom st = Ok (k, st') ->
  forall e a b,
    In e (edges_ (fst st)) ->
    vertex_xy (snd st) (e_v1 e) = Ok a ->
    vertex_xy (snd st) (e_v2 e) = Ok b ->
    a <> b
    /\ PrimFloat.is_nan (size_function dom a) = false
    /\ PrimFloat.is_nan (size_function dom b) = false.
Proof.
  intros Hok Hvok Hn Href e a b Hin Ha Hb.
  destruct (refine_inv NDEBUG compute_area n fuel dom st st' k Hok Hn Href)
    as (marked & st1 & Hrs & _).
  destruct (refine_snapshot_placed NDEBUG fuel dom (edges_ (fst st)) []
              marked st st1 Hvok Hrs e a b Hin Ha Hb) as [pts Hpl].
  assert (Hbad : ~ (a = b \/ PrimFloat.is_nan (size_function dom a) = true
                    \/ PrimFloat.is_nan (size_function dom b) = true)).
  { intros H. rewrite (placement_of_nan NDEBUG fuel dom a b H) in Hpl.
    discriminate. }
  split; [intros H; apply Hbad; left; exact H|].
  split.
  - destruct (PrimFloat.is_nan (size_function dom a)); [|reflexivity].
    exfalso. apply Hbad. right. left. reflexivity.
  - destruct (PrimFloat.is_nan (size_function dom b)); [|reflexivity].
    exfalso. apply Hbad. right. right. reflexivity.
Qed.

Lemma refine_returns_on_proper_edges_witness :
  front_ok (fst square_state) = true
  /\ vertices_ok (snd square_state) = true
  /\ length (edges_ (fst square_state)) <= 4
  /\ In (mkEdge 0 0 1 7%Z) (edges_ (fst square_state))
  /\ exists k st',
       refine false no_area 4 100 fine_domain square_state = Ok (k, st')
       /\ mkVec2d 0%float 0%float <> mkVec2d 10%float 0%float.
Proof.
  split; [reflexivity|]. split; [reflexivity|]. split; [apply Nat.le_refl|].
  split; [left; reflexivity|].
  destruct (refine false no_area 4 100 fine_domain square_state)
    as [[k st']|err] eqn:Hr; [|vm_compute in Hr; discriminate Hr].
  exists k, st'. split; [reflexivity|].
  exact (proj1 (refine_returns_on_proper_edges false no_area 4 100
                  fine_domain square_state st' k eq_refl eq_refl
                  (Nat.le_refl 4) Hr (mkEdge 0 0 1 7%Z)
                  (mkVec2d 0%float 0%float) (mkVec2d 10%float 0%float)
                  (or_introl eq_refl) eq_refl eq_refl)).
Defined.

(** ** Further properties: the debug validation *)

Lemma march_points_release (fuel : nat) (dom : Domain)
  (xy_a xy_b tang : Vec2d) (len rho_b : double) (pts : list Vec2d) :
  march_points false fuel dom xy_a xy_b tang len rho_b = Ok pts ->
  march_points true fuel dom xy_a xy_b tang len rho_b = Ok pts.
Proof.
  unfold march_points.
  destruct (march fuel dom xy_a tang len
              (1.0 - 0.5 * rho_b / len)%float xy_a) as [[marched s_last]|];
    cbn [bind orb]; [|discriminate].
  match goal with
  | |- (if ?c then _ else _) = _ -> _ => destruct c; [auto|discriminate]
  end.
Qed.

Lemma sub_vertex_placement_release (fuel : nat) (dom : Domain)
  (vs : Vertices) (e : Edge) (pts : list Vec2d) :
  sub_vertex_placement false fuel dom vs e = Ok pts ->
  sub_vertex_placement true fuel dom vs e = Ok pts.
Proof.
  intros H.
  destruct (sub_vertex_placement_ok false fuel dom vs e pts H)
    as (a & b & Ha & Hb).
  rewrite (sub_vertex_placement_eq false fuel dom vs e a b Ha Hb) in H.
  rewrite (sub_vertex_placement_eq true fuel dom vs e a b Ha Hb).
  unfold placement_of in *.
  match type of H with
  | bind (march_points false fuel dom ?xa ?xb ?tg ?ln ?rb) _ = _ =>
      destruct (march_points false fuel dom xa xb tg ln rb) as [xy_new|]
        eqn:Hm; [|discriminate];
      rewrite (march_points_release fuel dom xa xb tg ln rb xy_new Hm)
  end.
  exact H.
Qed.

Lemma refine_edge_release (fuel : nat) (dom : Domain) (e : Edge)
  (marked : list EdgeId) (st : State) (r : list EdgeId * State) :
  refine_edge false fuel dom e marked st = Ok r ->
  refine_edge true fuel dom e marked st = Ok r.
Proof.
  unfold refine_edge.
  destruct (sub_vertex_placement false fuel dom (snd st) e) as [pts|] eqn:Hp;
    cbn [bind]; [|discriminate].
  rewrite (sub_vertex_placement_release fuel dom (snd st) e pts Hp).
  cbn [bind]. auto.
Qed.

Lemma refine_loop_release (fuel : nat) (dom : Domain) :
  forall (n : nat) (it : option EdgeId) (seen marked : list EdgeId)
         (st : State) (r : list EdgeId * list EdgeId * State),
    refine_loop false n fuel dom it seen marked st = Ok r ->
    refine_loop true n fuel dom it seen marked st = Ok r.
Proof.
  induction n as [|n IH]; intros it seen marked st r;
    destruct it as [i|]; cbn [refine_loop]; auto.
  destruct (of_option (edge (fst st) i)) as [e|]; cbn [bind]; [|discriminate].
  destruct (refine_edge false fuel dom e marked st) as [[m1 st1]|] eqn:He;
    cbn [bind]; [|discriminate].
  rewrite (refine_edge_release fuel dom e marked st (m1, st1) He).
  cbn [bind]. apply IH.
Qed.

(** X15.  The validation of lines 277-285 only stops a run: whatever
    [refine] returns with the validation in place, it returns without
    it. *)
Theorem release_agrees_with_debug
  (compute_area : list Edge -> Vertices -> double) (n fuel : nat)
  (dom : Domain) (st : State) (r : Z * State) :
  refine false compute_area n fuel dom st = Ok r ->
  refine true compute_area n fuel dom st = Ok r.
Proof.
  unfold refine.
  destruct (refine_loop false n fuel dom (begin_ (fst st)) [] [] st)
    as [[[seen marked] [f vs]]|] eqn:Hl; cbn [bind]; [|discriminate].
  rewrite (refine_loop_release fuel dom n _ _ _ _ _ Hl). cbn [bind]. auto.
Qed.

Lemma release_agrees_with_debug_witness :
  exists r,
    refine false no_area 4 100 graded_domain square_state = Ok r
    /\ refine true no_area 4 100 graded_domain square_state = Ok r.
Proof.
  destruct (refine false no_area 4 100 graded_domain square_state)
    as [r|err] eqn:Hr; [|vm_compute in Hr; discriminate Hr].
  exists r. split; [reflexivity|].
  exact (release_agrees_with_debug no_area 4 100 graded_domain square_state
           r Hr).
Defined.

(** ** Further properties: the failures of [refine] *)

Lemma march_error (dom : Domain) (xy_a tang : Vec2d) (len s_end : double) :
  forall (fuel : nat) (xy : Vec2d) (err : error),
    march fuel dom xy_a tang len s_end xy = Err err -> err = OutOfFuel.
Proof.
  induction fuel as [|fuel IH]; intros xy err H;
    [inversion H; reflexivity|].
  cbn [march] in H.
  match type of H with
  | (if ?c then _ else _) = _ => destruct c; [discriminate|]
  end.
  match type of H with
  | bind (march fuel dom xy_a tang len s_end ?x) _ = _ =>
      destruct (march fuel dom xy_a tang len s_end x) as [[pts s]|err1]
        eqn:Hm; cbn [bind] in H; [discriminate|]
  end.
  inversion H; subst err1. eapply IH. exact Hm.
Qed.

Lemma placement_of_error (NDEBUG : bool) (fuel : nat) (dom : Domain)
  (a b : Vec2d) (err : error) :
  placement_of NDEBUG fuel dom a b = Err err ->
  err = OutOfFuel \/ (NDEBUG = false /\ err = AssertFailed).
Proof.
  unfold placement_of, march_points.
  match goal with
  | |- bind (bind (march fuel dom ?xa ?tg ?ln ?se ?xy) _) _ = _ -> _ =>
      destruct (march fuel dom xa tg ln se xy) as [[marched s_last]|err1]
        eqn:Hm; cbn [bind]
  end.
  - destruct NDEBUG; cbn [orb bind]; [discriminate|].
    match goal with
    | |- bind (if ?c then _ else _) _ = _ -> _ =>
        destruct c; cbn [bind]; [discriminate|]
    end.
    intros H. inversion H. right. auto.
  - intros H. inversion H; subst err1. left. eapply march_error. exact Hm.
Qed.

Lemma create_sub_edges_defined (e : Edge) (pts : list Vec2d) (st : State) :
  pts <> [] -> exists st', create_sub_edges e pts st = Ok st'.
Proof.
  intros Hne. destruct pts as [|p rest]; [contradiction|].
  rewrite create_sub_edges_unfold. eexists. reflexivity.
Qed.

Lemma vertex_xy_defined (vs : Vertices) (i : VertexId) :
  vertex vs i <> None -> exists a, vertex_xy vs i = Ok a.
Proof.
  unfold vertex_xy. destruct (vertex vs i) as [v|]; [|contradiction].
  intros _. exists (xy v). reflexivity.
Qed.

Lemma refine_edge_error (NDEBUG : bool) (fuel : nat) (dom : Domain)
  (e : Edge) (marked : list EdgeId) (st : State) (err : error) :
  vertex (snd st) (e_v1 e) <> None ->
  vertex (snd st) (e_v2 e) <> None ->
  refine_edge NDEBUG fuel dom e marked st = Err err ->
  err = OutOfFuel \/ (NDEBUG = false /\ err = AssertFailed).
Proof.
  intros H1 H2. apply vertex_xy_defined in H1, H2.
  destruct H1 as [a Ha]. destruct H2 as [b Hb]. unfold refine_edge.
  rewrite (sub_vertex_placement_eq NDEBUG fuel dom (snd st) e a b Ha Hb).
  destruct (placement_of NDEBUG fuel dom a b) as [pts|err1] eqn:Hp;
    cbn [bind].
  - destruct (length pts <? 3) eqn:Hlen; [discriminate|].
    apply Nat.ltb_ge in Hlen.
    destruct (create_sub_edges_defined e pts st) as [st' Hc].
    { intros ->. cbn in Hlen. lia. }
    rewrite Hc. cbn [bind]. discriminate.
  - intros H. inversion H; subst err1.
    eapply placement_of_error. exact Hp.
Qed.

Lemma refine_snapshot_error (NDEBUG : bool) (fuel : nat) (dom : Domain)
  (err : error) :
  forall (l : list Edge) (marked : list EdgeId) (st : State),
    vertices_ok (snd st) = true ->
    (forall e, In e l -> vertex (snd st) (e_v1 e) <> None
                         /\ vertex (snd st) (e_v2 e) <> None) ->
    refine_snapshot NDEBUG fuel dom l marked st = Err err ->
    err = OutOfFuel \/ (NDEBUG = false /\ err = AssertFailed).
Proof.
  induction l as [|e l IH]; intros marked st Hvok Hl H; [discriminate|].
  cbn [refine_snapshot] in H.
  destruct (Hl e (or_introl eq_refl)) as [H1 H2].
  destruct (refine_edge NDEBUG fuel dom e marked st) as [[m1 st1]|err1]
    eqn:Hre; cbn [bind] in H.
  - destruct (refine_edge_vertices NDEBUG fuel dom e marked m1 st st1 Hvok
                Hre) as [Hvok1 Hle].
    apply (IH m1 st1 Hvok1); [|exact H].
    intros x Hx. destruct (Hl x (or_intror Hx)) as [X1 X2].
    split.
    + destruct (vertex (snd st) (e_v1 x)) as [v|] eqn:Hv; [|contradiction].
      destruct (Hle _ _ Hv) as (v' & Hv' & _). rewrite Hv'. discriminate.
    + destruct (vertex (snd st) (e_v2 x)) as [v|] eqn:Hv; [|contradiction].
      destruct (Hle _ _ Hv) as (v' & Hv' & _). rewrite Hv'. discriminate.
  - inversion H; subst err1.
    eapply refine_edge_error; [exact H1|exact H2|exact Hre].
Qed.

(** The loop of lines 230-250 pushes one point for every iteration. *)
Lemma march_length (dom : Domain) (xy_a tang : Vec2d) (len s_end : double) :
  forall (fuel : nat) (xy : Vec2d) (pts : list Vec2d) (s : double),
    march fuel dom xy_a tang len s_end xy = Ok (pts, s) ->
    1 <= length pts <= fuel.
Proof.
  induction fuel as [|fuel IH]; intros xy pts s H; [discriminate|].
  cbn [march] in H.
  match type of H with
  | (if ?c then _ else _) = _ => destruct c
  end.
  - inversion H. cbn [length]. lia.
  - match type of H with
    | bind (march fuel dom xy_a tang len s_end ?x) _ = _ =>
        destruct (march fuel dom xy_a tang len s_end x) as [[pts1 s1]|]
          eqn:Hm; cbn [bind] in H; [|discriminate]
    end.
    inversion H; subst pts s. cbn [length]. apply IH in Hm. lia.
Qed.

Lemma march_points_length (NDEBUG : bool) (fuel : nat) (dom : Domain)
  (xy_a xy_b tang : Vec2d) (len rho_b : double) (pts : list Vec2d) :
  march_points NDEBUG fuel dom xy_a xy_b tang len rho_b = Ok pts ->
  length pts <= fuel + 1.
Proof.
  unfold march_points.
  destruct (march fuel dom xy_a tang len
              (1.0 - 0.5 * rho_b / len)%float xy_a) as [[marched s_last]|]
    eqn:Hm; cbn [bind]; [|discriminate].
  apply march_length in Hm.
  match goal with
  | |- (if ?c then _ else _) = _ -> _ => destruct c; [|discriminate]
  end.
  intros H. inversion H. cbn [length].
  rewrite length_app, length_map, length_combine. cbn [length].
  assert (Hr : length (removelast marched) <= length marched - 1).
  { destruct marched as [|p marched]; [cbn; lia|].
    rewrite removelast_firstn_len, length_firstn. cbn [length]. lia. }
  lia.
Qed.

(** The vectors that the counted loops of lines 261, 273, 279 and 308 run
    over have no more points than the marching loop has taken steps, and
    one more. *)
Lemma sub_vertex_placement_length (NDEBUG : bool) (fuel : nat)
  (dom : Domain) (vs : Vertices) (e : Edge) (pts : list Vec2d) :
  sub_vertex_placement NDEBUG fuel dom vs e = Ok pts ->
  length pts <= fuel + 1.
Proof.
  intros H.
  destruct (sub_vertex_placement_ok NDEBUG fuel dom vs e pts H)
    as (a & b & Ha & Hb).
  rewrite (sub_vertex_placement_eq NDEBUG fuel dom vs e a b Ha Hb) in H.
  unfold placement_of in H.
  match type of H with
  | bind (march_points NDEBUG fuel dom ?xa ?xb ?tg ?ln ?rb) _ = _ =>
      destruct (march_points NDEBUG fuel dom xa xb tg ln rb) as [xy_new|]
        eqn:Hm; cbn [bind] in H; [|discriminate]
  end.
  apply march_points_length in Hm. inversion H.
  destruct (size_function dom a <? size_function dom b)%float;
    rewrite ?length_rev; exact Hm.
Qed.

Lemma placement_within_int (NDEBUG : bool) (fuel : nat) (dom : Domain)
  (vs : Vertices) (e : Edge) (pts : list Vec2d) :
  (Z.of_nat fuel < INT_MAX)%Z ->
  sub_vertex_placement NDEBUG fuel dom vs e = Ok pts ->
  (Z.of_nat (length pts) <= INT_MAX)%Z.
Proof.
  intros Hf H. apply sub_vertex_placement_length in H. lia.
Qed.

(** X16.  On a well-formed front whose edges have their end points in the
    store, and as long as the marching loop takes fewer than [INT_MAX] steps
    on an edge, [refine] has no undefined behaviour.  No vector of points
    has more than [INT_MAX] elements, so that no [int] counter of the loops
    of lines 261, 273, 279 and 308 overflows; [refine] reads no edge and no
    vertex that is not there, and it never calls [create_sub_edges] with
    the empty vector that makes its loop bound wrap around.  If [refine]
    does not return, its marching loop has not come to an end within these
    steps, or, with the validation compiled in, the validation has
    failed. *)
Theorem refine_is_defined (NDEBUG : bool)
  (compute_area : list Edge -> Vertices -> double) (n fuel : nat)
  (dom : Domain) (st : State) :
  front_ok (fst st) = true ->
  vertices_ok (snd st) = true ->
  (forall e, In e (edges_ (fst st)) ->
     vertex (snd st) (e_v1 e) <> None /\ vertex (snd st) (e_v2 e) <> None) ->
  length (edges_ (fst st)) <= n ->
  (Z.of_nat fuel < INT_MAX)%Z ->
  (forall vs e pts,
     sub_vertex_placement NDEBUG fuel dom vs e = Ok pts ->
     (Z.of_nat (length pts) <= INT_MAX)%Z)
  /\ (forall err,
        refine NDEBUG compute_area n fuel dom st = Err err ->
        err = OutOfFuel \/ (NDEBUG = false /\ err = AssertFailed)).
Proof.
  intros Hok Hvok Hl Hn Hf. split.
  - intros vs e pts. apply placement_within_int. exact Hf.
  - intros err. unfold refine.
    change (begin_ (fst st)) with (head_id (edges_ (fst st))).
    rewrite (refine_loop_snapshot NDEBUG fuel dom (edges_ (fst st)) [] n []
               [] st eq_refl Hok Hn).
    destruct (refine_snapshot NDEBUG fuel dom (edges_ (fst st)) [] st)
      as [[marked [f1 vs1]]|err1] eqn:Hrs; cbn [bind]; [discriminate|].
    intros H. inversion H; subst err1.
    eapply refine_snapshot_error; [exact Hvok|exact Hl|exact Hrs].
Qed.

Lemma refine_is_defined_witness :
  front_ok (fst square_state) = true
  /\ vertices_ok (snd square_state) = true
  /\ length (edges_ (fst square_state)) <= 4
  /\ (Z.of_nat 3 < INT_MAX)%Z
  /\ refine false no_area 4 3 fine_domain square_state = Err OutOfFuel.
Proof.
  split; [reflexivity|]. split; [reflexivity|]. split; [apply Nat.le_refl|].
  split; [reflexivity|].
  destruct (refine false no_area 4 3 fine_domain square_state)
    as [r|err] eqn:Hr; [vm_compute in Hr; discriminate Hr|].
  destruct (refine_is_defined false no_area 4 3 fine_domain square_state
              eq_refl eq_refl) as [_ H].
  - intros e He. vm_compute in He.
    destruct He as [<-|[<-|[<-|[<-|[]]]]]; split; vm_compute; discriminate.
  - apply Nat.le_refl.
  - reflexivity.
  - destruct (H err Hr) as [->|[_ ->]]; [reflexivity|].
    vm_compute in Hr. discriminate Hr.
Defined.

(** X17.  The constructor has no undefined behaviour on a domain whose
    boundary edges have their end points in the store, as long as the
    marching loop takes fewer than [INT_MAX] steps on an edge: no vector of
    points has more than [INT_MAX] elements, so that no [int] counter
    overflows, and if the constructor does not return a front, the
    orientation check or the validation has failed, or the marching loop
    has not come to an end within these steps. *)
Theorem constructor_is_defined (NDEBUG : bool)
  (compute_area : list Edge -> Vertices -> double)
  (check_orientation : list Edge -> Vertices -> bool) (n fuel : nat)
  (dom : Domain) (vs : Vertices) :
  vertices_ok vs = true ->
  (forall e, In e (concat (boundaries dom)) ->
     vertex vs (e_v1 e) <> None /\ vertex vs (e_v2 e) <> None) ->
  length (concat (boundaries dom)) <= n ->
  (Z.of_nat fuel < INT_MAX)%Z ->
  (forall vs' e pts,
     sub_vertex_placement NDEBUG fuel dom vs' e = Ok pts ->
     (Z.of_nat (length pts) <= INT_MAX)%Z)
  /\ (forall err,
        Front_new NDEBUG compute_area check_orientation n fuel dom vs
        = Err err ->
        err = OutOfFuel
        \/ (err = AssertFailed
            /\ (NDEBUG = false
                \/ check_orientation (renumber 0 (concat (boundaries dom)))
                                     (snd (boundary_front dom vs)) = false))).
Proof.
  intros Hvok Hl Hn Hfuel. split;
    [intros vs' e pts; apply placement_within_int; exact Hfuel|].
  intros err. unfold Front_new. cbv zeta.
  change (fold_left
            (fun st boundary => fold_left add_boundary_edge boundary st)
            (boundaries dom) (empty_front, vs))
    with (boundary_front dom vs).
  pose proof (boundary_front_fst dom vs) as Hf.
  replace (edges_ (fst (boundary_front dom vs)))
    with (renumber 0 (concat (boundaries dom)))
    by (rewrite Hf; reflexivity).
  destruct (check_orientation (renumber 0 (concat (boundaries dom)))
              (snd (boundary_front dom vs)));
    [|intros H; inversion H; auto].
  assert (Hlen : length (edges_ (fst (boundary_front dom vs))) <= n).
  { rewrite Hf. cbn [edges_]. rewrite renumber_length. exact Hn. }
  assert (Hbf : boundary_front dom vs
                = fold_left add_boundary_edge (concat (boundaries dom))
                            (empty_front, vs)).
  { unfold boundary_front. apply fold_boundaries_concat. }
  destruct (add_boundary_edges_store (concat (boundaries dom))
              (empty_front, vs)) as (_ & Hvok1 & Hle1).
  rewrite <- Hbf in Hvok1, Hle1. cbn [snd] in Hvok1, Hle1.
  specialize (Hvok1 Hvok).
  unfold refine.
  change (begin_ (fst (boundary_front dom vs)))
    with (head_id (edges_ (fst (boundary_front dom vs)))).
  rewrite (refine_loop_snapshot NDEBUG fuel dom
             (edges_ (fst (boundary_front dom vs))) [] n [] []
             (boundary_front dom vs) eq_refl (boundary_front_ok dom vs) Hlen).
  destruct (refine_snapshot NDEBUG fuel dom
              (edges_ (fst (boundary_front dom vs))) []
              (boundary_front dom vs))
    as [[marked [f1 vs1]]|err1] eqn:Hrs; cbn [bind]; [discriminate|].
  intros H. inversion H; subst err1.
  assert (Hl1 : forall x,
             In x (edges_ (fst (boundary_front dom vs))) ->
             vertex (snd (boundary_front dom vs)) (e_v1 x) <> None
             /\ vertex (snd (boundary_front dom vs)) (e_v2 x) <> None).
  { intros x Hx. rewrite Hf in Hx. cbn [edges_] in Hx.
    apply renumber_In in Hx. destruct Hx as (e & He & -> & -> & _).
    destruct (Hl e He) as [H1 H2]. split.
    - destruct (vertex vs (e_v1 e)) as [v|] eqn:Hv; [|contradiction].
      destruct (Hle1 _ _ Hv) as (v' & Hv' & _). rewrite Hv'. discriminate.
    - destruct (vertex vs (e_v2 e)) as [v|] eqn:Hv; [|contradiction].
      destruct (Hle1 _ _ Hv) as (v' & Hv' & _). rewrite Hv'. discriminate. }
  destruct (refine_snapshot_error NDEBUG fuel dom err _ _ _ Hvok1 Hl1 Hrs)
    as [->|[HN ->]]; auto.
Qed.

Lemma constructor_is_defined_witness :
  vertices_ok square_vertices = true
  /\ length (concat (boundaries fine_domain)) <= 4
  /\ (Z.of_nat 3 < INT_MAX)%Z
  /\ Front_new false no_area any_orientation 4 3 fine_domain square_vertices
     = Err OutOfFuel.
Proof.
  split; [reflexivity|]. split; [apply Nat.le_refl|]. split; [reflexivity|].
  destruct (Front_new false no_area any_orientation 4 3 fine_domain
              square_vertices) as [r|err] eqn:Hr;
    [vm_compute in Hr; discriminate Hr|].
  assert (Hl : forall e, In e (concat (boundaries fine_domain)) ->
                 vertex square_vertices (e_v1 e) <> None
                 /\ vertex square_vertices (e_v2 e) <> None).
  { intros e He. vm_compute in He.
    destruct He as [<-|[<-|[<-|[<-|[]]]]]; split; discriminate. }
  destruct (constructor_is_defined false no_area any_orientation 4 3
              fine_domain square_vertices eq_refl Hl (Nat.le_refl 4)
              eq_refl) as [_ H].
  destruct (H err Hr) as [->|[-> _]]; [reflexivity|].
  vm_compute in Hr. discriminate Hr.
Defined.
